(** * Shamir secret sharing over GF(256) with Base62 share framing

    A shallow embedding of [src/crypto/shamir.py] and of the parts of
    [src/crypto/security.py] it calls, followed by the properties of the
    specification that were checked against it.

    Conventions.
    - Python integers are [Z]; a byte is a [Z] in [0, 255]; [bytes] and
      lists of integers are [list Z].
    - Share strings are [string]s, sequences of characters below U+0100;
      the secret is a list of Unicode code points.
    - A raised exception is an [Err] value; [try/except] is a [match].
    - The random source is an explicit stream that is threaded through the
      functions that draw from it. *)

From Stdlib Require Import ZArith List Lia Bool String Ascii DecimalString.
From Stdlib Require Import FMapPositive Eqdep_dec Field.
Import ListNotations.

Open Scope string_scope.
Open Scope list_scope.
Open Scope Z_scope.

(** ** Exceptions and results *)

Inductive exn : Type :=
| ValueError (msg : string)
| SecurityError (msg : string)
| OverflowError (msg : string)
| UnicodeEncodeError
| UnicodeDecodeError.

(** [str(e)] *)
Definition exn_str (e : exn) : string :=
  match e with
  | ValueError m | SecurityError m | OverflowError m => m
  | UnicodeEncodeError => "'utf-8' codec can't encode character"
  | UnicodeDecodeError => "'utf-8' codec can't decode byte"
  end.

Inductive result (A : Type) : Type :=
| Ok (a : A)
| Err (e : exn).

Arguments Ok {A} a.
Arguments Err {A} e.

Definition bind {A B} (r : result A) (k : A -> result B) : result B :=
  match r with
  | Ok a => k a
  | Err e => Err e
  end.

Notation "x <- r ;; k" := (bind r (fun x => k))
  (at level 61, r at next level, right associativity).
Notation "' p <- r ;; k" := (bind r (fun p => k))
  (at level 61, p pattern, r at next level, right associativity).

(** A [for] loop whose body may raise: the first exception ends the loop. *)
Fixpoint foldM {A S : Type} (f : S -> A -> result S) (l : list A) (s : S)
  : result S :=
  match l with
  | [] => Ok s
  | a :: l' => s' <- f s a ;; foldM f l' s'
  end.

(** ** Python list helpers *)

(** [enumerate(l)] *)
Definition enumerate {A} (l : list A) : list (nat * A) :=
  combine (seq 0 (List.length l)) l.

(** [l[a:b]] for [0 <= a <= b] *)
Definition slice {A} (l : list A) (a b : nat) : list A :=
  firstn (b - a) (skipn a l).

(** [l[i] = v] for an index inside the list. *)
Fixpoint set_nth {A} (l : list A) (i : nat) (v : A) : list A :=
  match l, i with
  | [], _ => []
  | _ :: t, O => v :: t
  | h :: t, S i' => h :: set_nth t i' v
  end.

(** [l[i]] for [-len(l) <= i < len(l)]: a negative index counts from the
    end of the list.  Outside that range Python raises an [IndexError];
    the tables below are only ever indexed inside it (by bytes, and by
    the small negative values that signed hex digits stand for), so the
    default is never returned. *)
Definition znth (l : list Z) (i : Z) : Z :=
  nth (Z.to_nat (if i <? 0 then Z.of_nat (List.length l) + i else i)) l 0.

Definition is_byte (z : Z) : Prop := 0 <= z < 256.
Definition is_byteb (z : Z) : bool := (0 <=? z) && (z <? 256).

(** ** GF(256) arithmetic *)

Module GF256.

(** x^8 + x^4 + x^3 + x + 1 *)
Definition _POLYNOMIAL : Z := 0x11b.

(** One run of the [while b:] loop of [_gf_mult_basic]; [None] when the
    fuel runs out before [b] reaches 0. *)
Fixpoint gf_mult_basic_loop (fuel : nat) (a b result : Z) : option Z :=
  match fuel with
  | O => None
  | S fuel' =>
      if b =? 0 then Some result
      else
        let result := if Z.land b 1 =? 0 then result else Z.lxor result a in
        let a := Z.shiftl a 1 in
        let a := if Z.land a 0x100 =? 0 then a else Z.lxor a _POLYNOMIAL in
        let b := Z.shiftr b 1 in
        gf_mult_basic_loop fuel' a b result
  end.

(** The loop halves [b] on every round, so one round per bit of [b] and one
    more to see [b = 0] are enough (see [gf_mult_basic_loop_fuel]). *)
Definition mult_basic_fuel (b : Z) : nat := Z.to_nat (Z.log2 b) + 2.

Definition _gf_mult_basic (a b : Z) : Z :=
  match gf_mult_basic_loop (mult_basic_fuel b) a b 0 with
  | Some result => Z.land result 0xff
  | None => 0
  end.

(** [_build_tables]: returns [(exp_table, log_table)]. *)
Definition _build_tables : list Z * list Z :=
  let exp_table := repeat 0 256 in
  let log_table := repeat 0 256 in
  let '(exp_table, _) :=
    fold_left
      (fun '(exp_table, x) i =>
         (set_nth exp_table i x, _gf_mult_basic x 3))
      (seq 0 255) (exp_table, 1) in
  let exp_table := set_nth exp_table 255 (nth 0 exp_table 0) in
  let log_table :=
    fold_left
      (fun log_table i =>
         set_nth log_table (Z.to_nat (nth i exp_table 0)) (Z.of_nat i))
      (seq 0 255) log_table in
  (exp_table, log_table).

(** The tables held by an instance after [__init__]. *)
Definition _exp_table : list Z := Eval vm_compute in fst _build_tables.
Definition _log_table : list Z := Eval vm_compute in snd _build_tables.

Definition _gf_mult (a b : Z) : Z :=
  if (a =? 0) || (b =? 0) then 0
  else znth _exp_table ((znth _log_table a + znth _log_table b) mod 255).

Definition _gf_div (a b : Z) : result Z :=
  if a =? 0 then Ok 0
  else if b =? 0 then Err (ValueError "Division by zero in GF(256)")
  else Ok (znth _exp_table ((znth _log_table a - znth _log_table b) mod 255)).

(** [_evaluate_polynomial]: Horner's rule over the reversed coefficients. *)
Definition _evaluate_polynomial (coefficients : list Z) (x : Z) : Z :=
  fold_left (fun result coeff => Z.lxor (_gf_mult result x) coeff)
            (rev coefficients) 0.

(** Body of the inner loop of [_lagrange_interpolation],
    [for j, (xj, _) in enumerate(points)], for the point [i]. *)
Definition lagrange_basis_step (x : Z) (i : nat) (xi : Z) (li : Z)
    (entry : nat * (Z * Z)) : result Z :=
  let '(j, (xj, _)) := entry in
  if negb (i =? j)%nat then
    if xi =? xj then
      Err (ValueError "Duplicate x-coordinates in interpolation points")
    else
      let numerator := Z.lxor x xj in
      let denominator := Z.lxor xi xj in
      q <- _gf_div numerator denominator ;;
      Ok (_gf_mult li q)
  else Ok li.

(** The basis factor [li] of the point [i]. *)
Definition lagrange_basis (points : list (Z * Z)) (x : Z) (i : nat) (xi : Z)
  : result Z :=
  foldM (lagrange_basis_step x i xi) (enumerate points) 1.

(** Body of the outer loop, [for i, (xi, yi) in enumerate(points)]. *)
Definition lagrange_step (points : list (Z * Z)) (x : Z) (acc : Z)
    (entry : nat * (Z * Z)) : result Z :=
  let '(i, (xi, yi)) := entry in
  li <- lagrange_basis points x i xi ;;
  Ok (Z.lxor acc (_gf_mult yi li)).

Definition _lagrange_interpolation (points : list (Z * Z)) (x : Z)
  : result Z :=
  match points with
  | [] => Err (ValueError "No points provided for interpolation")
  | _ => foldM (lagrange_step points x) (enumerate points) 0
  end.

End GF256.

Import GF256.

(** ** Python integers, bytes and strings *)

Module Py.

(** [bytes(values)]: every element must be a byte. *)
Definition bytes_of_list (values : list Z) : result (list Z) :=
  if forallb is_byteb values then Ok values
  else Err (ValueError "bytes must be in range(0, 256)").

(** [int.from_bytes(data, byteorder='big')] *)
Definition int_from_bytes (data : list Z) : Z :=
  fold_left (fun acc b => acc * 256 + b) data 0.

(** [num.bit_length()] for [num >= 0] *)
Definition bit_length (num : Z) : Z :=
  if num =? 0 then 0 else Z.log2 num + 1.

(** The [length] low base-256 digits of [num], least significant first. *)
Fixpoint le_bytes (length : nat) (num : Z) : list Z :=
  match length with
  | O => []
  | S length' => num mod 256 :: le_bytes length' (num / 256)
  end.

(** [num.to_bytes(length, byteorder='big')] for [length >= 0] *)
Definition int_to_bytes (num : Z) (length : Z) : result (list Z) :=
  if num <? 0 then
    Err (OverflowError "can't convert negative int to unsigned")
  else if 256 ^ length <=? num then
    Err (OverflowError "int too big to convert")
  else Ok (rev (le_bytes (Z.to_nat length) num)).

(** [c in s] *)
Fixpoint contains (s : string) (c : ascii) : bool :=
  match s with
  | EmptyString => false
  | String c' s' => Ascii.eqb c c' || contains s' c
  end.

(** [s.index(c)], for [c in s] *)
Fixpoint index_of (s : string) (c : ascii) : Z :=
  match s with
  | EmptyString => 0
  | String c' s' => if Ascii.eqb c c' then 0 else 1 + index_of s' c
  end.

(** [s[i]] for [0 <= i < len(s)] *)
Definition char_at (s : string) (i : Z) : ascii :=
  match String.get (Z.to_nat i) s with
  | Some c => c
  | None => "000"%char
  end.

(** [s[:n]] *)
Fixpoint take (n : nat) (s : string) : string :=
  match n, s with
  | S n', String c s' => String c (take n' s')
  | _, _ => EmptyString
  end.

(** [s.split(sep, 1)] when [sep in s]: the text before and after the first
    occurrence. *)
Fixpoint split_first (s : string) (sep : ascii) : string * string :=
  match s with
  | EmptyString => (EmptyString, EmptyString)
  | String c s' =>
      if Ascii.eqb c sep then (EmptyString, s')
      else let '(before, after) := split_first s' sep in
           (String c before, after)
  end.

(** [str(n)] for an integer *)
Definition str_of_int (n : Z) : string :=
  NilZero.string_of_int (Z.to_int n).

(** [ord(c)] *)
Definition ord (c : ascii) : Z := Z.of_nat (nat_of_ascii c).

(** The double quote and the backslash *)
Definition double_quote : ascii := "034"%char.
Definition backslash : ascii := "092"%char.

(** The hexadecimal digit [d], in lower case, for [0 <= d < 16] *)
Definition hex_char (d : Z) : ascii := char_at "0123456789abcdef" d.

(** How [repr] writes one character of a string that it puts between
    [quote]s.  Below U+0100 the characters that are not printable are
    the control characters, the no-break space and the soft hyphen. *)
Definition repr_char (quote c : ascii) : string :=
  let n := ord c in
  if Ascii.eqb c quote || Ascii.eqb c backslash then
    String backslash (String c EmptyString)
  else if n =? 9 then String backslash "t"
  else if n =? 10 then String backslash "n"
  else if n =? 13 then String backslash "r"
  else if (n <? 32) || (n =? 127) || ((128 <=? n) && (n <=? 160))
          || (n =? 173) then
    String backslash
      (String "x" (String (hex_char (n / 16))
                     (String (hex_char (n mod 16)) EmptyString)))
  else String c EmptyString.

Fixpoint repr_chars (quote : ascii) (s : string) : string :=
  match s with
  | EmptyString => EmptyString
  | String c s' => (repr_char quote c ++ repr_chars quote s')%string
  end.

(** [repr(s)]: single quotes, unless [s] has a single quote and no double
    quote. *)
Definition repr (s : string) : string :=
  let quote :=
    if contains s "'" && negb (contains s double_quote) then double_quote
    else "'"%char in
  String quote (repr_chars quote s ++ String quote EmptyString).

Definition hex_digit (c : ascii) : option Z :=
  let n := ord c in
  if (48 <=? n) && (n <=? 57) then Some (n - 48)
  else if (65 <=? n) && (n <=? 70) then Some (n - 55)
  else if (97 <=? n) && (n <=? 102) then Some (n - 87)
  else None.

(** The white space that [int()] skips around a literal: the ASCII blanks
    and, below U+0100, the next-line character and the no-break space. *)
Definition int_space (c : ascii) : bool :=
  let n := ord c in
  ((9 <=? n) && (n <=? 13)) || (n =? 32) || (n =? 133) || (n =? 160).

Fixpoint skip_spaces (s : string) : string :=
  match s with
  | String c s' => if int_space c then skip_spaces s' else s
  | EmptyString => EmptyString
  end.

Fixpoint drop_trailing_spaces (s : string) : string :=
  match s with
  | EmptyString => EmptyString
  | String c s' =>
      match drop_trailing_spaces s' with
      | EmptyString =>
          if int_space c then EmptyString else String c EmptyString
      | r => String c r
      end
  end.

(** An optional sign in front of a literal. *)
Definition literal_sign (s : string) : Z * string :=
  match s with
  | String c r =>
      if Ascii.eqb c "-" then (-1, r)
      else if Ascii.eqb c "+" then (1, r)
      else (1, s)
  | EmptyString => (1, s)
  end.

(** An optional [0x] or [0X] in front of the digits, which one underscore
    may follow. *)
Definition skip_hex_prefix (s : string) : string :=
  match s with
  | String c0 (String c1 r) =>
      if Ascii.eqb c0 "0" && (Ascii.eqb c1 "x" || Ascii.eqb c1 "X") then
        match r with
        | String c2 r' => if Ascii.eqb c2 "_" then r' else r
        | EmptyString => r
        end
      else s
  | _ => s
  end.

(** The digits of a literal: hexadecimal digits with single underscores
    between them.  [expect_digit] holds at the start and after an
    underscore, where a digit has to come next. *)
Fixpoint hex_digits (s : string) (acc : Z) (expect_digit : bool)
  : option Z :=
  match s with
  | EmptyString => if expect_digit then None else Some acc
  | String c s' =>
      if Ascii.eqb c "_" then
        if expect_digit then None else hex_digits s' acc true
      else
        match hex_digit c with
        | Some d => hex_digits s' (acc * 16 + d) false
        | None => None
        end
  end.

(** [int(s, 16)] for a [str] of characters below U+0100: white space
    around the literal is skipped, then come an optional sign, an
    optional [0x] prefix and the digits; anything else is a
    [ValueError], whose message quotes up to 200 characters of
    [repr(s)]. *)
Definition int_base16 (s : string) : result Z :=
  let '(sign, literal) :=
    literal_sign (drop_trailing_spaces (skip_spaces s)) in
  match hex_digits (skip_hex_prefix literal) 0 true with
  | Some v => Ok (sign * v)
  | None =>
      Err (ValueError ("invalid literal for int() with base 16: "
                         ++ take 200 (repr s)))
  end.

(** The argument of a public operation as the caller passed it: an [int], a
    [bool] (a subclass of [int]) or an object of any other type. *)
Inductive value : Type :=
| Int (z : Z)
| Bool (b : bool)
| Other (type_name : string).

(** [isinstance(v, int)] *)
Definition isinstance_int (v : value) : bool :=
  match v with
  | Int _ | Bool _ => true
  | Other _ => false
  end.

(** The number an [int] instance stands for in comparisons and [range]. *)
Definition int_of (v : value) : Z :=
  match v with
  | Int z => z
  | Bool true => 1
  | Bool false => 0
  | Other _ => 0
  end.

End Py.

(** ** UTF-8, as [str.encode('utf-8')] and [bytes.decode('utf-8')] *)

Module Utf8.

(** A [str] is a sequence of code points in [0, 0x10FFFF]. *)
Definition is_code_point (c : Z) : Prop := 0 <= c <= 0x10FFFF.

Definition is_surrogate (c : Z) : bool := (0xD800 <=? c) && (c <=? 0xDFFF).

Definition encode_code_point (c : Z) : result (list Z) :=
  if c <? 0x80 then Ok [c]
  else if c <? 0x800 then Ok [0xC0 + c / 64; 0x80 + c mod 64]
  else if c <? 0x10000 then
    if is_surrogate c then Err UnicodeEncodeError
    else Ok [0xE0 + c / 4096; 0x80 + (c / 64) mod 64; 0x80 + c mod 64]
  else Ok [0xF0 + c / 262144; 0x80 + (c / 4096) mod 64;
           0x80 + (c / 64) mod 64; 0x80 + c mod 64].

Fixpoint encode (s : list Z) : result (list Z) :=
  match s with
  | [] => Ok []
  | c :: s' =>
      bs <- encode_code_point c ;;
      rest <- encode s' ;;
      Ok (bs ++ rest)
  end.

(** A continuation byte [10xxxxxx] *)
Definition is_cont (b : Z) : bool := (0x80 <=? b) && (b <=? 0xBF).

(** Strict decoding: truncated, overlong, surrogate and out-of-range
    sequences are errors. *)
Fixpoint decode (bs : list Z) : result (list Z) :=
  match bs with
  | [] => Ok []
  | b0 :: r0 =>
      if b0 <? 0x80 then
        rest <- decode r0 ;; Ok (b0 :: rest)
      else if b0 <? 0xC2 then Err UnicodeDecodeError
      else if b0 <? 0xE0 then
        match r0 with
        | b1 :: r1 =>
            if is_cont b1 then
              rest <- decode r1 ;;
              Ok ((b0 - 0xC0) * 64 + (b1 - 0x80) :: rest)
            else Err UnicodeDecodeError
        | _ => Err UnicodeDecodeError
        end
      else if b0 <? 0xF0 then
        match r0 with
        | b1 :: b2 :: r2 =>
            let c := (b0 - 0xE0) * 4096 + (b1 - 0x80) * 64 + (b2 - 0x80) in
            if is_cont b1 && is_cont b2 && (0x800 <=? c)
               && negb (is_surrogate c) then
              rest <- decode r2 ;; Ok (c :: rest)
            else Err UnicodeDecodeError
        | _ => Err UnicodeDecodeError
        end
      else if b0 <? 0xF5 then
        match r0 with
        | b1 :: b2 :: b3 :: r3 =>
            let c := (b0 - 0xF0) * 262144 + (b1 - 0x80) * 4096
                     + (b2 - 0x80) * 64 + (b3 - 0x80) in
            if is_cont b1 && is_cont b2 && is_cont b3
               && (0x10000 <=? c) && (c <=? 0x10FFFF) then
              rest <- decode r3 ;; Ok (c :: rest)
            else Err UnicodeDecodeError
        | _ => Err UnicodeDecodeError
        end
      else Err UnicodeDecodeError
  end.

End Utf8.

(** ** [SecurityValidator] *)

Module Security.

(** The state of the random source.  [csprng_ok] tells whether the
    system's random source can be read: [verify_csprng] returns it, and
    [secrets.choice] raises when it cannot.  (A source that can be read
    but hands out the same block of 32 bytes twice, which also fails the
    self-test, is left out.)
    [raw n] is the number behind the [n]-th result of
    [secrets.randbelow], of which only the residue is used, and [pos] is
    the place in that stream.  The stream lists results, not what is read
    from the operating system: each call of [verify_csprng] reads two
    blocks of 32 bytes, and [randbelow] reads again when a value falls
    outside its range. *)
Record rng : Type := mk_rng {
  csprng_ok : bool;
  raw : nat -> Z;
  pos : nat
}.

(** [secrets.randbelow(n)] for [n > 0]: a number in [0, n). *)
Definition randbelow (n : Z) (g : rng) : Z * rng :=
  (raw g (pos g) mod n, mk_rng (csprng_ok g) (raw g) (S (pos g))).

Definition secure_random_int (min_val max_val : Z) (g : rng)
  : result (Z * rng) :=
  if negb (csprng_ok g) then
    Err (SecurityError
           "Cryptographically secure random number generator not available")
  else
    let '(r, g') := randbelow (max_val - min_val + 1) g in
    Ok (r + min_val, g').

Definition validate_share_parameters (total_shares threshold : Py.value)
  : bool * string :=
  if negb (Py.isinstance_int total_shares)
     || negb (Py.isinstance_int threshold) then
    (false, "Share parameters must be integers")
  else if Py.int_of total_shares <? 2 then
    (false, "Total shares must be at least 2")
  else if 255 <? Py.int_of total_shares then
    (false, "Total shares cannot exceed 255")
  else if Py.int_of threshold <? 2 then
    (false, "Threshold must be at least 2")
  else if Py.int_of total_shares <? Py.int_of threshold then
    (false, "Threshold cannot exceed total shares")
  else (true, EmptyString).

(** [validate_secret_length]; [secret] is a [str] by its type here, so the
    [isinstance] test of the source always passes. *)
Definition validate_secret_length (secret : list Z)
    (min_length max_length : Z) : bool * string :=
  if Z.of_nat (List.length secret) <? min_length then
    (false, ("Secret must be at least " ++ Py.str_of_int min_length
               ++ " characters")%string)
  else if max_length <? Z.of_nat (List.length secret) then
    (false, ("Secret cannot exceed " ++ Py.str_of_int max_length
               ++ " characters")%string)
  else if existsb (Z.eqb 0) secret then
    (false, "Secret cannot contain null bytes")
  else (true, EmptyString).

End Security.

(** ** [ShamirSecretSharing] *)

Module Shamir.

Import Security.

Definition _BASE62_ALPHABET : string :=
  "0123456789ABCDEFGHIJKLMNOPQRSTUVWXYZabcdefghijklmnopqrstuvwxyz".

(** The [while num > 0:] loop of [_encode_base62]; [None] when the fuel
    runs out first. *)
Fixpoint encode_base62_loop (fuel : nat) (num : Z) (result : string)
  : option string :=
  match fuel with
  | O => None
  | S fuel' =>
      if 0 <? num then
        encode_base62_loop fuel' (num / 62)
          (String (Py.char_at _BASE62_ALPHABET (num mod 62)) result)
      else Some result
  end.

(** A base-62 digit carries more than one bit, so one round per bit of
    [num] and one more are enough (see [encode_base62_loop_fuel]). *)
Definition encode_fuel (num : Z) : nat := Z.to_nat (Z.log2 num) + 2.

Definition _encode_base62 (data : list Z) : string :=
  match data with
  | [] => EmptyString
  | _ =>
      let num := Py.int_from_bytes data in
      if num =? 0 then String (Py.char_at _BASE62_ALPHABET 0) EmptyString
      else
        match encode_base62_loop (encode_fuel num) num EmptyString with
        | Some result => result
        | None => EmptyString
        end
  end.

(** The [for char in encoded:] loop of [_decode_base62]. *)
Fixpoint decode_base62_loop (encoded : string) (num : Z) : result Z :=
  match encoded with
  | EmptyString => Ok num
  | String char rest =>
      if negb (Py.contains _BASE62_ALPHABET char) then
        Err (ValueError ("Invalid Base62 character: " ++ String char EmptyString))
      else
        decode_base62_loop rest
          (num * 62 + Py.index_of _BASE62_ALPHABET char)
  end.

Definition _decode_base62 (encoded : string) : result (list Z) :=
  match encoded with
  | EmptyString => Ok []
  | _ =>
      num <- decode_base62_loop encoded 0 ;;
      if num =? 0 then Ok [0]
      else
        let byte_length := (Py.bit_length num + 7) / 8 in
        Py.int_to_bytes num byte_length
  end.

(** [n] draws of [secure_random_int(1, 255)] appended to a [bytearray]. *)
Fixpoint random_bytes (n : nat) (g : rng) : result (list Z * rng) :=
  match n with
  | O => Ok ([], g)
  | S n' =>
      '(b, g1) <- secure_random_int 1 255 g ;;
      '(bs, g2) <- random_bytes n' g1 ;;
      Ok (b :: bs, g2)
  end.

Definition _format_share_with_original_length
    (share_id : Z) (share_data : list Z) (original_secret_length : Z)
    (g : rng) : result (string * rng) :=
  let padded_length := Z.of_nat (List.length share_data) in
  id_byte <- Py.bytes_of_list [share_id] ;;
  original_bytes <- Py.int_to_bytes original_secret_length 2 ;;
  padded_bytes <- Py.int_to_bytes padded_length 2 ;;
  let header := id_byte ++ original_bytes ++ padded_bytes in
  let base_data := header ++ share_data in
  let encoded := _encode_base62 base_data in
  if (String.length encoded <? 250)%nat then
    let padding_needed := (250 - String.length encoded)%nat in
    '(additional_padding, g') <-
      random_bytes (padding_needed / 3 + 10)%nat g ;;
    let padding_encoded := _encode_base62 additional_padding in
    let encoded := (encoded ++ padding_encoded)%string in
    if (250 <? String.length encoded)%nat then Ok (Py.take 250 encoded, g')
    else Ok (encoded, g')
  else Ok (encoded, g).

(** The body of the [try] block of [_parse_base62_share]. *)
Definition parse_base62_share_body (share_str : string)
  : result (Z * list Z) :=
  decoded_bytes <- _decode_base62 share_str ;;
  if (List.length decoded_bytes <? 5)%nat then
    if (2 <=? List.length decoded_bytes)%nat then
      let share_id := nth 0 decoded_bytes 0 in
      let original_length := nth 1 decoded_bytes 0 in
      if (1 <=? share_id) && (share_id <=? 255) then
        Ok (share_id,
            slice decoded_bytes 2 (2 + Z.to_nat original_length))
      else Err (ValueError "Share too short")
    else Err (ValueError "Share too short")
  else
    let share_id := nth 0 decoded_bytes 0 in
    let original_length := Py.int_from_bytes (slice decoded_bytes 1 3) in
    let padded_length := Py.int_from_bytes (slice decoded_bytes 3 5) in
    if (share_id <? 1) || (255 <? share_id) then
      Err (ValueError ("Invalid share ID: " ++ Py.str_of_int share_id))
    else
      let share_data := skipn 5 decoded_bytes in
      if negb (Z.of_nat (List.length share_data) =? padded_length) then
        Err (ValueError "Share data length mismatch")
      else
        Ok (share_id, firstn (Z.to_nat original_length) share_data).

(** [_parse_base62_share]: every exception of the body is re-raised as a
    [ValueError] that quotes it. *)
Definition _parse_base62_share (share_str : string) : result (Z * list Z) :=
  match parse_base62_share_body share_str with
  | Ok parsed => Ok parsed
  | Err e => Err (ValueError ("Failed to parse share: " ++ exn_str e))
  end.

(** [range(lo, hi)] *)
Definition range (lo hi : Z) : list Z :=
  map (fun i => lo + Z.of_nat i) (seq 0 (Z.to_nat (hi - lo))).

(** The [for _ in range(threshold - 1)] loop that appends the random
    coefficients. *)
Fixpoint draw_coefficients (n : nat) (coefficients : list Z) (g : rng)
  : result (list Z * rng) :=
  match n with
  | O => Ok (coefficients, g)
  | S n' =>
      '(coeff, g1) <- secure_random_int 1 255 g ;;
      draw_coefficients n' (coefficients ++ [coeff]) g1
  end.

(** Body of the [for share_index in range(1, total_shares + 1)] loop.
    [shares[share_index - 1]] exists from the first byte on. *)
Definition add_share_value (byte_index : nat) (coefficients : list Z)
    (shares : list (list Z)) (share_index : Z) : list (list Z) :=
  let share_value := _evaluate_polynomial coefficients share_index in
  if (byte_index =? 0)%nat then shares ++ [[share_index; share_value]]
  else
    let k := Z.to_nat (share_index - 1) in
    set_nth shares k (nth k shares [] ++ [share_value]).

(** Body of the [for byte_index in range(len(secret_bytes))] loop. *)
Definition process_byte (total_shares threshold : Z) (secret_bytes : list Z)
    (st : list (list Z) * rng) (byte_index : nat)
  : result (list (list Z) * rng) :=
  let '(shares, g) := st in
  let byte_value := nth byte_index secret_bytes 0 in
  '(coefficients, g') <-
    draw_coefficients (Z.to_nat (threshold - 1)) [byte_value] g ;;
  Ok (fold_left (add_share_value byte_index coefficients)
                (range 1 (total_shares + 1)) shares, g').

(** Body of the [for share in shares] loop that frames each share. *)
Definition encode_share (original_length : Z) (st : list string * rng)
    (share : list Z) : result (list string * rng) :=
  let '(encoded_shares, g) := st in
  let share_id := nth 0 share 0 in
  let share_values := skipn 1 share in
  share_bytes <- Py.bytes_of_list share_values ;;
  '(encoded_share, g') <-
    _format_share_with_original_length share_id share_bytes
      original_length g ;;
  Ok (encoded_shares ++ [encoded_share], g').

(** [generate_shares].  The registry calls ([register_sensitive_data],
    [clear_memory]) only empty buffers that are not read again, so they
    leave no trace in the result. *)
Definition generate_shares (secret : list Z)
    (total_shares threshold : Py.value) (g : rng)
  : result (list string * rng) :=
  let '(valid, error) := validate_share_parameters total_shares threshold in
  if negb valid then Err (ValueError error)
  else
    let '(valid, error) := validate_secret_length secret 1 10000 in
    if negb valid then Err (ValueError error)
    else
      secret_bytes <- Utf8.encode secret ;;
      let original_length := Z.of_nat (List.length secret_bytes) in
      let min_bytes_for_250_chars := 200%nat in
      '(secret_bytes, g) <-
        (if (List.length secret_bytes <? min_bytes_for_250_chars)%nat then
           let padding_needed :=
             (min_bytes_for_250_chars - List.length secret_bytes)%nat in
           '(padding, g') <- random_bytes padding_needed g ;;
           Ok (secret_bytes ++ padding, g')
         else Ok (secret_bytes, g)) ;;
      '(shares, g) <-
        foldM (process_byte (Py.int_of total_shares) (Py.int_of threshold)
                            secret_bytes)
              (seq 0 (List.length secret_bytes)) ([], g) ;;
      foldM (encode_share original_length) shares ([], g).

(** State of the parsing loop of [reconstruct_secret]:
    [(parsed_shares, secret_length)]. *)
Definition parse_state : Type := list (Z * list Z) * option nat.

(** The outer [try] block: the current Base62 format. *)
Definition accept_base62 (st : parse_state) (share_str : string)
  : result parse_state :=
  let '(parsed_shares, secret_length) := st in
  '(share_id, values) <- _parse_base62_share share_str ;;
  match secret_length with
  | None =>
      Ok (parsed_shares ++ [(share_id, values)], Some (List.length values))
  | Some n =>
      if negb (List.length values =? n)%nat then
        if (n <? List.length values)%nat then
          Ok (parsed_shares ++ [(share_id, firstn n values)], Some n)
        else Err (ValueError "Inconsistent share lengths")
      else Ok (parsed_shares ++ [(share_id, values)], Some n)
  end.

(** [int(values_hex[i:i+2], 16)] for [i] in [range(0, len(values_hex), 2)],
    on a string of even length. *)
Fixpoint hex_pairs (values_hex : string) : result (list Z) :=
  match values_hex with
  | String c1 (String c2 rest) =>
      value <- Py.int_base16 (String c1 (String c2 EmptyString)) ;;
      values <- hex_pairs rest ;;
      Ok (value :: values)
  | _ => Ok []
  end.

(** The inner [try] block: the legacy dash-separated hex format. *)
Definition accept_hex (st : parse_state) (share_str : string)
  : result parse_state :=
  let '(parsed_shares, secret_length) := st in
  if negb (Py.contains share_str "-") then
    Err (ValueError "Invalid share format")
  else
    let '(share_id_hex, values_hex) := Py.split_first share_str "-" in
    share_id <- Py.int_base16 share_id_hex ;;
    if (share_id <? 1) || (255 <? share_id) then
      Err (ValueError ("Invalid share ID: " ++ Py.str_of_int share_id))
    else if negb (String.length values_hex mod 2 =? 0)%nat then
      Err (ValueError "Invalid share values length")
    else
      values <- hex_pairs values_hex ;;
      match secret_length with
      | None =>
          Ok (parsed_shares ++ [(share_id, values)],
              Some (List.length values))
      | Some n =>
          if negb (List.length values =? n)%nat then
            Err (ValueError "Inconsistent share lengths")
          else Ok (parsed_shares ++ [(share_id, values)], Some n)
      end.

(** Body of the [for share_str in shares] loop: a [ValueError] of the
    Base62 attempt falls back to the hex format, whose every failure is
    re-raised as a parse error. *)
Definition parse_one (st : parse_state) (share_str : string)
  : result parse_state :=
  match accept_base62 st share_str with
  | Ok st' => Ok st'
  | Err (ValueError _) =>
      match accept_hex st share_str with
      | Ok st' => Ok st'
      | Err e => Err (ValueError ("Failed to parse share: " ++ exn_str e))
      end
  | Err e => Err e
  end.

(** Body of the [for byte_index in range(secret_length)] loop. *)
Definition reconstruct_byte (parsed_shares : list (Z * list Z))
    (secret_bytes : list Z) (byte_index : nat) : result (list Z) :=
  let points :=
    map (fun '(share_id, values) => (share_id, nth byte_index values 0))
        parsed_shares in
  secret_byte <- _lagrange_interpolation points 0 ;;
  Ok (secret_bytes ++ [secret_byte]).

Definition reconstruct_secret (shares : list string) : result (list Z) :=
  match shares with
  | [] => Err (ValueError "No shares provided")
  | _ =>
      '(parsed_shares, secret_length) <- foldM parse_one shares ([], None) ;;
      match parsed_shares with
      | [] => Err (ValueError "No valid shares found")
      | _ =>
          let attempt :=
            secret_bytes <-
              foldM (reconstruct_byte parsed_shares)
                    (seq 0 (match secret_length with
                            | Some n => n
                            | None => 0%nat
                            end)) [] ;;
            raw_bytes <- Py.bytes_of_list secret_bytes ;;
            Utf8.decode raw_bytes in
          match attempt with
          | Err UnicodeDecodeError =>
              Err (ValueError "Reconstructed data is not valid UTF-8")
          | other => other
          end
      end
  end.

(** State of the loop of [validate_shares]: [(secret_length, share_ids)];
    the list [parsed_shares] it also fills is never read. *)
Definition validate_state : Type := option nat * list Z.

(** Body of the [for i, share_str in enumerate(shares)] loop: [inl] is an
    early [return], [inr] the state for the next round. *)
Definition validate_one (st : validate_state) (entry : nat * string)
  : (bool * string) + validate_state :=
  let '(secret_length, share_ids) := st in
  let '(i, share_str) := entry in
  let share_no := ("Share " ++ Py.str_of_int (Z.of_nat i + 1))%string in
  let check_length (share_id : Z) (values : list Z) :=
    match secret_length with
    | None => inr (Some (List.length values), share_id :: share_ids)
    | Some n =>
        if negb (List.length values =? n)%nat then
          inl (false, (share_no ++ " has inconsistent length")%string)
        else inr (Some n, share_id :: share_ids)
    end in
  match _parse_base62_share share_str with
  | Ok (share_id, values) =>
      if existsb (Z.eqb share_id) share_ids then
        inl (false, ("Duplicate share ID: " ++ Py.str_of_int share_id)%string)
      else check_length share_id values
  | Err (ValueError _) =>
      if negb (Py.contains share_str "-") then
        inl (false, (share_no ++ " has invalid format")%string)
      else
        let '(share_id_hex, values_hex) := Py.split_first share_str "-" in
        match Py.int_base16 share_id_hex with
        | Err _ => inl (false, (share_no ++ " has invalid ID format")%string)
        | Ok share_id =>
            if (share_id <? 1) || (255 <? share_id) then
              inl (false, (share_no ++ " has invalid ID: "
                             ++ Py.str_of_int share_id)%string)
            else if existsb (Z.eqb share_id) share_ids then
              inl (false, ("Duplicate share ID: "
                             ++ Py.str_of_int share_id)%string)
            else if negb (String.length values_hex mod 2 =? 0)%nat then
              inl (false, (share_no ++ " has invalid values length")%string)
            else if (String.length values_hex =? 0)%nat then
              inl (false, (share_no ++ " has no values")%string)
            else
              match hex_pairs values_hex with
              | Err _ =>
                  inl (false, (share_no ++ " has invalid hex values")%string)
              | Ok values => check_length share_id values
              end
        end
  | Err e => inl (false, ("Validation error: " ++ exn_str e)%string)
  end.

Fixpoint validate_loop (entries : list (nat * string)) (st : validate_state)
  : bool * string :=
  match entries with
  | [] => (true, EmptyString)
  | entry :: rest =>
      match validate_one st entry with
      | inl answer => answer
      | inr st' => validate_loop rest st'
      end
  end.

Definition validate_shares (shares : list string) : bool * string :=
  match shares with
  | [] => (false, "No shares provided")
  | _ =>
      if (List.length shares <? 2)%nat then
        (false, "At least 2 shares required")
      else validate_loop (enumerate shares) (None, [])
  end.

(** [secrets.choice(seq)] for a non-empty [seq], as a code point:
    [seq[randbelow(len(seq))]].  [None] stands for the exception the call
    raises when the random source cannot be read. *)
Definition choice (chars : string) (g : rng) : option (Z * rng) :=
  if csprng_ok g then
    let '(i, g') := randbelow (Z.of_nat (String.length chars)) g in
    Some (Py.ord (Py.char_at chars i), g')
  else None.

(** [''.join(secrets.choice(chars) for _ in range(n))], a string of code
    points; the first exception ends it. *)
Fixpoint random_choices (n : nat) (chars : string) (g : rng)
  : option (list Z * rng) :=
  match n with
  | O => Some ([], g)
  | S n' =>
      match choice chars g with
      | Some (c, g1) =>
          match random_choices n' chars g1 with
          | Some (rest, g2) => Some (c :: rest, g2)
          | None => None
          end
      | None => None
      end
  end.

(** [generate_random_secret]: whatever the [try] block raises is turned
    into a [SecurityError]. *)
Definition generate_random_secret (length : Z) (g : rng)
  : result (list Z * rng) :=
  if (length <? 1) || (50000 <? length) then
    Err (ValueError "Secret length must be between 1 and 50000 characters")
  else
    let chars :=
      "abcdefghijklmnopqrstuvwxyzABCDEFGHIJKLMNOPQRSTUVWXYZ0123456789!@#$%^&*"
    in
    match random_choices (Z.to_nat length) chars g with
    | Some generated => Ok generated
    | None => Err (SecurityError "Failed to generate random secret")
    end.

End Shamir.

(** ** The reconstruction tab of [SecretSharingGUI]

    The text widgets hold [str]s; here a text is a [string], that is, a
    sequence of characters below U+0100, which is all that share strings
    and the white space between them need. *)

Module Gui.

Import Shamir.

(** The line feed *)
Definition newline : ascii := "010"%char.

(** [c.isspace()] for a character below U+0100 *)
Definition isspace (c : ascii) : bool :=
  let n := nat_of_ascii c in
  ((9 <=? n) && (n <=? 13) || (28 <=? n) && (n <=? 32)
   || (n =? 133) || (n =? 160))%nat.

(** [not s] *)
Definition is_empty (s : string) : bool :=
  match s with
  | EmptyString => true
  | _ => false
  end.

(** [s.lstrip()] *)
Fixpoint lstrip (s : string) : string :=
  match s with
  | String c s' => if isspace c then lstrip s' else s
  | EmptyString => EmptyString
  end.

(** [s.rstrip()] *)
Fixpoint rstrip (s : string) : string :=
  match s with
  | EmptyString => EmptyString
  | String c s' =>
      match rstrip s' with
      | EmptyString => if isspace c then EmptyString else String c EmptyString
      | r => String c r
      end
  end.

(** [s.strip()] *)
Definition strip (s : string) : string := rstrip (lstrip s).

(** [s.split(sep)] for a separator of one character *)
Fixpoint split (s : string) (sep : ascii) : list string :=
  match s with
  | EmptyString => [EmptyString]
  | String c s' =>
      if Ascii.eqb c sep then EmptyString :: split s' sep
      else match split s' sep with
           | line :: lines => String c line :: lines
           | [] => [String c EmptyString]
           end
  end.

(** [sep.join(l)] *)
Fixpoint join (sep : string) (l : list string) : string :=
  match l with
  | [] => EmptyString
  | [x] => x
  | x :: rest => (x ++ sep ++ join sep rest)%string
  end.

(** [shares_content] of [_split_secret]: the shares as the split tab
    displays them, joined by two line feeds. *)
Definition shares_content (shares : list string) : string :=
  join (String newline (String newline EmptyString)) shares.

(** What [_reconstruct_secret] ends with: the secret it displays, with the
    number of shares named in the status line, or one of its error
    boxes with the variable part of the message. *)
Inductive outcome : Type :=
| SecretShown (secret : list Z) (n_shares : nat)
| MissingShares
| NoValidShares
| InvalidShares (error : string)
| ReconstructionError (message : string)
| UnexpectedError (message : string).

(** [_reconstruct_secret], from the text of the input box as
    [shares_input_text.get(1.0, tk.END)] returns it. *)
Definition _reconstruct_secret (text : string) : outcome :=
  let shares_input := strip text in
  if is_empty shares_input then MissingShares
  else
    let shares :=
      filter (fun share => negb (is_empty share))
             (map strip (split shares_input newline)) in
    match shares with
    | [] => NoValidShares
    | _ =>
        let '(valid, error) := validate_shares shares in
        if negb valid then InvalidShares error
        else
          match reconstruct_secret shares with
          | Ok secret => SecretShown secret (List.length shares)
          | Err (ValueError message) => ReconstructionError message
          | Err UnicodeEncodeError =>
              ReconstructionError (exn_str UnicodeEncodeError)
          | Err UnicodeDecodeError =>
              ReconstructionError (exn_str UnicodeDecodeError)
          | Err e => UnexpectedError (exn_str e)
          end
    end.

End Gui.
(** * Properties *)

Import Security Shamir.

(** ** Auxiliary definitions *)

Definition all_bytes : list Z := Eval vm_compute in map Z.of_nat (seq 0 256).

Definition forall_byte (p : Z -> bool) : bool := forallb p all_bytes.

(** The tables once more, as binary tries: the exhaustive checks below look
    entries up some hundred thousand times. *)
Definition trie_of (l : list Z) : PositiveMap.t Z :=
  fst (fold_left
         (fun '(m, k) v => (PositiveMap.add k v m, Pos.succ k))
         l (PositiveMap.empty Z, 1%positive)).

Definition trie_get (m : PositiveMap.t Z) (i : Z) : Z :=
  match PositiveMap.find (Z.to_pos (i + 1)) m with
  | Some v => v
  | None => 0
  end.

Definition exp_trie : PositiveMap.t Z := Eval vm_compute in trie_of _exp_table.
Definition log_trie : PositiveMap.t Z := Eval vm_compute in trie_of _log_table.

(** [_gf_mult] on the tries, with the reduction modulo 255 of a sum of two
    logarithms written as one conditional subtraction. *)
Definition trie_mult (a b : Z) : Z :=
  if (a =? 0) || (b =? 0) then 0
  else
    let s := trie_get log_trie a + trie_get log_trie b in
    trie_get exp_trie (if s <? 255 then s else s - 255).

Definition trie_check (a : Z) : bool :=
  (trie_get exp_trie a =? znth _exp_table a)
  && (trie_get log_trie a =? znth _log_table a).

(** [log] and [exp] are inverse bijections between 1..255 and 0..254. *)
Definition log_exp_check (a : Z) : bool :=
  ((a =? 0)
   || ((0 <=? znth _log_table a) && (znth _log_table a <? 255)
       && (znth _exp_table (znth _log_table a) =? a)))
  && ((a =? 255)
      || ((1 <=? znth _exp_table a) && (znth _exp_table a <? 256)
          && (znth _log_table (znth _exp_table a) =? a))).

Definition gf_mult_eq_basic_check (a b : Z) : bool :=
  trie_mult a b =? _gf_mult_basic a b.

(** One doubling step of [_gf_mult_basic]: [a <<= 1] and the reduction. *)
Definition xtime (a : Z) : Z :=
  let a := Z.shiftl a 1 in
  if Z.land a 0x100 =? 0 then a else Z.lxor a _POLYNOMIAL.

Definition xtime_check (a b : Z) : bool :=
  is_byteb (xtime a) && is_byteb (Z.lxor a b)
  && (xtime (Z.lxor a b) =? Z.lxor (xtime a) (xtime b)).

Definition base62_digit_check (d : Z) : bool :=
  Py.contains _BASE62_ALPHABET (Py.char_at _BASE62_ALPHABET d)
  && (Py.index_of _BASE62_ALPHABET (Py.char_at _BASE62_ALPHABET d) =? d).

(** [data] without its leading zero bytes. *)
Fixpoint strip_zeros (data : list Z) : list Z :=
  match data with
  | b :: data' => if b =? 0 then strip_zeros data' else data
  | [] => []
  end.

(** What decoding returns for the encoding of [data]: the shortest
    big-endian form of the same number, a single zero byte for zero. *)
Definition base62_normal_form (data : list Z) : list Z :=
  match data with
  | [] => []
  | _ => match strip_zeros data with
         | [] => [0]
         | w => w
         end
  end.

(** The quotient that [_gf_div] returns, 0 where it raises. *)
Definition gf_quot (a b : Z) : Z :=
  match _gf_div a b with
  | Ok q => q
  | Err _ => 0
  end.

(** ** GF(256) as a type

    The field laws hold for bytes only, so the algebra of interpolation is
    carried out on the type of bytes and brought back to the integers of
    the code through [val]. *)

Record gf : Type := mk_gf { val : Z; val_ok : is_byteb val = true }.

Lemma is_byteb_mod (z : Z) : is_byteb (z mod 256) = true.
Proof.
  unfold is_byteb. pose proof (Z.mod_pos_bound z 256 ltac:(lia)). lia.
Qed.

Definition gf_of (z : Z) : gf := mk_gf (z mod 256) (is_byteb_mod z).

Definition gzero : gf := gf_of 0.
Definition gone : gf := gf_of 1.
Definition gadd (a b : gf) : gf := gf_of (Z.lxor (val a) (val b)).
Definition gmul (a b : gf) : gf := gf_of (_gf_mult (val a) (val b)).
Definition gdiv (a b : gf) : gf := gf_of (gf_quot (val a) (val b)).
Definition ginv (a : gf) : gf := gdiv gone a.
(** Every element is its own opposite, so subtraction is addition. *)
Definition gopp (a : gf) : gf := a.
Definition gsub (a b : gf) : gf := gadd a (gopp b).

Declare Scope gf_scope.
Delimit Scope gf_scope with gf.
Bind Scope gf_scope with gf.
Infix "+" := gadd : gf_scope.
Infix "-" := gsub : gf_scope.
Infix "*" := gmul : gf_scope.
Infix "/" := gdiv : gf_scope.
Notation "0" := gzero : gf_scope.
Notation "1" := gone : gf_scope.

(** The polynomial with the given coefficients, lowest first. *)
Fixpoint geval (coefficients : list gf) (x : gf) : gf :=
  match coefficients with
  | [] => gzero
  | c :: rest => gadd c (gmul x (geval rest x))
  end.

(** The Lagrange basis factor of node [a] against the other nodes. *)
Fixpoint gbasis (x a : gf) (others : list gf) : gf :=
  match others with
  | [] => gone
  | b :: rest => gmul (gdiv (gsub x b) (gsub a b)) (gbasis x a rest)
  end.

(** The interpolation sum over the nodes [nodes] for the values [f], where
    [seen] are the nodes already passed. *)
Fixpoint glagrange (f : gf -> gf) (x : gf) (seen nodes : list gf) : gf :=
  match nodes with
  | [] => gzero
  | a :: rest =>
      gadd (gmul (f a) (gbasis x a (seen ++ rest)))
           (glagrange f x (seen ++ [a]) rest)
  end.

(** Synthetic division of the polynomial [coefficients] by [t - a]:
    the coefficients of the quotient and the remainder. *)
Fixpoint gsynth (coefficients : list gf) (a : gf) : list gf * gf :=
  match coefficients with
  | [] => ([], gzero)
  | c :: rest =>
      match rest with
      | [] => ([], c)
      | _ => let '(q, r) := gsynth rest a in (r :: q, gadd c (gmul a r))
      end
  end.

(** The weight that node [s] contributes to the basis factor of node [c]. *)
Definition gweight (x s c : gf) : gf := gdiv (gsub x s) (gsub c s).

(** The points that [reconstruct_secret] hands to the interpolation when
    the share values at [nodes] come from the function [f]. *)
Definition gpoints (f : gf -> gf) (nodes : list Z) : list (Z * Z) :=
  map (fun a => (a, val (f (gf_of a)))) nodes.

(** Every character of [s] belongs to the Base62 alphabet. *)
Fixpoint all_base62 (s : string) : bool :=
  match s with
  | EmptyString => true
  | String c s' => Py.contains _BASE62_ALPHABET c && all_base62 s'
  end.

(** [n.to_bytes(2, 'big')] for [0 <= n < 65536] *)
Definition be16 (n : Z) : list Z := [n / 256; n mod 256].

(** The bytes that [_format_share_with_original_length] encodes: the
    five-byte header and the share data. *)
Definition frame_bytes (share_id : Z) (share_data : list Z)
    (original_secret_length : Z) : list Z :=
  share_id :: be16 original_secret_length
    ++ be16 (Z.of_nat (List.length share_data)) ++ share_data.

(** A random source that works and always hands out zero, and a payload of
    200 equal bytes, for the examples. *)
Definition example_rng : rng := mk_rng true (fun _ => 0) 0.
Definition example_data : list Z := repeat 7 200.

(** The errors the specification calls DuplicateX and BadUtf8. *)
Definition duplicate_x : exn :=
  ValueError "Duplicate x-coordinates in interpolation points".
Definition bad_utf8 : exn :=
  ValueError "Reconstructed data is not valid UTF-8".

(** A code point that UTF-8 can encode: in range and not a surrogate. *)
Definition is_scalar_value (c : Z) : Prop :=
  Utf8.is_code_point c /\ Utf8.is_surrogate c = false.

(** The coefficient vector of one byte position: the byte itself followed
    by [K - 1] random bytes. *)
Definition coefficients_of (K : Z) (byte_value : Z) (cs : list Z) : Prop :=
  hd 0 cs = byte_value /\ Z.of_nat (List.length cs) = K /\ Forall is_byte cs.

(** The value vector of the share with id [j], one value per coefficient
    vector. *)
Definition share_values (cl : list (list Z)) (j : Z) : list Z :=
  map (fun cs => _evaluate_polynomial cs j) cl.

(** The rows [[j, v0, v1, ...]] that [generate_shares] builds. *)
Definition share_rows (N : Z) (cl : list (list Z)) : list (list Z) :=
  map (fun j => j :: share_values cl j) (range 1 (N + 1)).

(** The share strings emitted for the coefficient vectors [cl]. *)
Definition share_strings (N L : Z) (cl : list (list Z)) : list string :=
  map (fun j => _encode_base62 (frame_bytes j (share_values cl j) L))
      (range 1 (N + 1)).

(** The rows held after the coefficient vectors [cl] have been processed:
    none before the first byte. *)
Definition rows_after (N : Z) (cl : list (list Z)) : list (list Z) :=
  match cl with
  | [] => []
  | _ => share_rows N cl
  end.

(** The share id of the row at position [t]. *)
Definition id_at (t : nat) : Z := 1 + Z.of_nat t.

(** What the parser makes of a share string, for strings it accepts. *)
Definition parsed_of (share_str : string) : Z * list Z :=
  match _parse_base62_share share_str with
  | Ok parsed => parsed
  | Err _ => (0, [])
  end.

(** The first share of [generate_shares("A", 2, 2)] when every random
    draw returns 1. *)
Definition lone_share : string :=
  "1SmqyuiKdn1RTmoxGMRpYRRKkyjviUgp1k11aLN07d1Wu0mI8jPs8lCyVymlrWREGf6Ot14smJzWHaW2HsYjTVuy1tTOuqgcsbUO5G4ij8qznzmeHWQJGdPp4ezY1edxUP6S3bpr1FE5YNpNecRuO9ZEsWTqaP6VB1itcrYJ2GnBlwz3LNy69koZdoryIeoMcLSQ7fvTPmbBRRD1vYMgQ4SDpuNA6HWxSNOhnEv6b5X54UnJ8ia1aOSJRPhMZz73OiVv5UjgzDNROcNVQUS".

(** The secret of the examples: the string "Hi". *)
Definition example_secret : list Z := [72; 105].

(** ** Further auxiliary definitions *)

(** The value that [points] give at the node [a], zero where they give
    none. *)
Definition value_at (points : list (Z * Z)) (a : gf) : gf :=
  match find (fun p => fst p =? val a) points with
  | Some p => gf_of (snd p)
  | None => gzero
  end.

(** [s] without its leading ['0'] characters. *)
Fixpoint strip_zero_chars (s : string) : string :=
  match s with
  | String c s' => if Ascii.eqb c "0" then strip_zero_chars s' else s
  | EmptyString => EmptyString
  end.

(** What encoding returns for the decoding of [s]: the shortest way to
    write the same number, the single digit ["0"] for zero. *)
Definition base62_normal_string (s : string) : string :=
  match s with
  | EmptyString => EmptyString
  | _ => match strip_zero_chars s with
         | EmptyString => "0"
         | w => w
         end
  end.

(** A byte as [secure_random_int(1, 255)] hands it out. *)
Definition drawn_byte (c : Z) : Prop := 1 <= c <= 255.

(** The random source after [n] more draws. *)
Definition advance (g : rng) (n : nat) : rng :=
  mk_rng (csprng_ok g) (raw g) (pos g + n).

(** A coefficient vector whose random part was drawn from 1..255. *)
Definition drawn_coefficients_of (K : Z) (byte_value : Z) (cs : list Z)
  : Prop :=
  coefficients_of K byte_value cs /\ Forall drawn_byte (tl cs).

(** The error raised when the random source fails its self-test. *)
Definition no_csprng : exn :=
  SecurityError
    "Cryptographically secure random number generator not available".

(** The coefficient of the highest power, zero for no coefficients. *)
Definition glead (coefficients : list gf) : gf := last coefficients gzero.

(** The product of [x - a] over the nodes [a]. *)
Fixpoint gvanish (x : gf) (nodes : list gf) : gf :=
  match nodes with
  | [] => gone
  | a :: rest => gmul (gsub x a) (gvanish x rest)
  end.

(** A value as the parsing loop of [reconstruct_secret] reads it: a byte
    or, from two characters of the old hex layout that are a sign and a
    digit (such as ["-f"]), a number from -15 to -1. *)
Definition is_share_value (v : Z) : Prop := -15 <= v <= 255.

(** [y] as the tables see it: a negative index counts from the end of a
    table of 256 entries. *)
Definition table_index (y : Z) : Z := y mod 256.

(** All characters below U+0100 *)
Definition all_chars : list ascii := map ascii_of_nat (seq 0 256).

(** [int(c1 + c2, 16)], where it is a number, is a share value. *)
Definition hex_pair_check (c1 c2 : ascii) : bool :=
  match Py.int_base16 (String c1 (String c2 EmptyString)) with
  | Ok v => (-15 <=? v) && (v <=? 255)
  | Err _ => true
  end.

Definition hex_pairs_check : bool :=
  forallb (fun c1 => forallb (hex_pair_check c1) all_chars) all_chars.

(** What the parsing loop of [reconstruct_secret] holds after some
    shares: nothing before the first share, then shares with ids in
    1..255 and as many values each as the first one had. *)
Definition well_parsed (st : parse_state) : Prop :=
  match snd st with
  | None => fst st = []
  | Some n =>
      fst st <> []
      /\ Forall (fun p => 1 <= fst p <= 255
                          /\ List.length (snd p) = n
                          /\ Forall is_share_value (snd p)) (fst st)
  end.

(** The error with which the parsing loop rejects a share string that
    has no dash. *)
Definition invalid_format : exn :=
  ValueError "Failed to parse share: Invalid share format".

(** The characters of generated secrets, as in [generate_random_secret],
    and their code points. *)
Definition secret_chars : string :=
  "abcdefghijklmnopqrstuvwxyzABCDEFGHIJKLMNOPQRSTUVWXYZ0123456789!@#$%^&*".

Definition secret_code_points : list Z :=
  Eval vm_compute in map Py.ord (list_ascii_of_string secret_chars).

Definition secret_char_check (i : Z) : bool :=
  existsb (Z.eqb (Py.ord (Py.char_at secret_chars i))) secret_code_points.

(** The character at position [i] of the alphabet is not white space. *)
Definition base62_space_check (i : Z) : bool :=
  negb (Gui.isspace (Py.char_at _BASE62_ALPHABET i)).

(** ** Exhaustive checks over bytes *)

Lemma all_bytes_seq : all_bytes = map Z.of_nat (seq 0 256).
Proof. vm_compute. reflexivity. Qed.

Lemma in_all_bytes (a : Z) : is_byte a -> In a all_bytes.
Proof.
  intros [H0 H1]. rewrite all_bytes_seq.
  apply in_map_iff. exists (Z.to_nat a). split; [lia|].
  apply in_seq. lia.
Qed.

Lemma is_byteb_spec (a : Z) : is_byteb a = true <-> is_byte a.
Proof. unfold is_byteb, is_byte. lia. Qed.

Lemma forall_byte_spec (p : Z -> bool) :
  forall_byte p = true -> forall a, is_byte a -> p a = true.
Proof.
  unfold forall_byte. intros H a Ha.
  rewrite forallb_forall in H. apply H, in_all_bytes, Ha.
Qed.

Lemma forall_byte2_spec (p : Z -> Z -> bool) :
  forall_byte (fun a => forall_byte (p a)) = true ->
  forall a b, is_byte a -> is_byte b -> p a b = true.
Proof.
  intros H a b Ha Hb.
  apply (forall_byte_spec (p a)); [|exact Hb].
  apply (forall_byte_spec (fun a => forall_byte (p a))); assumption.
Qed.

(** ** The field tables *)

Lemma tables_built : (_exp_table, _log_table) = _build_tables.
Proof. vm_cast_no_check (eq_refl (_exp_table, _log_table)). Qed.

(** The [while b:] loop of [_gf_mult_basic] leaves through its condition
    within the fuel it is given. *)
Lemma gf_mult_basic_loop_bits (n : nat) :
  forall a b r, 0 <= b < 2 ^ Z.of_nat n ->
  exists r', gf_mult_basic_loop (S n) a b r = Some r'.
Proof.
  induction n as [|n IH]; intros a b r Hb.
  - assert (b = 0) by (change (2 ^ Z.of_nat 0) with 1 in Hb; lia).
    subst b. simpl. eauto.
  - cbn [gf_mult_basic_loop].
    destruct (b =? 0) eqn:E; [eauto|].
    apply IH. rewrite Z.shiftr_div_pow2 by lia.
    change (2 ^ 1) with 2.
    rewrite Nat2Z.inj_succ, Z.pow_succ_r in Hb by lia.
    split; [apply Z.div_pos; lia|].
    apply Z.div_lt_upper_bound; lia.
Qed.

Lemma gf_mult_basic_loop_fuel (a b : Z) :
  0 <= b ->
  exists r, gf_mult_basic_loop (mult_basic_fuel b) a b 0 = Some r.
Proof.
  intros Hb. unfold mult_basic_fuel.
  replace (Z.to_nat (Z.log2 b) + 2)%nat with (S (S (Z.to_nat (Z.log2 b))))
    by lia.
  apply gf_mult_basic_loop_bits.
  destruct (Z.eq_dec b 0) as [->|Hn].
  - simpl. lia.
  - rewrite Nat2Z.inj_succ, Z2Nat.id by apply Z.log2_nonneg.
    pose proof (Z.log2_spec b ltac:(lia)). lia.
Qed.

Lemma trie_checked : forall_byte trie_check = true.
Proof. vm_cast_no_check (eq_refl true). Qed.

Lemma trie_get_exp (a : Z) :
  is_byte a -> trie_get exp_trie a = znth _exp_table a.
Proof.
  intros Ha. pose proof (forall_byte_spec _ trie_checked a Ha) as H.
  unfold trie_check in H. apply andb_true_iff in H.
  apply Z.eqb_eq, H.
Qed.

Lemma trie_get_log (a : Z) :
  is_byte a -> trie_get log_trie a = znth _log_table a.
Proof.
  intros Ha. pose proof (forall_byte_spec _ trie_checked a Ha) as H.
  unfold trie_check in H. apply andb_true_iff in H.
  apply Z.eqb_eq, H.
Qed.

Lemma log_exp_checked : forall_byte log_exp_check = true.
Proof. vm_cast_no_check (eq_refl true). Qed.

(** [exp[log[a]] = a] for a non-zero byte. *)
Lemma exp_log (a : Z) :
  is_byte a -> a <> 0 ->
  0 <= znth _log_table a < 255 /\ znth _exp_table (znth _log_table a) = a.
Proof.
  intros Ha Hnz. pose proof (forall_byte_spec _ log_exp_checked a Ha) as H.
  unfold log_exp_check in H. apply andb_true_iff in H. destruct H as [H _].
  apply orb_true_iff in H. destruct H as [H|H]; [lia|].
  rewrite !andb_true_iff in H. lia.
Qed.

(** [log[exp[i]] = i] for an exponent below 255. *)
Lemma log_exp (i : Z) :
  0 <= i < 255 ->
  1 <= znth _exp_table i < 256 /\ znth _log_table (znth _exp_table i) = i.
Proof.
  intros Hi.
  assert (is_byte i) as Hb by (unfold is_byte; lia).
  pose proof (forall_byte_spec _ log_exp_checked i Hb) as H.
  unfold log_exp_check in H. apply andb_true_iff in H. destruct H as [_ H].
  apply orb_true_iff in H. destruct H as [H|H]; [lia|].
  rewrite !andb_true_iff in H. lia.
Qed.

(** ** Multiplication and division through the tables *)

Lemma gf_mult_zero_l (b : Z) : _gf_mult 0 b = 0.
Proof. reflexivity. Qed.

Lemma gf_mult_zero_r (a : Z) : _gf_mult a 0 = 0.
Proof. unfold _gf_mult. rewrite orb_true_r. reflexivity. Qed.

Lemma gf_mult_nonzero (a b : Z) :
  a <> 0 -> b <> 0 ->
  _gf_mult a b
  = znth _exp_table ((znth _log_table a + znth _log_table b) mod 255).
Proof.
  intros Ha Hb. unfold _gf_mult.
  destruct (a =? 0) eqn:Ea; [lia|]. destruct (b =? 0) eqn:Eb; [lia|].
  reflexivity.
Qed.

Lemma gf_mult_comm (a b : Z) : _gf_mult a b = _gf_mult b a.
Proof. unfold _gf_mult. rewrite orb_comm, Z.add_comm. reflexivity. Qed.

(** The product of two non-zero bytes is a non-zero byte whose logarithm is
    the sum of the logarithms modulo 255. *)
Lemma gf_mult_log (a b : Z) :
  is_byte a -> is_byte b -> a <> 0 -> b <> 0 ->
  1 <= _gf_mult a b < 256
  /\ znth _log_table (_gf_mult a b)
     = (znth _log_table a + znth _log_table b) mod 255.
Proof.
  intros Ha Hb Hna Hnb. rewrite gf_mult_nonzero by assumption.
  apply log_exp. apply Z.mod_pos_bound. lia.
Qed.

Lemma gf_mult_byte (a b : Z) :
  is_byte a -> is_byte b -> is_byte (_gf_mult a b).
Proof.
  intros Ha Hb.
  destruct (Z.eq_dec a 0) as [->|Hna]; [rewrite gf_mult_zero_l; assumption|].
  destruct (Z.eq_dec b 0) as [->|Hnb]; [rewrite gf_mult_zero_r; assumption|].
  pose proof (gf_mult_log a b Ha Hb Hna Hnb). unfold is_byte. lia.
Qed.

Lemma gf_mult_one_r (a : Z) : is_byte a -> _gf_mult a 1 = a.
Proof.
  intros Ha. destruct (Z.eq_dec a 0) as [->|Hna]; [reflexivity|].
  rewrite gf_mult_nonzero by lia.
  destruct (exp_log a Ha Hna) as [Hl He].
  change (znth _log_table 1) with 0.
  rewrite Z.add_0_r, Z.mod_small by lia. exact He.
Qed.

Lemma gf_mult_assoc (a b c : Z) :
  is_byte a -> is_byte b -> is_byte c ->
  _gf_mult (_gf_mult a b) c = _gf_mult a (_gf_mult b c).
Proof.
  intros Ha Hb Hc.
  destruct (Z.eq_dec a 0) as [->|Hna]; [reflexivity|].
  destruct (Z.eq_dec b 0) as [->|Hnb];
    [rewrite gf_mult_zero_r, !gf_mult_zero_l, gf_mult_zero_r; reflexivity|].
  destruct (Z.eq_dec c 0) as [->|Hnc];
    [rewrite !gf_mult_zero_r; reflexivity|].
  destruct (gf_mult_log a b Ha Hb Hna Hnb) as [Hab Lab].
  destruct (gf_mult_log b c Hb Hc Hnb Hnc) as [Hbc Lbc].
  rewrite (gf_mult_nonzero (_gf_mult a b) c) by lia.
  rewrite (gf_mult_nonzero a (_gf_mult b c)) by lia.
  rewrite Lab, Lbc.
  rewrite Z.add_mod_idemp_l, Z.add_mod_idemp_r by lia.
  rewrite Z.add_assoc. reflexivity.
Qed.

Lemma gf_div_nonzero (a b : Z) :
  a <> 0 -> b <> 0 ->
  _gf_div a b
  = Ok (znth _exp_table ((znth _log_table a - znth _log_table b) mod 255)).
Proof.
  intros Ha Hb. unfold _gf_div.
  destruct (a =? 0) eqn:Ea; [lia|]. destruct (b =? 0) eqn:Eb; [lia|].
  reflexivity.
Qed.

Lemma gf_div_mult (a b : Z) :
  is_byte a -> is_byte b -> b <> 0 -> _gf_div (_gf_mult a b) b = Ok a.
Proof.
  intros Ha Hb Hnb.
  destruct (Z.eq_dec a 0) as [->|Hna]; [reflexivity|].
  destruct (gf_mult_log a b Ha Hb Hna Hnb) as [Hab Lab].
  rewrite gf_div_nonzero by lia. rewrite Lab.
  destruct (exp_log a Ha Hna) as [Hl He].
  rewrite Zminus_mod_idemp_l.
  replace (znth _log_table a + znth _log_table b - znth _log_table b)
    with (znth _log_table a) by lia.
  rewrite Z.mod_small by lia. rewrite He. reflexivity.
Qed.

(** C6: for all field elements [a], [b] in 0..255, [mul(a, 1) = a],
    [mul(a, 0) = 0], [mul(a, b) = mul(b, a)] and, when [b] is not zero,
    [div(mul(a, b), b)] returns [a]. *)
Theorem gf256_laws (a b : Z) :
  is_byte a -> is_byte b ->
  _gf_mult a 1 = a
  /\ _gf_mult a 0 = 0
  /\ _gf_mult a b = _gf_mult b a
  /\ (b <> 0 -> _gf_div (_gf_mult a b) b = Ok a).
Proof.
  intros Ha Hb. split; [apply gf_mult_one_r, Ha|].
  split; [apply gf_mult_zero_r|].
  split; [apply gf_mult_comm|].
  intros Hnb. apply gf_div_mult; assumption.
Qed.

Lemma gf256_laws_witness :
  is_byte 87 /\ is_byte 131
  /\ (_gf_mult 87 1 = 87
      /\ _gf_mult 87 0 = 0
      /\ _gf_mult 87 131 = _gf_mult 131 87
      /\ (131 <> 0 -> _gf_div (_gf_mult 87 131) 131 = Ok 87)).
Proof.
  split; [unfold is_byte; lia|].
  split; [unfold is_byte; lia|].
  apply (gf256_laws 87 131); unfold is_byte; lia.
Defined.

(** ** The table product is the shift-and-reduce product *)

Lemma gf_mult_trie (a b : Z) :
  is_byte a -> is_byte b -> _gf_mult a b = trie_mult a b.
Proof.
  intros Ha Hb. unfold _gf_mult, trie_mult.
  destruct (a =? 0) eqn:Ea; [reflexivity|].
  destruct (b =? 0) eqn:Eb; [reflexivity|].
  cbn [orb]. rewrite !trie_get_log by assumption.
  destruct (exp_log a Ha ltac:(lia)) as [Hla _].
  destruct (exp_log b Hb ltac:(lia)) as [Hlb _].
  remember (znth _log_table a + znth _log_table b) as s eqn:Hs.
  cbv zeta.
  destruct (s <? 255) eqn:Es.
  - rewrite Z.mod_small by lia.
    rewrite trie_get_exp by (unfold is_byte; lia). reflexivity.
  - replace (s mod 255) with (s - 255).
    + rewrite trie_get_exp by (unfold is_byte; lia). reflexivity.
    + apply (Z.mod_unique _ _ 1); lia.
Qed.

Lemma gf_mult_eq_basic_checked :
  forall_byte (fun a => forall_byte (gf_mult_eq_basic_check a)) = true.
Proof. vm_cast_no_check (eq_refl true). Qed.

Lemma gf_mult_basic_table (a b : Z) :
  is_byte a -> is_byte b -> _gf_mult_basic a b = _gf_mult a b.
Proof.
  intros Ha Hb. rewrite gf_mult_trie by assumption.
  symmetry. apply Z.eqb_eq.
  apply (forall_byte2_spec gf_mult_eq_basic_check
           gf_mult_eq_basic_checked a b Ha Hb).
Qed.

(** C10: for all [a], [b] in 0..255 the table-based [_gf_mult] agrees with
    the shift-and-reduce [_gf_mult_basic] modulo 0x11B. *)
Theorem gf_mult_eq_basic (a b : Z) :
  is_byte a -> is_byte b -> _gf_mult a b = _gf_mult_basic a b.
Proof. intros Ha Hb. symmetry. apply gf_mult_basic_table; assumption. Qed.

Lemma gf_mult_eq_basic_witness :
  is_byte 87 /\ is_byte 131 /\ _gf_mult 87 131 = _gf_mult_basic 87 131.
Proof.
  split; [unfold is_byte; lia|].
  split; [unfold is_byte; lia|].
  apply (gf_mult_eq_basic 87 131); unfold is_byte; lia.
Defined.

(** ** Base62 *)

Lemma base62_digits_checked :
  forallb base62_digit_check (map Z.of_nat (seq 0 62)) = true.
Proof. vm_compute. reflexivity. Qed.

Lemma base62_digit (d : Z) :
  0 <= d < 62 ->
  Py.contains _BASE62_ALPHABET (Py.char_at _BASE62_ALPHABET d) = true
  /\ Py.index_of _BASE62_ALPHABET (Py.char_at _BASE62_ALPHABET d) = d.
Proof.
  intros Hd. pose proof base62_digits_checked as H.
  rewrite forallb_forall in H.
  specialize (H d). unfold base62_digit_check in H.
  rewrite andb_true_iff, Z.eqb_eq in H. apply H.
  apply in_map_iff. exists (Z.to_nat d). split; [lia|]. apply in_seq. lia.
Qed.

(** Decoding what the encoding loop produced resumes from the encoded
    number. *)
Lemma decode_encode_loop (fuel : nat) :
  forall num s r, 0 <= num ->
  encode_base62_loop fuel num s = Some r ->
  decode_base62_loop r 0 = decode_base62_loop s num.
Proof.
  induction fuel as [|fuel IH]; intros num s r Hnum H; [discriminate|].
  cbn [encode_base62_loop] in H.
  destruct (0 <? num) eqn:E.
  - apply IH in H; [|apply Z.div_pos; lia].
    rewrite H. cbn [decode_base62_loop].
    destruct (base62_digit (num mod 62)) as [Hc Hi];
      [apply Z.mod_pos_bound; lia|].
    rewrite Hc, Hi. cbn [negb]. f_equal.
    pose proof (Z.div_mod num 62). lia.
  - injection H as <-. f_equal. lia.
Qed.

Lemma encode_base62_loop_bits (n : nat) :
  forall num s, 0 <= num < 2 ^ Z.of_nat n ->
  exists r, encode_base62_loop (S n) num s = Some r.
Proof.
  induction n as [|n IH]; intros num s Hn.
  - assert (num = 0) by (change (2 ^ Z.of_nat 0) with 1 in Hn; lia).
    subst num. simpl. eauto.
  - cbn [encode_base62_loop].
    destruct (0 <? num) eqn:E; [|eauto].
    apply IH.
    rewrite Nat2Z.inj_succ, Z.pow_succ_r in Hn by lia.
    split; [apply Z.div_pos; lia|].
    apply Z.div_lt_upper_bound; lia.
Qed.

Lemma encode_base62_loop_fuel (num : Z) (s : string) :
  0 <= num -> exists r, encode_base62_loop (encode_fuel num) num s = Some r.
Proof.
  intros Hn. unfold encode_fuel.
  replace (Z.to_nat (Z.log2 num) + 2)%nat
    with (S (S (Z.to_nat (Z.log2 num)))) by lia.
  apply encode_base62_loop_bits.
  destruct (Z.eq_dec num 0) as [->|Hnz].
  - simpl. lia.
  - rewrite Nat2Z.inj_succ, Z2Nat.id by apply Z.log2_nonneg.
    pose proof (Z.log2_spec num ltac:(lia)). lia.
Qed.

(** The loop only ever prepends characters. *)
Lemma encode_base62_loop_length (fuel : nat) :
  forall num s r,
  encode_base62_loop fuel num s = Some r ->
  (String.length s <= String.length r)%nat.
Proof.
  induction fuel as [|fuel IH]; intros num s r H; [discriminate|].
  cbn [encode_base62_loop] in H.
  destruct (0 <? num).
  - apply IH in H. cbn [String.length] in H. lia.
  - injection H as <-. lia.
Qed.

(** A number of at least [62 ^ k] is written with more than [k] digits. *)
Lemma encode_base62_loop_digits (fuel : nat) :
  forall (k : nat) num s r,
  62 ^ Z.of_nat k <= num ->
  encode_base62_loop fuel num s = Some r ->
  (String.length s + k + 1 <= String.length r)%nat.
Proof.
  induction fuel as [|fuel IH]; intros k num s r Hk H; [discriminate|].
  cbn [encode_base62_loop] in H.
  assert (0 < num) as Hpos.
  { pose proof (Z.pow_pos_nonneg 62 (Z.of_nat k)). lia. }
  destruct (0 <? num) eqn:E; [|lia].
  destruct k as [|k].
  - apply encode_base62_loop_length in H. cbn [String.length] in H. lia.
  - apply (IH k) in H.
    + cbn [String.length] in H. lia.
    + rewrite Nat2Z.inj_succ, Z.pow_succ_r in Hk by lia.
      apply Z.div_le_lower_bound; lia.
Qed.

(** ** Big-endian integers *)

Lemma int_from_bytes_app (d : list Z) (b : Z) :
  Py.int_from_bytes (d ++ [b]) = Py.int_from_bytes d * 256 + b.
Proof. unfold Py.int_from_bytes. rewrite fold_left_app. reflexivity. Qed.

Lemma int_from_bytes_range (d : list Z) :
  Forall is_byte d ->
  0 <= Py.int_from_bytes d < 256 ^ Z.of_nat (List.length d).
Proof.
  induction d as [|b d IH] using rev_ind; intros Hd.
  - cbn. lia.
  - apply Forall_app in Hd. destruct Hd as [Hd Hb].
    inversion Hb as [|? ? Hb' _]; subst. unfold is_byte in Hb'.
    specialize (IH Hd).
    rewrite int_from_bytes_app, length_app. cbn [List.length].
    rewrite Nat2Z.inj_add, Z.pow_add_r by lia.
    change (256 ^ Z.of_nat 1) with 256. nia.
Qed.

Lemma int_from_bytes_cons (b : Z) (d : list Z) :
  Py.int_from_bytes (b :: d)
  = b * 256 ^ Z.of_nat (List.length d) + Py.int_from_bytes d.
Proof.
  induction d as [|x d IH] using rev_ind.
  - cbn. lia.
  - rewrite app_comm_cons, !int_from_bytes_app, IH, length_app.
    cbn [List.length].
    rewrite Nat2Z.inj_add, Z.pow_add_r by lia.
    change (256 ^ Z.of_nat 1) with 256. ring.
Qed.

Lemma le_bytes_int_from_bytes (d : list Z) :
  Forall is_byte d ->
  rev (Py.le_bytes (List.length d) (Py.int_from_bytes d)) = d.
Proof.
  induction d as [|b d IH] using rev_ind; intros Hd; [reflexivity|].
  apply Forall_app in Hd. destruct Hd as [Hd Hb].
  inversion Hb as [|? ? Hb' _]; subst. unfold is_byte in Hb'.
  rewrite int_from_bytes_app, length_app, Nat.add_comm.
  cbn [List.length Nat.add Py.le_bytes rev].
  replace ((Py.int_from_bytes d * 256 + b) mod 256) with b
    by (rewrite Z.add_comm, Z.mod_add by lia;
        symmetry; apply Z.mod_small; lia).
  replace ((Py.int_from_bytes d * 256 + b) / 256) with (Py.int_from_bytes d)
    by (rewrite Z.add_comm, Z.div_add by lia;
        rewrite Z.div_small by lia; lia).
  rewrite IH by assumption. reflexivity.
Qed.

Lemma int_from_bytes_strip_zeros (d : list Z) :
  Py.int_from_bytes (strip_zeros d) = Py.int_from_bytes d.
Proof.
  induction d as [|b d IH]; [reflexivity|].
  cbn [strip_zeros]. destruct (b =? 0) eqn:E; [|reflexivity].
  apply Z.eqb_eq in E. subst b. rewrite IH, int_from_bytes_cons. lia.
Qed.

Lemma strip_zeros_Forall (P : Z -> Prop) (d : list Z) :
  Forall P d -> Forall P (strip_zeros d).
Proof.
  induction 1 as [|b d Hb Hd IH]; [constructor|].
  cbn [strip_zeros]. destruct (b =? 0); [assumption|].
  constructor; assumption.
Qed.

Lemma strip_zeros_head (d : list Z) (b : Z) (w : list Z) :
  strip_zeros d = b :: w -> b <> 0.
Proof.
  induction d as [|x d IH]; [discriminate|].
  cbn [strip_zeros]. destruct (x =? 0) eqn:E; [assumption|].
  intros H. injection H as -> _. apply Z.eqb_neq, E.
Qed.

(** The value of a byte string whose first byte is not zero. *)
Lemma int_from_bytes_head (b : Z) (w : list Z) :
  Forall is_byte (b :: w) -> b <> 0 ->
  256 ^ Z.of_nat (List.length w) <= Py.int_from_bytes (b :: w)
  < 256 ^ Z.of_nat (List.length (b :: w)).
Proof.
  intros Hd Hb. split; [|apply int_from_bytes_range, Hd].
  inversion Hd as [|? ? Hb' Hw]; subst. unfold is_byte in Hb'.
  pose proof (int_from_bytes_range w Hw).
  rewrite int_from_bytes_cons.
  pose proof (Z.pow_pos_nonneg 256 (Z.of_nat (List.length w))). nia.
Qed.

(** [(num.bit_length() + 7) // 8] is the number of base-256 digits. *)
Lemma byte_length_spec (num : Z) (n : nat) :
  256 ^ Z.of_nat n <= num < 256 ^ Z.of_nat (S n) ->
  (Py.bit_length num + 7) / 8 = Z.of_nat (S n).
Proof.
  intros [Hlo Hhi].
  assert (0 < num) as Hpos
    by (pose proof (Z.pow_pos_nonneg 256 (Z.of_nat n)); lia).
  unfold Py.bit_length.
  destruct (num =? 0) eqn:E; [lia|].
  change 256 with (2 ^ 8) in Hlo, Hhi.
  rewrite <- Z.pow_mul_r in Hlo, Hhi by lia.
  apply Z.log2_le_pow2 in Hlo; [|assumption].
  apply Z.log2_lt_pow2 in Hhi; [|assumption].
  rewrite Nat2Z.inj_succ in *.
  generalize dependent (Z.log2 num). intros l Hl1 Hl2.
  symmetry. apply (Z.div_unique _ 8 _ (l - 8 * Z.of_nat n)); lia.
Qed.

Lemma int_to_bytes_minimal (b : Z) (w : list Z) :
  Forall is_byte (b :: w) -> b <> 0 ->
  let num := Py.int_from_bytes (b :: w) in
  Py.int_to_bytes num ((Py.bit_length num + 7) / 8) = Ok (b :: w).
Proof.
  intros Hd Hb. cbv zeta.
  pose proof (int_from_bytes_head b w Hd Hb) as Hr.
  pose proof (le_bytes_int_from_bytes (b :: w) Hd) as Hle.
  remember (Py.int_from_bytes (b :: w)) as num eqn:En.
  cbn [List.length] in Hr, Hle.
  rewrite (byte_length_spec num (List.length w)) by assumption.
  unfold Py.int_to_bytes.
  pose proof (Z.pow_pos_nonneg 256 (Z.of_nat (List.length w))) as Hp.
  destruct (num <? 0) eqn:E1; [lia|].
  destruct (256 ^ Z.of_nat (S (List.length w)) <=? num) eqn:E2;
    [apply Z.leb_le in E2; lia|].
  rewrite Nat2Z.id, Hle. reflexivity.
Qed.

(** ** Base62 round trip *)

Lemma encode_base62_positive (data : list Z) :
  0 < Py.int_from_bytes data ->
  exists r,
    encode_base62_loop (encode_fuel (Py.int_from_bytes data))
                       (Py.int_from_bytes data) EmptyString = Some r
    /\ _encode_base62 data = r.
Proof.
  intros Hpos.
  destruct (encode_base62_loop_fuel (Py.int_from_bytes data) EmptyString)
    as [r Hr]; [lia|].
  exists r. split; [assumption|].
  unfold _encode_base62. destruct data as [|b d]; [cbn in Hpos; lia|].
  destruct (Py.int_from_bytes (b :: d) =? 0) eqn:E; [lia|].
  rewrite Hr. reflexivity.
Qed.

Lemma decode_encode_positive (data : list Z) :
  0 < Py.int_from_bytes data ->
  _decode_base62 (_encode_base62 data)
  = let num := Py.int_from_bytes data in
    Py.int_to_bytes num ((Py.bit_length num + 7) / 8).
Proof.
  intros Hpos. destruct (encode_base62_positive data Hpos) as [r [Hr ->]].
  assert (62 ^ Z.of_nat 0 <= Py.int_from_bytes data) as H0
    by (change (62 ^ Z.of_nat 0) with 1; lia).
  pose proof (encode_base62_loop_digits _ 0 _ _ _ H0 Hr) as Hl.
  assert (0 <= Py.int_from_bytes data) as H1 by lia.
  pose proof (decode_encode_loop _ _ _ _ H1 Hr) as Hd.
  cbn [decode_base62_loop] in Hd.
  unfold _decode_base62. destruct r as [|c r]; [cbn in Hl; lia|].
  rewrite Hd. cbn [bind].
  destruct (Py.int_from_bytes data =? 0) eqn:E; [lia|]. reflexivity.
Qed.

Lemma encode_base62_zero (v : list Z) :
  v <> [] -> Py.int_from_bytes v = 0 ->
  _encode_base62 v = String (Py.char_at _BASE62_ALPHABET 0) EmptyString.
Proof.
  intros Hv H0. unfold _encode_base62.
  destruct v as [|b v]; [contradiction|]. rewrite H0. reflexivity.
Qed.

Lemma base62_roundtrip_nonempty (v : list Z) :
  v <> [] -> Forall is_byte v ->
  _decode_base62 (_encode_base62 v)
  = Ok (match strip_zeros v with [] => [0] | w => w end).
Proof.
  intros Hne Hv.
  pose proof (int_from_bytes_strip_zeros v) as Hs.
  pose proof (strip_zeros_Forall _ _ Hv) as Hw.
  destruct (strip_zeros v) as [|b w] eqn:Ew.
  - rewrite encode_base62_zero by (try assumption; rewrite <- Hs; reflexivity).
    reflexivity.
  - pose proof (strip_zeros_head _ _ _ Ew) as Hb.
    pose proof (int_from_bytes_head b w Hw Hb) as Hr.
    assert (0 < Py.int_from_bytes v) as Hpos.
    { rewrite <- Hs.
      pose proof (Z.pow_pos_nonneg 256 (Z.of_nat (List.length w))). lia. }
    rewrite (decode_encode_positive v Hpos). cbv zeta.
    rewrite <- Hs. apply int_to_bytes_minimal; assumption.
Qed.

Lemma base62_roundtrip_normal (v : list Z) :
  Forall is_byte v ->
  _decode_base62 (_encode_base62 v) = Ok (base62_normal_form v).
Proof.
  intros Hv. destruct v as [|b0 v0]; [reflexivity|].
  apply base62_roundtrip_nonempty; [discriminate|assumption].
Qed.

(** C4 (as amended): for every byte vector [v], decoding the encoding of
    [v] returns [v] without its leading zero bytes, and a single zero byte
    when [v] is not empty and all zero; in particular it returns [v] itself
    whenever [v] is empty or starts with a non-zero byte. *)
Theorem base62_roundtrip (v : list Z) :
  Forall is_byte v ->
  _decode_base62 (_encode_base62 v) = Ok (base62_normal_form v)
  /\ (hd 1 v <> 0 -> _decode_base62 (_encode_base62 v) = Ok v).
Proof.
  intros Hv. split; [apply base62_roundtrip_normal, Hv|].
  intros Hh. rewrite base62_roundtrip_normal by assumption.
  destruct v as [|b w]; [reflexivity|]. cbn [hd] in Hh.
  unfold base62_normal_form. cbn [strip_zeros].
  destruct (b =? 0) eqn:E; [lia|reflexivity].
Qed.

Lemma base62_roundtrip_witness :
  Forall is_byte [7; 0; 255]
  /\ (_decode_base62 (_encode_base62 [7; 0; 255])
      = Ok (base62_normal_form [7; 0; 255])
      /\ (hd 1 [7; 0; 255] <> 0 ->
          _decode_base62 (_encode_base62 [7; 0; 255]) = Ok [7; 0; 255])).
Proof.
  assert (Forall is_byte [7; 0; 255]) as H
    by (repeat constructor; unfold is_byte; lia).
  split; [exact H|]. apply (base62_roundtrip [7; 0; 255] H).
Defined.

(** C4 as stated fails on a vector with a leading zero byte that is not
    all zero. *)
Lemma base62_roundtrip_counterexample :
  Forall is_byte [0; 1]
  /\ ~ Forall (fun b => b = 0) [0; 1]
  /\ _decode_base62 (_encode_base62 [0; 1]) = Ok [1]
  /\ _decode_base62 (_encode_base62 [0; 1]) <> Ok [0; 1].
Proof.
  split; [repeat constructor; unfold is_byte; lia|].
  split.
  - intros H. inversion H as [|? ? _ H']; subst.
    inversion H' as [|? ? H1 _]; subst. discriminate.
  - split; [reflexivity|]. cbv. discriminate.
Qed.

(** ** The shape of encoded and decoded data *)

Lemma encode_base62_loop_alphabet (fuel : nat) :
  forall num s r,
  all_base62 s = true ->
  encode_base62_loop fuel num s = Some r ->
  all_base62 r = true.
Proof.
  induction fuel as [|fuel IH]; intros num s r Hs H; [discriminate|].
  cbn [encode_base62_loop] in H.
  destruct (0 <? num) eqn:E.
  - apply IH in H; [assumption|].
    cbn [all_base62]. rewrite Hs, andb_true_r.
    apply base62_digit, Z.mod_pos_bound. lia.
  - injection H as <-. assumption.
Qed.

Lemma encode_base62_alphabet (data : list Z) :
  all_base62 (_encode_base62 data) = true.
Proof.
  unfold _encode_base62. destruct data as [|b d]; [reflexivity|].
  destruct (Py.int_from_bytes (b :: d) =? 0); [reflexivity|].
  destruct (encode_base62_loop _ _ _) as [r|] eqn:E; [|reflexivity].
  eapply encode_base62_loop_alphabet; [|exact E]. reflexivity.
Qed.

Lemma index_of_nonneg (s : string) (c : ascii) : 0 <= Py.index_of s c.
Proof.
  induction s as [|c' s IH]; cbn [Py.index_of]; [lia|].
  destruct (Ascii.eqb c c'); lia.
Qed.

Lemma decode_base62_loop_nonneg (s : string) :
  forall acc n, 0 <= acc -> decode_base62_loop s acc = Ok n -> 0 <= n.
Proof.
  induction s as [|c s IH]; intros acc n Hacc H; cbn [decode_base62_loop] in H.
  - injection H as <-. assumption.
  - destruct (negb (Py.contains _BASE62_ALPHABET c)); [discriminate|].
    apply IH in H; [assumption|].
    pose proof (index_of_nonneg _BASE62_ALPHABET c). lia.
Qed.

Lemma le_bytes_byte (n : nat) : forall num, Forall is_byte (Py.le_bytes n num).
Proof.
  induction n as [|n IH]; intros num; cbn [Py.le_bytes]; constructor.
  - apply Z.mod_pos_bound. lia.
  - apply IH.
Qed.

Lemma be_bytes_head (n : nat) :
  forall num, 256 ^ Z.of_nat n <= num < 256 ^ Z.of_nat (S n) ->
  exists b w, rev (Py.le_bytes (S n) num) = b :: w /\ 1 <= b < 256.
Proof.
  induction n as [|n IH]; intros num Hn.
  - exists (num mod 256), []. split; [reflexivity|].
    change (256 ^ Z.of_nat 0) with 1 in Hn.
    change (256 ^ Z.of_nat 1) with 256 in Hn.
    rewrite Z.mod_small; lia.
  - destruct (IH (num / 256)) as [b [w [Hw Hb]]].
    + rewrite !Nat2Z.inj_succ, !Z.pow_succ_r in Hn by lia.
      rewrite Nat2Z.inj_succ, Z.pow_succ_r by lia.
      split; [apply Z.div_le_lower_bound; lia|].
      apply Z.div_lt_upper_bound; lia.
    + exists b, (w ++ [num mod 256]). split; [|assumption].
      change (Py.le_bytes (S (S n)) num)
        with (num mod 256 :: Py.le_bytes (S n) (num / 256)).
      cbn [rev]. rewrite Hw. reflexivity.
Qed.

(** Decoding never returns a leading zero byte in front of other bytes. *)
Lemma decode_base62_shape (s : string) (bytes : list Z) :
  _decode_base62 s = Ok bytes ->
  Forall is_byte bytes
  /\ ((2 <= List.length bytes)%nat -> 1 <= nth 0 bytes 0 < 256).
Proof.
  unfold _decode_base62. destruct s as [|c s].
  { intros H. injection H as <-. split; [constructor|cbn; lia]. }
  destruct (decode_base62_loop (String c s) 0) as [num|e] eqn:E;
    [|discriminate].
  apply decode_base62_loop_nonneg in E; [|lia]. cbn [bind].
  destruct (num =? 0) eqn:E0.
  { intros H. injection H as <-.
    split; [repeat constructor; unfold is_byte; lia|cbn; lia]. }
  unfold Py.int_to_bytes.
  destruct (num <? 0); [discriminate|].
  destruct (256 ^ ((Py.bit_length num + 7) / 8) <=? num) eqn:E1;
    [discriminate|].
  intros H. injection H as <-.
  split; [apply Forall_rev, le_bytes_byte|]. intros _.
  apply Z.leb_gt in E1.
  unfold Py.bit_length in *. rewrite E0 in *.
  remember ((Z.log2 num + 1 + 7) / 8) as k eqn:Hk.
  assert (1 <= k /\ 8 * (k - 1) <= Z.log2 num) as [Hk1 Hk2].
  { pose proof (Z.log2_nonneg num).
    pose proof (Z.div_mod (Z.log2 num + 1 + 7) 8 ltac:(lia)).
    pose proof (Z.mod_pos_bound (Z.log2 num + 1 + 7) 8 ltac:(lia)).
    rewrite <- Hk in *. lia. }
  assert (256 ^ (k - 1) <= num) as Hlo.
  { change 256 with (2 ^ 8). rewrite <- Z.pow_mul_r by lia.
    apply Z.log2_le_pow2; lia. }
  destruct (be_bytes_head (Z.to_nat (k - 1)) num) as [b [w [Hw Hb]]].
  - rewrite Nat2Z.inj_succ, !Z2Nat.id by lia.
    replace (Z.succ (k - 1)) with k by lia. lia.
  - replace (Z.to_nat k) with (S (Z.to_nat (k - 1))) by lia.
    rewrite Hw. cbn [nth]. exact Hb.
Qed.

(** ** Parsing a share *)

Lemma parse_current_format_eq (share_str : string) (decoded_bytes : list Z) :
  _decode_base62 share_str = Ok decoded_bytes ->
  (5 <= List.length decoded_bytes)%nat ->
  _parse_base62_share share_str
  = if Z.of_nat (List.length (skipn 5 decoded_bytes))
       =? Py.int_from_bytes (slice decoded_bytes 3 5)
    then Ok (nth 0 decoded_bytes 0,
             firstn (Z.to_nat (Py.int_from_bytes (slice decoded_bytes 1 3)))
                    (skipn 5 decoded_bytes))
    else Err (ValueError "Failed to parse share: Share data length mismatch").
Proof.
  intros Hd Hlen.
  destruct (decode_base62_shape _ _ Hd) as [_ Hid].
  specialize (Hid ltac:(lia)).
  unfold _parse_base62_share, parse_base62_share_body.
  rewrite Hd. cbn [bind].
  destruct (List.length decoded_bytes <? 5)%nat eqn:E;
    [apply Nat.ltb_lt in E; lia|].
  destruct (nth 0 decoded_bytes 0 <? 1) eqn:E1; [lia|].
  destruct (255 <? nth 0 decoded_bytes 0) eqn:E2; [lia|].
  cbn [orb].
  destruct (Z.of_nat (List.length (skipn 5 decoded_bytes))
            =? Py.int_from_bytes (slice decoded_bytes 3 5)); reflexivity.
Qed.

(** C3 (as amended): for a share whose Base62-decoded bytes are at least
    five long, the parser accepts exactly when the bytes after the
    five-byte header are exactly P long, and then returns ShareId with the
    first L of them; whenever their number differs from P, be it smaller
    or larger, it fails with the length-mismatch error. *)
Theorem parse_current_format (share_str : string) (decoded_bytes : list Z) :
  _decode_base62 share_str = Ok decoded_bytes ->
  (5 <= List.length decoded_bytes)%nat ->
  let share_id := nth 0 decoded_bytes 0 in
  let original_length := Py.int_from_bytes (slice decoded_bytes 1 3) in
  let padded_length := Py.int_from_bytes (slice decoded_bytes 3 5) in
  let share_data := skipn 5 decoded_bytes in
  (Z.of_nat (List.length share_data) = padded_length ->
   _parse_base62_share share_str
   = Ok (share_id, firstn (Z.to_nat original_length) share_data))
  /\ (Z.of_nat (List.length share_data) <> padded_length ->
      _parse_base62_share share_str
      = Err (ValueError
               "Failed to parse share: Share data length mismatch")).
Proof.
  intros Hd Hlen. cbv zeta.
  rewrite (parse_current_format_eq _ _ Hd Hlen).
  split; intros H.
  - rewrite H, Z.eqb_refl. reflexivity.
  - apply Z.eqb_neq in H. rewrite H. reflexivity.
Qed.

Lemma parse_current_format_witness :
  _decode_base62 "1HvbE2lAg" = Ok [1; 0; 1; 0; 1; 65; 66]
  /\ (5 <= List.length [1; 0; 1; 0; 1; 65; 66])%nat
  /\ ((Z.of_nat (List.length (skipn 5 [1; 0; 1; 0; 1; 65; 66]))
       = Py.int_from_bytes (slice [1; 0; 1; 0; 1; 65; 66] 3 5) ->
       _parse_base62_share "1HvbE2lAg"
       = Ok (nth 0 [1; 0; 1; 0; 1; 65; 66] 0,
             firstn (Z.to_nat (Py.int_from_bytes
                                 (slice [1; 0; 1; 0; 1; 65; 66] 1 3)))
                    (skipn 5 [1; 0; 1; 0; 1; 65; 66])))
      /\ (Z.of_nat (List.length (skipn 5 [1; 0; 1; 0; 1; 65; 66]))
          <> Py.int_from_bytes (slice [1; 0; 1; 0; 1; 65; 66] 3 5) ->
          _parse_base62_share "1HvbE2lAg"
          = Err (ValueError
                   "Failed to parse share: Share data length mismatch"))).
Proof.
  assert (_decode_base62 "1HvbE2lAg" = Ok [1; 0; 1; 0; 1; 65; 66]) as Hd
    by reflexivity.
  assert (5 <= List.length [1; 0; 1; 0; 1; 65; 66])%nat as Hl
    by (cbn; lia).
  split; [exact Hd|]. split; [exact Hl|].
  apply (parse_current_format "1HvbE2lAg" [1; 0; 1; 0; 1; 65; 66] Hd Hl).
Defined.

(** C3 as stated fails when more than P bytes follow the header: the
    share below declares P = 1, carries two bytes of data, and is
    rejected. *)
Lemma parse_current_format_counterexample :
  _decode_base62 "1HvbE2lAg" = Ok [1; 0; 1; 0; 1; 65; 66]
  /\ Py.int_from_bytes (slice [1; 0; 1; 0; 1; 65; 66] 3 5) = 1
  /\ List.length (skipn 5 [1; 0; 1; 0; 1; 65; 66]) = 2%nat
  /\ _parse_base62_share "1HvbE2lAg"
     = Err (ValueError "Failed to parse share: Share data length mismatch").
Proof. repeat split; reflexivity. Qed.

(** ** Framing a share *)

Lemma int_to_bytes_be16 (n : Z) :
  0 <= n < 65536 -> Py.int_to_bytes n 2 = Ok (be16 n).
Proof.
  intros Hn. unfold Py.int_to_bytes, be16.
  destruct (n <? 0) eqn:E; [lia|].
  change (256 ^ 2) with 65536.
  destruct (65536 <=? n) eqn:E1; [lia|].
  change (Z.to_nat 2) with 2%nat. cbn [Py.le_bytes rev app].
  rewrite (Z.mod_small (n / 256)); [reflexivity|].
  split; [apply Z.div_pos; lia|apply Z.div_lt_upper_bound; lia].
Qed.

Lemma be16_value (n : Z) : Py.int_from_bytes (be16 n) = n.
Proof.
  unfold be16, Py.int_from_bytes. cbn [fold_left].
  pose proof (Z.div_mod n 256 ltac:(lia)). lia.
Qed.

Lemma be16_byte (n : Z) : 0 <= n < 65536 -> Forall is_byte (be16 n).
Proof.
  intros Hn. unfold be16. repeat constructor.
  - apply Z.div_pos; lia.
  - apply Z.div_lt_upper_bound; lia.
  - apply Z.mod_pos_bound; lia.
  - apply Z.mod_pos_bound; lia.
Qed.

Lemma frame_bytes_byte (share_id : Z) (share_data : list Z) (L : Z) :
  is_byte share_id -> Forall is_byte share_data -> 0 <= L < 65536 ->
  Z.of_nat (List.length share_data) < 65536 ->
  Forall is_byte (frame_bytes share_id share_data L).
Proof.
  intros Hid Hd HL HP. unfold frame_bytes.
  constructor; [assumption|].
  apply Forall_app. split; [apply be16_byte, HL|].
  apply Forall_app. split; [apply be16_byte; lia|assumption].
Qed.

Lemma is_byteb_forallb (l : list Z) :
  Forall is_byte l -> forallb is_byteb l = true.
Proof.
  intros H. apply forallb_forall. rewrite Forall_forall in H.
  intros a Ha. apply is_byteb_spec, H, Ha.
Qed.

Lemma bytes_of_list_ok (l : list Z) :
  Forall is_byte l -> Py.bytes_of_list l = Ok l.
Proof.
  intros H. unfold Py.bytes_of_list. rewrite is_byteb_forallb by assumption.
  reflexivity.
Qed.

(** When its natural encoding has 250 characters or more, a frame is
    emitted as it is and no random number is drawn. *)
Lemma format_share_long (share_id : Z) (share_data : list Z) (L : Z) (g : rng) :
  is_byte share_id -> 0 <= L < 65536 ->
  Z.of_nat (List.length share_data) < 65536 ->
  (250 <= String.length (_encode_base62 (frame_bytes share_id share_data L)))%nat ->
  _format_share_with_original_length share_id share_data L g
  = Ok (_encode_base62 (frame_bytes share_id share_data L), g).
Proof.
  intros Hid HL HP Hlen. unfold _format_share_with_original_length.
  rewrite bytes_of_list_ok by (constructor; [assumption|constructor]).
  rewrite !int_to_bytes_be16 by lia. cbn [bind].
  change ([share_id] ++ be16 L ++ be16 (Z.of_nat (List.length share_data)))
    with (share_id :: be16 L ++ be16 (Z.of_nat (List.length share_data))).
  replace ((share_id :: be16 L ++ be16 (Z.of_nat (List.length share_data)))
             ++ share_data)
    with (frame_bytes share_id share_data L)
    by (unfold frame_bytes; cbn [app]; rewrite <- !app_assoc; reflexivity).
  destruct (String.length (_encode_base62 (frame_bytes share_id share_data L))
            <? 250)%nat eqn:E; [apply Nat.ltb_lt in E; lia|].
  reflexivity.
Qed.

Lemma pow62_249 : 62 ^ 249 <= 256 ^ 204.
Proof.
  apply Z.le_trans with (64 ^ 249).
  - apply Z.pow_le_mono_l. lia.
  - change 64 with (2 ^ 6). change 256 with (2 ^ 8).
    rewrite <- !Z.pow_mul_r by lia. apply Z.pow_le_mono_r; lia.
Qed.

(** A frame of 200 data bytes or more encodes to 250 characters or more. *)
Lemma frame_encoding_long (share_id : Z) (share_data : list Z) (L : Z) :
  1 <= share_id < 256 -> Forall is_byte share_data -> 0 <= L < 65536 ->
  (200 <= List.length share_data)%nat ->
  Z.of_nat (List.length share_data) < 65536 ->
  (250 <= String.length (_encode_base62 (frame_bytes share_id share_data L)))%nat.
Proof.
  intros Hid Hd HL HP HP'.
  assert (Forall is_byte (frame_bytes share_id share_data L)) as Hb
    by (apply frame_bytes_byte; try assumption; unfold is_byte; lia).
  unfold frame_bytes in *.
  set (w := be16 L ++ be16 (Z.of_nat (List.length share_data)) ++ share_data)
    in *.
  pose proof (int_from_bytes_head share_id w Hb ltac:(lia)) as [Hlo _].
  assert (204 <= Z.of_nat (List.length w)) as Hw.
  { subst w. rewrite !length_app. cbn [be16 List.length]. lia. }
  assert (62 ^ Z.of_nat 249 <= Py.int_from_bytes (share_id :: w)) as Hnum.
  { apply Z.le_trans with (256 ^ 204); [apply pow62_249|].
    apply Z.le_trans with (256 ^ Z.of_nat (List.length w)); [|assumption].
    apply Z.pow_le_mono_r; lia. }
  destruct (encode_base62_positive (share_id :: w)) as [r [Hr ->]].
  { pose proof (Z.pow_pos_nonneg 62 (Z.of_nat 249)). lia. }
  pose proof (encode_base62_loop_digits _ 249 _ _ _ Hnum Hr) as H.
  cbn [String.length] in H. lia.
Qed.

Lemma parse_frame (share_id : Z) (share_data : list Z) (L : Z) :
  1 <= share_id < 256 -> Forall is_byte share_data -> 0 <= L < 65536 ->
  Z.of_nat (List.length share_data) < 65536 ->
  _parse_base62_share (_encode_base62 (frame_bytes share_id share_data L))
  = Ok (share_id, firstn (Z.to_nat L) share_data).
Proof.
  intros Hid Hd HL HP.
  assert (Forall is_byte (frame_bytes share_id share_data L)) as Hb
    by (apply frame_bytes_byte; try assumption; unfold is_byte; lia).
  assert (_decode_base62 (_encode_base62 (frame_bytes share_id share_data L))
          = Ok (frame_bytes share_id share_data L)) as Hdec.
  { rewrite base62_roundtrip_normal by assumption.
    unfold frame_bytes, base62_normal_form. cbn [strip_zeros].
    destruct (share_id =? 0) eqn:E; [lia|reflexivity]. }
  rewrite (parse_current_format_eq _ _ Hdec)
    by (unfold frame_bytes; cbn [be16 app List.length]; lia).
  unfold frame_bytes, slice.
  cbn [be16 app skipn firstn Nat.sub nth].
  fold (be16 L). fold (be16 (Z.of_nat (List.length share_data))).
  rewrite !be16_value, Z.eqb_refl. reflexivity.
Qed.

Lemma format_parse_long (share_id : Z) (share_data : list Z) (L : Z) (g : rng) :
  1 <= share_id < 256 -> Forall is_byte share_data -> 0 <= L < 65536 ->
  (200 <= List.length share_data)%nat ->
  Z.of_nat (List.length share_data) < 65536 ->
  _format_share_with_original_length share_id share_data L g
  = Ok (_encode_base62 (frame_bytes share_id share_data L), g)
  /\ _parse_base62_share (_encode_base62 (frame_bytes share_id share_data L))
     = Ok (share_id, firstn (Z.to_nat L) share_data).
Proof.
  intros Hid Hd HL HP HP'. split.
  - apply format_share_long; try lia; [unfold is_byte; lia|].
    apply frame_encoding_long; assumption.
  - apply parse_frame; assumption.
Qed.

(** C8 (as amended): for a frame of at least 200 data bytes, the size at
    which no transport padding is added, parsing the framed share returns
    the ShareId that was framed and the first L of the ShareValues; the
    values from position L on are dropped, and L and P themselves are
    checked but not returned. *)
Theorem frame_parse_roundtrip
    (share_id : Z) (share_data : list Z) (L : Z) (g : rng) :
  1 <= share_id < 256 -> Forall is_byte share_data -> 0 <= L < 65536 ->
  (200 <= List.length share_data)%nat ->
  Z.of_nat (List.length share_data) < 65536 ->
  exists share_str,
    _format_share_with_original_length share_id share_data L g
    = Ok (share_str, g)
    /\ _parse_base62_share share_str
       = Ok (share_id, firstn (Z.to_nat L) share_data).
Proof.
  intros Hid Hd HL HP HP'.
  exists (_encode_base62 (frame_bytes share_id share_data L)).
  apply format_parse_long; assumption.
Qed.

(** ** Addition is exclusive or; multiplication distributes over it *)

Lemma xtime_checked :
  forall_byte (fun a => forall_byte (xtime_check a)) = true.
Proof. vm_cast_no_check (eq_refl true). Qed.

Lemma xtime_at (a b : Z) :
  is_byte a -> is_byte b ->
  is_byte (xtime a) /\ is_byte (Z.lxor a b)
  /\ xtime (Z.lxor a b) = Z.lxor (xtime a) (xtime b).
Proof.
  intros Ha Hb.
  pose proof (forall_byte2_spec _ xtime_checked a b Ha Hb) as H.
  unfold xtime_check in H. rewrite !andb_true_iff in H.
  destruct H as [[H1 H2] H3].
  apply is_byteb_spec in H1, H2. apply Z.eqb_eq in H3. auto.
Qed.

Lemma lxor_byte (a b : Z) : is_byte a -> is_byte b -> is_byte (Z.lxor a b).
Proof. intros Ha Hb. apply (xtime_at a b Ha Hb). Qed.

Lemma gf_mult_basic_loop_step (fuel : nat) (a b r : Z) :
  gf_mult_basic_loop (S fuel) a b r
  = if b =? 0 then Some r
    else gf_mult_basic_loop fuel (xtime a) (Z.shiftr b 1)
           (if Z.land b 1 =? 0 then r else Z.lxor r a).
Proof. reflexivity. Qed.

(** The loop is additive in [a] and in the accumulator. *)
Lemma gf_mult_basic_loop_linear (fuel : nat) :
  forall a a' b r r' v v',
  is_byte a -> is_byte a' ->
  gf_mult_basic_loop fuel a b r = Some v ->
  gf_mult_basic_loop fuel a' b r' = Some v' ->
  gf_mult_basic_loop fuel (Z.lxor a a') b (Z.lxor r r')
  = Some (Z.lxor v v').
Proof.
  induction fuel as [|fuel IH]; intros a a' b r r' v v' Ha Ha' Hv Hv';
    [discriminate|].
  rewrite gf_mult_basic_loop_step in *.
  destruct (b =? 0); [congruence|].
  destruct (xtime_at a a' Ha Ha') as [Hx [_ Hl]].
  destruct (xtime_at a' a Ha' Ha) as [Hx' _].
  rewrite Hl.
  replace (if Z.land b 1 =? 0 then Z.lxor r r'
           else Z.lxor (Z.lxor r r') (Z.lxor a a'))
    with (Z.lxor (if Z.land b 1 =? 0 then r else Z.lxor r a)
                 (if Z.land b 1 =? 0 then r' else Z.lxor r' a')).
  - apply IH; assumption.
  - destruct (Z.land b 1 =? 0); [reflexivity|].
    rewrite !Z.lxor_assoc. f_equal.
    rewrite <- !Z.lxor_assoc. f_equal. apply Z.lxor_comm.
Qed.

Lemma land_lxor_distr (v v' m : Z) :
  Z.land (Z.lxor v v') m = Z.lxor (Z.land v m) (Z.land v' m).
Proof.
  apply Z.bits_inj'. intros n Hn.
  rewrite !Z.land_spec, !Z.lxor_spec, !Z.land_spec.
  destruct (Z.testbit v n), (Z.testbit v' n), (Z.testbit m n); reflexivity.
Qed.

Lemma gf_mult_basic_linear (a a' b : Z) :
  is_byte a -> is_byte a' -> 0 <= b ->
  _gf_mult_basic (Z.lxor a a') b
  = Z.lxor (_gf_mult_basic a b) (_gf_mult_basic a' b).
Proof.
  intros Ha Ha' Hb. unfold _gf_mult_basic.
  destruct (gf_mult_basic_loop_fuel a b Hb) as [v Hv].
  destruct (gf_mult_basic_loop_fuel a' b Hb) as [v' Hv'].
  pose proof (gf_mult_basic_loop_linear _ _ _ _ _ _ _ _ Ha Ha' Hv Hv') as H.
  change (Z.lxor 0 0) with 0 in H. rewrite H, Hv, Hv'.
  apply land_lxor_distr.
Qed.

Lemma gf_mult_lxor_l (a a' b : Z) :
  is_byte a -> is_byte a' -> is_byte b ->
  _gf_mult (Z.lxor a a') b = Z.lxor (_gf_mult a b) (_gf_mult a' b).
Proof.
  intros Ha Ha' Hb.
  rewrite <- !gf_mult_basic_table by (try apply lxor_byte; assumption).
  apply gf_mult_basic_linear; try assumption. apply Hb.
Qed.

Lemma lxor_eq_iff (a b : Z) : Z.lxor a b = 0 <-> a = b.
Proof. apply Z.lxor_eq_0_iff. Qed.

(** ** Division *)

Lemma gf_quot_nonzero (a b : Z) :
  a <> 0 -> b <> 0 ->
  gf_quot a b
  = znth _exp_table ((znth _log_table a - znth _log_table b) mod 255).
Proof.
  intros Ha Hb. unfold gf_quot. rewrite gf_div_nonzero by assumption.
  reflexivity.
Qed.

Lemma gf_div_quot (a b : Z) : b <> 0 -> _gf_div a b = Ok (gf_quot a b).
Proof.
  intros Hb. unfold gf_quot, _gf_div.
  destruct (a =? 0); [reflexivity|].
  destruct (b =? 0) eqn:E; [lia|reflexivity].
Qed.

Lemma gf_quot_zero_l (b : Z) : gf_quot 0 b = 0.
Proof. reflexivity. Qed.

Lemma gf_quot_zero_r (a : Z) : gf_quot a 0 = 0.
Proof.
  unfold gf_quot, _gf_div. destruct (a =? 0); reflexivity.
Qed.

Lemma gf_quot_log (a b : Z) :
  is_byte a -> is_byte b -> a <> 0 -> b <> 0 ->
  1 <= gf_quot a b < 256
  /\ znth _log_table (gf_quot a b)
     = (znth _log_table a - znth _log_table b) mod 255.
Proof.
  intros Ha Hb Hna Hnb. rewrite gf_quot_nonzero by assumption.
  apply log_exp. apply Z.mod_pos_bound. lia.
Qed.

Lemma gf_quot_byte (a b : Z) :
  is_byte a -> is_byte b -> is_byte (gf_quot a b).
Proof.
  intros Ha Hb.
  destruct (Z.eq_dec a 0) as [->|Hna]; [rewrite gf_quot_zero_l; assumption|].
  destruct (Z.eq_dec b 0) as [->|Hnb];
    [rewrite gf_quot_zero_r; unfold is_byte; lia|].
  pose proof (gf_quot_log a b Ha Hb Hna Hnb). unfold is_byte. lia.
Qed.

(** [a / b = a * (1 / b)] *)
Lemma gf_quot_mult_inv (a b : Z) :
  is_byte a -> is_byte b -> gf_quot a b = _gf_mult a (gf_quot 1 b).
Proof.
  intros Ha Hb.
  destruct (Z.eq_dec a 0) as [->|Hna]; [reflexivity|].
  destruct (Z.eq_dec b 0) as [->|Hnb].
  { rewrite !gf_quot_zero_r, gf_mult_zero_r. reflexivity. }
  assert (is_byte 1) as H1 by (unfold is_byte; lia).
  destruct (gf_quot_log 1 b H1 Hb ltac:(lia) Hnb) as [Hq Lq].
  rewrite gf_quot_nonzero, gf_mult_nonzero by lia.
  rewrite Lq. change (znth _log_table 1) with 0.
  rewrite Z.add_mod_idemp_r by lia. f_equal.
Qed.

(** [(1 / b) * b = 1] *)
Lemma gf_inv_mult (b : Z) :
  is_byte b -> b <> 0 -> _gf_mult (gf_quot 1 b) b = 1.
Proof.
  intros Hb Hnb.
  assert (is_byte 1) as H1 by (unfold is_byte; lia).
  destruct (gf_quot_log 1 b H1 Hb ltac:(lia) Hnb) as [Hq Lq].
  destruct (exp_log b Hb Hnb) as [Hl _].
  rewrite gf_mult_nonzero by lia. rewrite Lq.
  change (znth _log_table 1) with 0.
  rewrite Z.add_mod_idemp_l by lia.
  replace (0 - znth _log_table b + znth _log_table b) with 0 by lia.
  reflexivity.
Qed.

(** ** The field of bytes *)

Lemma val_byte (a : gf) : is_byte (val a).
Proof. apply is_byteb_spec, val_ok. Qed.

Lemma gf_ext (a b : gf) : val a = val b -> a = b.
Proof.
  destruct a as [a Ha], b as [b Hb]. cbn. intros ->.
  f_equal. apply UIP_dec, bool_dec.
Qed.

Lemma val_gf_of (z : Z) : is_byte z -> val (gf_of z) = z.
Proof. intros Hz. cbn. apply Z.mod_small, Hz. Qed.

Lemma gf_of_val (a : gf) : gf_of (val a) = a.
Proof. apply gf_ext, val_gf_of, val_byte. Qed.

Lemma val_gadd (a b : gf) : val (gadd a b) = Z.lxor (val a) (val b).
Proof. apply val_gf_of, lxor_byte; apply val_byte. Qed.

Lemma val_gsub (a b : gf) : val (gsub a b) = Z.lxor (val a) (val b).
Proof. apply val_gadd. Qed.

Lemma val_gmul (a b : gf) : val (gmul a b) = _gf_mult (val a) (val b).
Proof. apply val_gf_of, gf_mult_byte; apply val_byte. Qed.

Lemma val_gdiv (a b : gf) : val (gdiv a b) = gf_quot (val a) (val b).
Proof. apply val_gf_of, gf_quot_byte; apply val_byte. Qed.

Lemma val_gzero : val gzero = 0.
Proof. reflexivity. Qed.

Lemma val_gone : val gone = 1.
Proof. reflexivity. Qed.

Lemma gf_ring_theory : ring_theory gzero gone gadd gmul gsub gopp eq.
Proof.
  constructor.
  - intros x. apply gf_ext. rewrite val_gadd. apply Z.lxor_0_l.
  - intros x y. apply gf_ext. rewrite !val_gadd. apply Z.lxor_comm.
  - intros x y z. apply gf_ext. rewrite !val_gadd.
    symmetry. apply Z.lxor_assoc.
  - intros x. apply gf_ext. rewrite val_gmul, gf_mult_comm.
    apply gf_mult_one_r, val_byte.
  - intros x y. apply gf_ext. rewrite !val_gmul. apply gf_mult_comm.
  - intros x y z. apply gf_ext. rewrite !val_gmul.
    symmetry. apply gf_mult_assoc; apply val_byte.
  - intros x y z. apply gf_ext.
    rewrite val_gmul, !val_gadd, !val_gmul.
    apply gf_mult_lxor_l; apply val_byte.
  - reflexivity.
  - intros x. apply gf_ext. unfold gopp. rewrite val_gadd.
    apply Z.lxor_nilpotent.
Qed.

Lemma gf_field_theory :
  field_theory gzero gone gadd gmul gsub gopp gdiv ginv eq.
Proof.
  constructor.
  - apply gf_ring_theory.
  - intros H. apply (f_equal val) in H. discriminate.
  - intros p q. apply gf_ext. unfold ginv.
    rewrite val_gmul, !val_gdiv.
    apply gf_quot_mult_inv; apply val_byte.
  - intros p Hp. apply gf_ext. unfold ginv.
    rewrite val_gmul, val_gdiv. apply gf_inv_mult; [apply val_byte|].
    intros H0. apply Hp. apply gf_ext. exact H0.
Qed.

Add Field gf_field : gf_field_theory.

Lemma gsub_eq_zero (a b : gf) : gsub a b = gzero <-> a = b.
Proof.
  split.
  - intros H. apply (f_equal val) in H. rewrite val_gsub in H.
    apply gf_ext, lxor_eq_iff, H.
  - intros ->. apply gf_ext. rewrite val_gsub. apply Z.lxor_nilpotent.
Qed.

Lemma gsub_neq (a b : gf) : a <> b -> gsub a b <> gzero.
Proof. intros H E. apply H, gsub_eq_zero, E. Qed.

(** ** Lagrange interpolation over the field of bytes *)

Section Interpolation.

Local Open Scope gf_scope.

Variable x : gf.

Lemma glagrange_seen (f : gf -> gf) (s : gf) (nodes : list gf) :
  forall seen,
  glagrange f x (s :: seen) nodes
  = glagrange (fun c => f c * gweight x s c) x seen nodes.
Proof.
  induction nodes as [|a rest IH]; intros seen; [reflexivity|].
  cbn [glagrange app gbasis]. rewrite IH. unfold gweight. ring.
Qed.

Lemma glagrange_ext (f g : gf -> gf) (nodes : list gf) :
  forall seen,
  (forall c, In c nodes -> f c = g c) ->
  glagrange f x seen nodes = glagrange g x seen nodes.
Proof.
  induction nodes as [|a rest IH]; intros seen H; [reflexivity|].
  cbn [glagrange]. rewrite (H a) by (left; reflexivity).
  rewrite (IH (seen ++ [a])); [reflexivity|].
  intros c Hc. apply H. right. exact Hc.
Qed.

Lemma glagrange_linear (k1 k2 : gf) (f g : gf -> gf) (nodes : list gf) :
  forall seen,
  glagrange (fun c => k1 * f c + k2 * g c) x seen nodes
  = k1 * glagrange f x seen nodes + k2 * glagrange g x seen nodes.
Proof.
  induction nodes as [|a rest IH]; intros seen; cbn [glagrange].
  - ring.
  - rewrite IH. ring.
Qed.

(** The basis factors of distinct nodes add up to one. *)
Lemma glagrange_unity (n : nat) :
  forall nodes, List.length nodes = S n -> NoDup nodes ->
  glagrange (fun _ => 1) x [] nodes = 1.
Proof.
  induction n as [n IH] using lt_wf_ind. intros nodes Hlen Hnd.
  destruct nodes as [|a [|b S]]; [discriminate| |].
  - cbn [glagrange app gbasis]. ring.
  - cbn [List.length] in Hlen.
    assert (a <> b) as Hab.
    { inversion Hnd as [|? ? Hin _]; subst. intros ->. apply Hin. left.
      reflexivity. }
    assert (NoDup (a :: S)) as Hnda.
    { inversion Hnd as [|? ? Hin Hnd']; subst.
      inversion Hnd' as [|? ? _ HS]; subst.
      constructor; [|assumption]. intros H. apply Hin. right. exact H. }
    assert (NoDup (b :: S)) as Hndb by (inversion Hnd; assumption).
    assert (forall c, In c S -> c <> a /\ c <> b) as HS.
    { intros c Hc. split; intros ->.
      - inversion Hnda; contradiction.
      - inversion Hndb; contradiction. }
    pose proof (IH (List.length S) ltac:(lia) (a :: S) eq_refl Hnda) as Ua.
    pose proof (IH (List.length S) ltac:(lia) (b :: S) eq_refl Hndb) as Ub.
    cbn [glagrange app gbasis] in Ua, Ub |- *.
    rewrite glagrange_seen in Ua, Ub. rewrite !glagrange_seen.
    set (k1 := (x - b) / (a - b)).
    set (k2 := (x - a) / (b - a)).
    rewrite (glagrange_ext _
               (fun c => k1 * (1 * gweight x a c) + k2 * (1 * gweight x b c))).
    + rewrite glagrange_linear.
      set (A := glagrange (fun c => 1 * gweight x a c) x [] S) in *.
      set (B := glagrange (fun c => 1 * gweight x b c) x [] S) in *.
      transitivity (k1 * (1 * gbasis x a S + A) + k2 * (1 * gbasis x b S + B)).
      * subst k1 k2. ring.
      * rewrite Ua, Ub. subst k1 k2. field.
        split; apply gsub_neq; [intros E; apply Hab; symmetry|]; assumption.
    + intros c Hc. destruct (HS c Hc) as [Hca Hcb].
      subst k1 k2. unfold gweight. field.
      repeat split; apply gsub_neq; try assumption.
      intros E. apply Hab. symmetry. exact E.
Qed.

Lemma gsynth_spec (coefficients : list gf) (a : gf) :
  forall q r, gsynth coefficients a = (q, r) ->
  List.length q = Nat.pred (List.length coefficients)
  /\ forall t, geval coefficients t = r + (t - a) * geval q t.
Proof.
  induction coefficients as [|c rest IH]; intros q r H.
  - injection H as <- <-. split; [reflexivity|]. intros t. cbn. ring.
  - cbn [gsynth] in H. destruct rest as [|c' rest'].
    + injection H as <- <-. split; [reflexivity|]. intros t. cbn. ring.
    + destruct (gsynth (c' :: rest') a) as [q' r'] eqn:E.
      injection H as <- <-.
      destruct (IH q' r' eq_refl) as [Hl He].
      split; [cbn [List.length] in *; lia|].
      intros t. cbn [geval] in *. rewrite He. ring.
Qed.

(** Interpolating a polynomial with no more coefficients than there are
    distinct nodes gives back its value. *)
Theorem glagrange_polynomial (nodes : list gf) :
  forall coefficients,
  NoDup nodes -> (List.length coefficients <= List.length nodes)%nat ->
  glagrange (geval coefficients) x [] nodes = geval coefficients x.
Proof.
  induction nodes as [|a nodes' IH]; intros cs Hnd Hlen.
  - destruct cs; [reflexivity|cbn in Hlen; lia].
  - destruct (gsynth cs a) as [q r] eqn:E.
    destruct (gsynth_spec cs a q r E) as [Hq He].
    assert (NoDup nodes') as Hnd' by (inversion Hnd; assumption).
    assert (forall c, In c nodes' -> c <> a) as Hne.
    { intros c Hc ->. inversion Hnd; contradiction. }
    pose proof (glagrange_unity (List.length nodes') (a :: nodes') eq_refl Hnd)
      as U.
    cbn [glagrange app] in U |- *.
    rewrite glagrange_seen in U. rewrite glagrange_seen.
    rewrite (glagrange_ext _
               (fun c => r * (1 * gweight x a c) + (x - a) * geval q c)).
    + rewrite glagrange_linear.
      rewrite (IH q Hnd') by (cbn [List.length] in Hlen; lia).
      set (A := glagrange (fun c => 1 * gweight x a c) x [] nodes') in *.
      rewrite (He a), (He x).
      transitivity (r * (1 * gbasis x a nodes' + A) + (x - a) * geval q x).
      * ring.
      * rewrite U. ring.
    + intros c Hc. rewrite (He c). unfold gweight. field.
      apply gsub_neq, Hne, Hc.
Qed.

End Interpolation.

(** ** From the field back to the code *)

Lemma foldM_app {A S : Type} (f : S -> A -> result S) (l1 l2 : list A) :
  forall s,
  foldM f (l1 ++ l2) s = (s' <- foldM f l1 s ;; foldM f l2 s').
Proof.
  induction l1 as [|a l1 IH]; intros s; cbn [foldM app bind]; [reflexivity|].
  destruct (f s a); cbn [bind]; [apply IH|reflexivity].
Qed.

Lemma enumerate_from_app {A : Type} (k : nat) (l1 l2 : list A) :
  combine (seq k (List.length (l1 ++ l2))) (l1 ++ l2)
  = combine (seq k (List.length l1)) l1
    ++ combine (seq (k + List.length l1) (List.length l2)) l2.
Proof.
  revert k. induction l1 as [|a l1 IH]; intros k; cbn [app List.length].
  - rewrite Nat.add_0_r. reflexivity.
  - cbn [seq combine app]. rewrite IH, Nat.add_succ_r. reflexivity.
Qed.

Lemma evaluate_polynomial_fold (cs : list Z) (x : Z) :
  _evaluate_polynomial cs x
  = fold_right (fun c r => Z.lxor (_gf_mult r x) c) 0 cs.
Proof.
  unfold _evaluate_polynomial.
  rewrite <- (fold_left_rev_right (fun c r => Z.lxor (_gf_mult r x) c)).
  rewrite rev_involutive. reflexivity.
Qed.

Lemma evaluate_polynomial_gf (cs : list Z) (x : Z) :
  Forall is_byte cs -> is_byte x ->
  _evaluate_polynomial cs x = val (geval (map gf_of cs) (gf_of x)).
Proof.
  intros Hcs Hx. rewrite evaluate_polynomial_fold.
  induction Hcs as [|c cs Hc Hcs IH]; [reflexivity|].
  cbn [fold_right map geval]. rewrite IH.
  rewrite val_gadd, val_gmul, !val_gf_of by assumption.
  rewrite Z.lxor_comm, gf_mult_comm. reflexivity.
Qed.

Lemma evaluate_polynomial_byte (cs : list Z) (x : Z) :
  Forall is_byte cs -> is_byte x -> is_byte (_evaluate_polynomial cs x).
Proof.
  intros Hcs Hx. rewrite evaluate_polynomial_gf by assumption.
  apply val_byte.
Qed.

Lemma gbasis_app (x a : gf) (l1 l2 : list gf) :
  gbasis x a (l1 ++ l2) = gmul (gbasis x a l1) (gbasis x a l2).
Proof.
  induction l1 as [|b l1 IH]; cbn [app gbasis]; [ring|].
  rewrite IH. ring.
Qed.

(** The inner loop over a stretch of points that does not contain the
    point [i] itself multiplies the factors of that stretch onto [li]. *)
Lemma lagrange_basis_stretch (x : Z) (i : nat) (xi : Z) (l : list (Z * Z)) :
  forall (k : nat) (li : gf),
  is_byte x -> is_byte xi ->
  (i < k \/ k + List.length l <= i)%nat ->
  Forall (fun p => is_byte (fst p) /\ fst p <> xi) l ->
  foldM (lagrange_basis_step x i xi)
        (combine (seq k (List.length l)) l) (val li)
  = Ok (val (gmul li (gbasis (gf_of x) (gf_of xi) (map gf_of (map fst l))))).
Proof.
  induction l as [|[xj yj] l IH]; intros k li Hx Hxi Hk Hl.
  - cbn [List.length seq combine foldM map gbasis]. apply (f_equal Ok), (f_equal val). ring.
  - inversion Hl as [|? ? [Hbj Hne] Hl']; subst. cbn [fst] in *.
    cbn [List.length seq combine foldM lagrange_basis_step].
    replace (i =? k)%nat with false
      by (symmetry; apply Nat.eqb_neq; cbn [List.length] in Hk; lia).
    cbn [negb]. replace (xi =? xj) with false by (symmetry; lia).
    rewrite gf_div_quot by (rewrite lxor_eq_iff; congruence).
    cbn [bind map gbasis].
    replace (_gf_mult (val li) (gf_quot (Z.lxor x xj) (Z.lxor xi xj)))
      with (val (gmul li (gdiv (gsub (gf_of x) (gf_of xj))
                               (gsub (gf_of xi) (gf_of xj))))).
    + rewrite IH; try assumption.
      * cbn [fst]. apply (f_equal Ok), (f_equal val). ring.
      * cbn [List.length] in Hk. lia.
    + rewrite val_gmul, val_gdiv, !val_gsub, !val_gf_of by assumption.
      reflexivity.
Qed.

(** The basis factor of the point that stands between [before] and
    [after]. *)
Lemma lagrange_basis_gf (x xi yi : Z) (before after : list (Z * Z)) :
  is_byte x -> is_byte xi ->
  Forall (fun p => is_byte (fst p) /\ fst p <> xi) before ->
  Forall (fun p => is_byte (fst p) /\ fst p <> xi) after ->
  lagrange_basis (before ++ (xi, yi) :: after) x (List.length before) xi
  = Ok (val (gbasis (gf_of x) (gf_of xi)
                    (map gf_of (map fst (before ++ after))))).
Proof.
  intros Hx Hxi Hb Ha. unfold lagrange_basis, enumerate.
  rewrite enumerate_from_app, foldM_app. cbn [Nat.add].
  change 1 with (val gone).
  rewrite lagrange_basis_stretch by (try assumption; lia).
  cbn [bind List.length seq combine foldM lagrange_basis_step].
  rewrite Nat.eqb_refl. cbn [negb bind].
  rewrite lagrange_basis_stretch by (try assumption; lia).
  rewrite !map_app, gbasis_app. apply (f_equal Ok), (f_equal val). ring.
Qed.

Lemma gpoints_fst (f : gf -> gf) (nodes : list Z) :
  map fst (gpoints f nodes) = nodes.
Proof.
  unfold gpoints. rewrite map_map. cbn [fst]. apply map_id.
Qed.

Lemma gpoints_others (f : gf -> gf) (a : Z) (nodes : list Z) :
  Forall is_byte nodes -> ~ In a nodes ->
  Forall (fun p => is_byte (fst p) /\ fst p <> a) (gpoints f nodes).
Proof.
  intros Hb Hin. unfold gpoints. apply Forall_map. cbn [fst].
  rewrite Forall_forall in *. intros c Hc. split; [apply Hb, Hc|].
  intros ->. contradiction.
Qed.

(** The outer loop from the point after [before] on adds the remaining
    terms of the interpolation sum. *)
Lemma lagrange_steps_gf (x : Z) (f : gf -> gf) (nodes : list Z) :
  is_byte x -> Forall is_byte nodes -> NoDup nodes ->
  forall (after before : list Z) (R : gf),
  nodes = before ++ after ->
  foldM (lagrange_step (gpoints f nodes) x)
        (combine (seq (List.length before) (List.length after))
                 (gpoints f after))
        (val R)
  = Ok (val (gadd R (glagrange f (gf_of x) (map gf_of before)
                               (map gf_of after)))).
Proof.
  intros Hx Hb Hnd.
  induction after as [|a rest IH]; intros before R Hn.
  - cbn [List.length seq gpoints map combine foldM glagrange].
    apply (f_equal Ok), (f_equal val). ring.
  - subst nodes.
    pose proof (NoDup_remove_2 _ _ _ Hnd) as Hin.
    apply Forall_app in Hb as Hb'. destruct Hb' as [Hbb Hba].
    inversion Hba as [|? ? Ha Hbr]; subst.
    cbn [List.length seq gpoints map combine foldM lagrange_step].
    fold (gpoints f rest).
    replace (gpoints f (before ++ a :: rest))
      with (gpoints f before ++ (a, val (f (gf_of a))) :: gpoints f rest)
      by (unfold gpoints; rewrite map_app; reflexivity).
    assert (Forall (fun p => is_byte (fst p) /\ fst p <> a)
                   (gpoints f before)) as Hob.
    { apply gpoints_others; [assumption|].
      intros H. apply Hin, in_or_app. left. exact H. }
    assert (Forall (fun p => is_byte (fst p) /\ fst p <> a)
                   (gpoints f rest)) as Hor.
    { apply gpoints_others; [assumption|].
      intros H. apply Hin, in_or_app. right. exact H. }
    pose proof (lagrange_basis_gf x a (val (f (gf_of a))) _ _ Hx Ha Hob Hor)
      as Hbasis.
    replace (List.length (gpoints f before)) with (List.length before)
      in Hbasis by (unfold gpoints; symmetry; apply length_map).
    rewrite Hbasis. cbn [bind].
    replace (gpoints f before ++ (a, val (f (gf_of a))) :: gpoints f rest)
      with (gpoints f (before ++ a :: rest))
      by (unfold gpoints; rewrite map_app; reflexivity).
    rewrite map_app, !gpoints_fst.
    set (t := gmul (f (gf_of a))
                   (gbasis (gf_of x) (gf_of a) (map gf_of (before ++ rest)))).
    replace (Z.lxor (val R) (_gf_mult (val (f (gf_of a)))
               (val (gbasis (gf_of x) (gf_of a)
                            (map gf_of (before ++ rest))))))
      with (val (gadd R t))
      by (subst t; rewrite val_gadd, val_gmul; reflexivity).
    replace (S (List.length before)) with (List.length (before ++ [a]))
      by (rewrite length_app; cbn; lia).
    rewrite IH by (rewrite <- app_assoc; reflexivity).
    cbn [glagrange]. rewrite !map_app. cbn [map].
    apply (f_equal Ok), (f_equal val). subst t. rewrite map_app. ring.
Qed.

Lemma lagrange_interpolation_gf (x : Z) (f : gf -> gf) (nodes : list Z) :
  is_byte x -> Forall is_byte nodes -> NoDup nodes -> nodes <> [] ->
  _lagrange_interpolation (gpoints f nodes) x
  = Ok (val (glagrange f (gf_of x) [] (map gf_of nodes))).
Proof.
  intros Hx Hb Hnd Hne. unfold _lagrange_interpolation.
  destruct (gpoints f nodes) eqn:E.
  { destruct nodes; [contradiction|discriminate]. }
  rewrite <- E. unfold enumerate.
  replace (List.length (gpoints f nodes)) with (List.length nodes)
    by (unfold gpoints; symmetry; apply length_map).
  pose proof (lagrange_steps_gf x f nodes Hx Hb Hnd nodes [] gzero eq_refl)
    as H.
  cbn [List.length map] in H. change (val gzero) with 0 in H. rewrite H.
  apply (f_equal Ok), (f_equal val). ring.
Qed.

Lemma gf_of_NoDup (nodes : list Z) :
  Forall is_byte nodes -> NoDup nodes -> NoDup (map gf_of nodes).
Proof.
  induction 1 as [|a nodes Ha Hb IH]; intros Hnd; [constructor|].
  inversion Hnd as [|? ? Hin Hnd']; subst. cbn [map].
  constructor; [|apply IH, Hnd'].
  intros H. apply in_map_iff in H. destruct H as [c [Hc Hin']].
  apply Hin. replace a with c; [assumption|].
  rewrite Forall_forall in Hb.
  rewrite <- (val_gf_of c), <- (val_gf_of a), Hc by auto. reflexivity.
Qed.

Lemma evaluate_polynomial_zero (cs : list Z) :
  _evaluate_polynomial cs 0 = hd 0 cs.
Proof.
  rewrite evaluate_polynomial_fold. destruct cs as [|c cs]; [reflexivity|].
  cbn [fold_right hd]. rewrite gf_mult_zero_r. apply Z.lxor_0_l.
Qed.

(** Interpolating as many points of a polynomial as it has coefficients,
    at distinct nodes, returns the value of the polynomial. *)
Lemma lagrange_interpolation_polynomial (cs nodes : list Z) (x : Z) :
  Forall is_byte cs -> Forall is_byte nodes -> NoDup nodes -> is_byte x ->
  nodes <> [] -> (List.length cs <= List.length nodes)%nat ->
  _lagrange_interpolation
    (map (fun a => (a, _evaluate_polynomial cs a)) nodes) x
  = Ok (_evaluate_polynomial cs x).
Proof.
  intros Hcs Hb Hnd Hx Hne Hlen.
  replace (map (fun a => (a, _evaluate_polynomial cs a)) nodes)
    with (gpoints (geval (map gf_of cs)) nodes).
  - rewrite lagrange_interpolation_gf by assumption.
    rewrite glagrange_polynomial.
    + rewrite evaluate_polynomial_gf by assumption. reflexivity.
    + apply gf_of_NoDup; assumption.
    + rewrite !length_map. exact Hlen.
  - unfold gpoints. apply map_ext_in. intros a Ha.
    rewrite Forall_forall in Hb.
    rewrite evaluate_polynomial_gf by auto. reflexivity.
Qed.

(** C8 as stated fails: parsing a framed share returns the first L values
    only, here one of the 200 that were framed. *)
Lemma frame_parse_roundtrip_counterexample :
  _format_share_with_original_length 1 example_data 1 example_rng
  = Ok (_encode_base62 (frame_bytes 1 example_data 1), example_rng)
  /\ _parse_base62_share (_encode_base62 (frame_bytes 1 example_data 1))
     = Ok (1, [7])
  /\ [7] <> example_data.
Proof.
  assert (Forall is_byte example_data) as Hb.
  { apply Forall_forall. intros a Ha. apply repeat_spec in Ha. subst a.
    unfold is_byte. lia. }
  destruct (format_parse_long 1 example_data 1 example_rng) as [Hf Hp];
    try assumption; try lia.
  { unfold example_data. rewrite repeat_length. lia. }
  { unfold example_data. rewrite repeat_length. lia. }
  split; [exact Hf|]. split; [exact Hp|]. discriminate.
Qed.

Lemma frame_parse_roundtrip_witness :
  1 <= 1 < 256 /\ Forall is_byte example_data /\ 0 <= 1 < 65536
  /\ (200 <= List.length example_data)%nat
  /\ Z.of_nat (List.length example_data) < 65536
  /\ exists share_str,
       _format_share_with_original_length 1 example_data 1 example_rng
       = Ok (share_str, example_rng)
       /\ _parse_base62_share share_str
          = Ok (1, firstn (Z.to_nat 1) example_data).
Proof.
  assert (Forall is_byte example_data) as Hb.
  { apply Forall_forall. intros a Ha. apply repeat_spec in Ha. subst a.
    unfold is_byte. lia. }
  assert (200 <= List.length example_data)%nat as H200
    by (unfold example_data; rewrite repeat_length; lia).
  assert (Z.of_nat (List.length example_data) < 65536) as Hlt
    by (unfold example_data; rewrite repeat_length; lia).
  split; [lia|]. split; [exact Hb|]. split; [lia|].
  split; [exact H200|]. split; [exact Hlt|].
  apply (frame_parse_roundtrip 1 example_data 1 example_rng); auto; lia.
Defined.

(** ** Parameter validation *)

(** C9: the parameter validator of the split path accepts exactly when
    both arguments are integers with 2 <= N <= 255 and 2 <= K <= N; in
    particular splitting with N = 300 fails with the error of the
    validator. *)
Theorem validate_share_parameters_spec :
  (forall total_shares threshold : Py.value,
     fst (validate_share_parameters total_shares threshold) = true
     <-> exists N K, total_shares = Py.Int N /\ threshold = Py.Int K
                     /\ 2 <= N <= 255 /\ 2 <= K <= N)
  /\ (forall g : rng,
        generate_shares [120] (Py.Int 300) (Py.Int 2) g
        = Err (ValueError "Total shares cannot exceed 255")).
Proof.
  split; [|reflexivity].
  intros total_shares threshold. unfold validate_share_parameters. split.
  - destruct total_shares as [N|[|]|t], threshold as [K|[|]|t'];
      cbn [Py.isinstance_int Py.int_of negb orb fst];
      try discriminate;
      repeat match goal with
             | |- context [if ?c then _ else _] =>
                 destruct c eqn:?; cbn [fst]; try discriminate
             end.
    intros _. exists N, K. repeat split; lia.
  - intros [N [K [-> [-> [HN HK]]]]].
    cbn [Py.isinstance_int Py.int_of negb orb].
    destruct (N <? 2) eqn:E1; [lia|]. destruct (255 <? N) eqn:E2; [lia|].
    destruct (K <? 2) eqn:E3; [lia|]. destruct (N <? K) eqn:E4; [lia|].
    reflexivity.
Qed.

(** ** Reconstruction from too few or from clashing shares *)

Lemma foldM_ok_or {A S : Type} (f : S -> A -> result S) (e : exn)
    (l : list A) :
  (forall s a, In a l -> (exists v, f s a = Ok v) \/ f s a = Err e) ->
  forall s, (exists v, foldM f l s = Ok v) \/ foldM f l s = Err e.
Proof.
  induction l as [|a l IH]; intros H s; cbn [foldM]; [eauto|].
  destruct (H s a (or_introl eq_refl)) as [[v ->]| ->]; cbn [bind]; [|auto].
  apply IH. intros s' a' Ha'. apply H. right. exact Ha'.
Qed.




Lemma lagrange_basis_step_ok_or (x : Z) (i : nat) (xi li : Z)
    (entry : nat * (Z * Z)) :
  (exists v, lagrange_basis_step x i xi li entry = Ok v)
  \/ lagrange_basis_step x i xi li entry = Err duplicate_x.
Proof.
  destruct entry as [j [xj yj]]. unfold lagrange_basis_step.
  destruct (negb (i =? j)%nat); [|eauto].
  destruct (xi =? xj) eqn:E; [right; reflexivity|].
  rewrite gf_div_quot by (rewrite lxor_eq_iff; lia).
  cbn [bind]. eauto.
Qed.


Lemma lagrange_step_ok_or (points : list (Z * Z)) (x acc : Z)
    (entry : nat * (Z * Z)) :
  (exists v, lagrange_step points x acc entry = Ok v)
  \/ lagrange_step points x acc entry = Err duplicate_x.
Proof.
  destruct entry as [i [xi yi]]. unfold lagrange_step, lagrange_basis.
  destruct (foldM_ok_or (lagrange_basis_step x i xi) duplicate_x
              (enumerate points)
              (fun s a _ => lagrange_basis_step_ok_or x i xi s a) 1)
    as [[v ->]| ->]; cbn [bind]; eauto.
Qed.


Lemma firstn_Forall {A : Type} (P : A -> Prop) (n : nat) :
  forall l, Forall P l -> Forall P (firstn n l).
Proof.
  induction n as [|n IH]; intros l H; [constructor|].
  destruct H as [|a l Ha Hl]; cbn [firstn]; constructor; auto.
Qed.

Lemma skipn_Forall {A : Type} (P : A -> Prop) (n : nat) :
  forall l, Forall P l -> Forall P (skipn n l).
Proof.
  induction n as [|n IH]; intros l H; [exact H|].
  destruct H as [|a l Ha Hl]; cbn [skipn]; [constructor|auto].
Qed.

Lemma slice_Forall {A : Type} (P : A -> Prop) (l : list A) (a b : nat) :
  Forall P l -> Forall P (slice l a b).
Proof.
  intros H. unfold slice. apply firstn_Forall, skipn_Forall, H.
Qed.

(** What the parser returns is a share id in 1..255 with a vector of
    bytes. *)
Lemma parse_base62_share_bytes (share_str : string) (share_id : Z)
    (values : list Z) :
  _parse_base62_share share_str = Ok (share_id, values) ->
  1 <= share_id < 256 /\ Forall is_byte values.
Proof.
  unfold _parse_base62_share, parse_base62_share_body.
  destruct (_decode_base62 share_str) as [decoded|e] eqn:Hd;
    cbn [bind]; [|discriminate].
  destruct (decode_base62_shape _ _ Hd) as [Hb Hid].
  destruct (List.length decoded <? 5)%nat.
  - destruct (2 <=? List.length decoded)%nat eqn:E2; [|discriminate].
    apply Nat.leb_le in E2. specialize (Hid E2).
    destruct ((1 <=? nth 0 decoded 0) && (nth 0 decoded 0 <=? 255));
      [|discriminate].
    intros H. injection H as <- <-. split; [exact Hid|].
    apply slice_Forall, Hb.
  - destruct ((nth 0 decoded 0 <? 1) || (255 <? nth 0 decoded 0)) eqn:E;
      [discriminate|].
    destruct (negb _); [discriminate|].
    intros H. injection H as <- <-. split; [lia|].
    apply firstn_Forall. apply (skipn_Forall is_byte 5 decoded Hb).
Qed.

Lemma parse_one_first (share_str : string) (share_id : Z) (values : list Z) :
  _parse_base62_share share_str = Ok (share_id, values) ->
  parse_one ([], None) share_str
  = Ok ([(share_id, values)], Some (List.length values)).
Proof.
  intros H. unfold parse_one, accept_base62. rewrite H. reflexivity.
Qed.

(** A later share of the current format with at least as many values as
    the first is kept, cut to the length of the first. *)
Lemma parse_one_next (parsed : list (Z * list Z)) (n : nat)
    (share_str : string) (share_id : Z) (values : list Z) :
  _parse_base62_share share_str = Ok (share_id, values) ->
  (n <= List.length values)%nat ->
  parse_one (parsed, Some n) share_str
  = Ok (parsed ++ [(share_id, firstn n values)], Some n).
Proof.
  intros H Hn. unfold parse_one, accept_base62. rewrite H. cbn [bind].
  destruct (List.length values =? n)%nat eqn:E; cbn [negb].
  - apply Nat.eqb_eq in E. subst n. rewrite firstn_all. reflexivity.
  - apply Nat.eqb_neq in E.
    destruct (n <? List.length values)%nat eqn:E'; [reflexivity|].
    apply Nat.ltb_ge in E'. lia.
Qed.

Lemma nth_seq_map (l : list Z) :
  map (fun i => nth i l 0) (seq 0 (List.length l)) = l.
Proof.
  induction l as [|a l IH]; [reflexivity|].
  cbn [List.length seq map nth]. f_equal.
  rewrite <- seq_shift, map_map. exact IH.
Qed.

Lemma reconstruct_bytes (parsed : list (Z * list Z)) (g : nat -> Z) (n : nat) :
  forall (k : nat) (acc : list Z),
  (forall i, (k <= i < k + n)%nat ->
     _lagrange_interpolation
       (map (fun '(share_id, values) => (share_id, nth i values 0)) parsed) 0
     = Ok (g i)) ->
  foldM (reconstruct_byte parsed) (seq k n) acc
  = Ok (acc ++ map g (seq k n)).
Proof.
  induction n as [|n IH]; intros k acc H.
  - cbn. rewrite app_nil_r. reflexivity.
  - cbn [seq foldM]. unfold reconstruct_byte at 1.
    rewrite (H k) by lia. cbn [bind].
    rewrite IH by (intros i Hi; apply H; lia).
    cbn [map]. rewrite <- app_assoc. reflexivity.
Qed.

Lemma lagrange_single_point (share_id y : Z) :
  is_byte y -> _lagrange_interpolation [(share_id, y)] 0 = Ok y.
Proof.
  intros Hy. cbn. rewrite gf_mult_one_r by assumption. reflexivity.
Qed.

Lemma utf8_decode_error_bound (n : nat) :
  forall bs e, (List.length bs <= n)%nat ->
  Utf8.decode bs = Err e -> e = UnicodeDecodeError.
Proof.
  induction n as [|n IH]; intros bs e Hn H.
  - destruct bs; [discriminate|cbn in Hn; lia].
  - destruct bs as [|b0 r0]; [discriminate|].
    cbn [List.length] in Hn. cbn [Utf8.decode] in H.
    repeat match type of H with
           | (if ?c then _ else _) = _ => destruct c
           | match ?r with [] => _ | _ :: _ => _ end = _ =>
               destruct r; cbn [List.length] in Hn
           | Err _ = Err _ => injection H as <-; reflexivity
           | bind (Utf8.decode ?r) _ = _ =>
               let E := fresh "E" in
               destruct (Utf8.decode r) eqn:E; cbn [bind] in H;
               [discriminate|];
               injection H as <-; apply (IH r); [lia|exact E]
           end.
Qed.

Lemma utf8_decode_error (bs : list Z) (e : exn) :
  Utf8.decode bs = Err e -> e = UnicodeDecodeError.
Proof. apply (utf8_decode_error_bound (List.length bs)). lia. Qed.

(** Reconstruction from one parseable share returns the values of that
    share, read as UTF-8. *)
Lemma reconstruct_single (share_str : string) (share_id : Z)
    (values : list Z) :
  _parse_base62_share share_str = Ok (share_id, values) ->
  reconstruct_secret [share_str]
  = match Utf8.decode values with
    | Ok secret => Ok secret
    | Err _ => Err bad_utf8
    end.
Proof.
  intros H. destruct (parse_base62_share_bytes _ _ _ H) as [_ Hb].
  unfold reconstruct_secret. cbn [foldM].
  rewrite (parse_one_first _ _ _ H). cbn [bind].
  rewrite (reconstruct_bytes _ (fun i => nth i values 0)).
  - cbn [app bind]. rewrite nth_seq_map, bytes_of_list_ok by assumption.
    cbn [bind]. destruct (Utf8.decode values) as [t|e] eqn:E; [reflexivity|].
    apply utf8_decode_error in E. subst e. reflexivity.
  - intros i Hi. cbn [map]. apply lagrange_single_point.
    rewrite Forall_forall in Hb. apply Hb, nth_In. lia.
Qed.

(** C2 (a defect of the code): [reconstruct_secret] is documented to
    raise a [ValueError] when the shares are invalid or insufficient, and
    [validate_shares] refuses every list of fewer than two shares, but
    [reconstruct_secret] itself refuses the empty list only.  Given
    [lone_share], the first share of a 2-of-2 split of the secret "A",
    alone, it returns the string "@" where [validate_shares] answers that
    at least two shares are required; and given any one parseable share
    alone it returns that share's own values read as UTF-8, or the
    invalid-UTF-8 error when they are not UTF-8. *)
Theorem reconstruct_too_few_shares :
  match generate_shares [65] (Py.Int 2) (Py.Int 2) example_rng with
  | Ok (share :: _, _) => share = lone_share
  | _ => False
  end
  /\ reconstruct_secret [lone_share] = Ok [64]
  /\ validate_shares [lone_share] = (false, "At least 2 shares required")
  /\ reconstruct_secret [] = Err (ValueError "No shares provided")
  /\ (forall shares : list string,
        (List.length shares < 2)%nat -> fst (validate_shares shares) = false)
  /\ (forall (share_str : string) (share_id : Z) (values : list Z),
        _parse_base62_share share_str = Ok (share_id, values) ->
        reconstruct_secret [share_str]
        = match Utf8.decode values with
          | Ok secret => Ok secret
          | Err _ => Err bad_utf8
          end).
Proof.
  split; [vm_compute; reflexivity|].
  split; [vm_compute; reflexivity|].
  split; [vm_compute; reflexivity|].
  split; [reflexivity|]. split.
  - intros [|s [|s' shares]] H; [reflexivity|reflexivity|cbn in H; lia].
  - apply reconstruct_single.
Qed.



(** ** UTF-8 *)

Ltac div_lia := Z.div_mod_to_equations; lia.

Ltac split_ifs :=
  repeat match goal with
         | |- context [if ?b then _ else _] =>
             let E := fresh "E" in destruct b eqn:E; try div_lia
         end.

Ltac byte_list :=
  repeat (apply Forall_cons; [unfold is_byte; div_lia|]); apply Forall_nil.

Lemma encode_code_point_ok (c : Z) :
  is_scalar_value c ->
  exists bs,
    Utf8.encode_code_point c = Ok bs
    /\ Forall is_byte bs
    /\ (1 <= List.length bs <= 4)%nat
    /\ forall rest,
         Utf8.decode (bs ++ rest)
         = (decoded <- Utf8.decode rest ;; Ok (c :: decoded)).
Proof.
  intros [[H0 H1] Hs]. unfold Utf8.encode_code_point, Utf8.is_surrogate in *.
  destruct (c <? 128) eqn:E1.
  { exists [c]. split; [reflexivity|]. split.
    - byte_list.
    - split; [cbn; lia|]. intros rest. cbn [app Utf8.decode].
      rewrite E1. reflexivity. }
  destruct (c <? 2048) eqn:E2.
  { eexists. split; [reflexivity|]. split.
    - byte_list.
    - split; [cbn; lia|]. intros rest. cbn [app Utf8.decode].
      unfold Utf8.is_cont. split_ifs.
      replace ((192 + c / 64 - 192) * 64 + (128 + c mod 64 - 128)) with c
        by div_lia.
      reflexivity. }
  destruct (c <? 65536) eqn:E3.
  { rewrite Hs. eexists. split; [reflexivity|]. split.
    - byte_list.
    - split; [cbn; lia|]. intros rest. cbn [app Utf8.decode].
      unfold Utf8.is_cont, Utf8.is_surrogate.
      replace ((224 + c / 4096 - 224) * 4096
               + (128 + (c / 64) mod 64 - 128) * 64
               + (128 + c mod 64 - 128)) with c by div_lia.
      rewrite Hs. split_ifs. reflexivity. }
  eexists. split; [reflexivity|]. split.
  - byte_list.
  - split; [cbn; lia|]. intros rest. cbn [app Utf8.decode].
    unfold Utf8.is_cont.
    replace ((240 + c / 262144 - 240) * 262144
             + (128 + (c / 4096) mod 64 - 128) * 4096
             + (128 + (c / 64) mod 64 - 128) * 64
             + (128 + c mod 64 - 128)) with c by div_lia.
    split_ifs. reflexivity.
Qed.

(** Encoding a string of scalar values succeeds, and decoding gives the
    string back. *)
Lemma utf8_roundtrip (s : list Z) :
  Forall is_scalar_value s ->
  exists bytes,
    Utf8.encode s = Ok bytes
    /\ Forall is_byte bytes
    /\ (List.length s <= List.length bytes <= 4 * List.length s)%nat
    /\ Utf8.decode bytes = Ok s.
Proof.
  induction 1 as [|c s Hc Hs IH].
  - exists []. repeat split; try constructor; cbn; lia.
  - destruct IH as [rest [He [Hb [Hl Hd]]]].
    destruct (encode_code_point_ok c Hc) as [bs [Hec [Hbb [Hlb Hdec]]]].
    exists (bs ++ rest). cbn [Utf8.encode]. rewrite Hec, He. cbn [bind].
    split; [reflexivity|]. split; [apply Forall_app; auto|].
    split; [rewrite length_app; cbn [List.length]; lia|].
    rewrite Hdec, Hd. reflexivity.
Qed.

(** ** Random draws *)

Lemma secure_random_int_ok (g : rng) :
  csprng_ok g = true ->
  exists v g',
    secure_random_int 1 255 g = Ok (v, g')
    /\ 1 <= v < 256 /\ csprng_ok g' = true.
Proof.
  intros Hok. unfold secure_random_int, randbelow. rewrite Hok.
  cbn [negb]. eexists. eexists. split; [reflexivity|].
  split; [|reflexivity].
  pose proof (Z.mod_pos_bound (raw g (pos g)) (255 - 1 + 1) ltac:(lia)).
  lia.
Qed.

Lemma random_bytes_ok (n : nat) :
  forall g, csprng_ok g = true ->
  exists bs g',
    random_bytes n g = Ok (bs, g')
    /\ List.length bs = n /\ Forall is_byte bs /\ csprng_ok g' = true.
Proof.
  induction n as [|n IH]; intros g Hok.
  - exists [], g. repeat split; [constructor|assumption].
  - destruct (secure_random_int_ok g Hok) as [v [g1 [Hv [Hr Hok1]]]].
    destruct (IH g1 Hok1) as [bs [g2 [Hbs [Hl [Hb Hok2]]]]].
    exists (v :: bs), g2. cbn [random_bytes]. rewrite Hv. cbn [bind].
    rewrite Hbs. cbn [bind]. split; [reflexivity|].
    split; [cbn; lia|]. split; [|assumption].
    constructor; [unfold is_byte; lia|assumption].
Qed.

Lemma draw_coefficients_ok (n : nat) :
  forall cs g, csprng_ok g = true ->
  exists drawn g',
    draw_coefficients n cs g = Ok (cs ++ drawn, g')
    /\ List.length drawn = n /\ Forall is_byte drawn
    /\ csprng_ok g' = true.
Proof.
  induction n as [|n IH]; intros cs g Hok.
  - exists [], g. rewrite app_nil_r.
    repeat split; [constructor|assumption].
  - destruct (secure_random_int_ok g Hok) as [v [g1 [Hv [Hr Hok1]]]].
    destruct (IH (cs ++ [v]) g1 Hok1) as [dr [g2 [Hd [Hl [Hb Hok2]]]]].
    exists (v :: dr), g2. cbn [draw_coefficients]. rewrite Hv. cbn [bind].
    rewrite Hd, <- app_assoc. split; [reflexivity|].
    split; [cbn; lia|]. split; [|assumption].
    constructor; [unfold is_byte; lia|assumption].
Qed.

(** ** The loops of [generate_shares] *)

Lemma range_ids (N : Z) : range 1 (N + 1) = map id_at (seq 0 (Z.to_nat N)).
Proof.
  unfold range. replace (N + 1 - 1) with N by lia. reflexivity.
Qed.

Lemma range_bounds (lo hi j : Z) : In j (range lo hi) -> lo <= j < hi.
Proof.
  unfold range. intros H. apply in_map_iff in H.
  destruct H as [i [<- Hi]]. apply in_seq in Hi. lia.
Qed.

Lemma set_nth_middle {A : Type} (d : list A) (a v : A) (t : list A) :
  set_nth (d ++ a :: t) (List.length d) v = d ++ v :: t.
Proof.
  induction d as [|x d IH]; [reflexivity|].
  cbn [app List.length set_nth]. rewrite IH. reflexivity.
Qed.

Lemma add_share_first (cs : list Z) (ids : list Z) :
  forall acc,
  fold_left (add_share_value 0 cs) ids acc
  = acc ++ map (fun j => [j; _evaluate_polynomial cs j]) ids.
Proof.
  induction ids as [|j ids IH]; intros acc; cbn [fold_left map].
  - rewrite app_nil_r. reflexivity.
  - rewrite IH. unfold add_share_value. cbn [Nat.eqb].
    rewrite <- app_assoc. reflexivity.
Qed.

(** From the second byte on, the inner loop appends one value to every
    row, the row of id [id_at t] standing at position [t]. *)
Lemma add_share_next (i : nat) (cs : list Z) (row : Z -> list Z) (m : nat) :
  forall (k : nat) (done : list (list Z)),
  List.length done = k ->
  fold_left (add_share_value (S i) cs) (map id_at (seq k m))
            (done ++ map (fun t => row (id_at t)) (seq k m))
  = done ++ map (fun t => row (id_at t)
                          ++ [_evaluate_polynomial cs (id_at t)])
                (seq k m).
Proof.
  induction m as [|m IH]; intros k done Hk; [reflexivity|].
  cbn [seq map fold_left]. unfold add_share_value at 2. cbn [Nat.eqb].
  replace (Z.to_nat (id_at k - 1)) with (List.length done)
    by (unfold id_at; lia).
  rewrite nth_middle, set_nth_middle.
  replace (done ++ (row (id_at k) ++ [_evaluate_polynomial cs (id_at k)])
             :: map (fun t => row (id_at t)) (seq (S k) m))
    with ((done ++ [row (id_at k) ++ [_evaluate_polynomial cs (id_at k)]])
            ++ map (fun t => row (id_at t)) (seq (S k) m))
    by (rewrite <- app_assoc; reflexivity).
  rewrite IH by (rewrite length_app; cbn [List.length]; lia).
  rewrite <- app_assoc. reflexivity.
Qed.

Lemma share_rows_ids (N : Z) (cl : list (list Z)) :
  share_rows N cl
  = map (fun t => id_at t :: share_values cl (id_at t))
        (seq 0 (Z.to_nat N)).
Proof. unfold share_rows. rewrite range_ids, map_map. reflexivity. Qed.

Lemma rows_after_snoc (N : Z) (cl : list (list Z)) (cs : list Z) :
  rows_after N (cl ++ [cs]) = share_rows N (cl ++ [cs]).
Proof. destruct cl; reflexivity. Qed.

(** One round of the byte loop. *)
Lemma process_byte_ok (N K : Z) (padded : list Z) (cl : list (list Z))
    (g : rng) :
  1 <= K -> csprng_ok g = true ->
  is_byte (nth (List.length cl) padded 0) ->
  exists cs g',
    process_byte N K padded (rows_after N cl, g) (List.length cl)
    = Ok (rows_after N (cl ++ [cs]), g')
    /\ coefficients_of K (nth (List.length cl) padded 0) cs
    /\ csprng_ok g' = true.
Proof.
  intros HK Hok Hb. unfold process_byte.
  destruct (draw_coefficients_ok (Z.to_nat (K - 1))
              [nth (List.length cl) padded 0] g Hok)
    as [drawn [g' [Hd [Hl [Hdb Hok']]]]].
  rewrite Hd. cbn [bind].
  exists ([nth (List.length cl) padded 0] ++ drawn), g'.
  split; [|split; [|assumption]].
  - f_equal. f_equal. rewrite rows_after_snoc.
    destruct cl as [|c0 cl].
    + cbn [List.length rows_after]. rewrite add_share_first. cbn [app].
      reflexivity.
    + cbn [List.length rows_after].
      rewrite range_ids, !share_rows_ids.
      pose proof (add_share_next (List.length cl)
                    ([nth (S (List.length cl)) padded 0] ++ drawn)
                    (fun j => j :: share_values (c0 :: cl) j)
                    (Z.to_nat N) 0 [] eq_refl) as H.
      cbn [app] in H. cbn [app]. rewrite H.
      apply map_ext. intros t. f_equal.
      unfold share_values.
      change (c0 :: cl ++ [nth (S (List.length cl)) padded 0 :: drawn])
        with ((c0 :: cl) ++ [nth (S (List.length cl)) padded 0 :: drawn]).
      rewrite map_app. reflexivity.
  - unfold coefficients_of. cbn [app hd List.length].
    split; [reflexivity|]. split; [lia|].
    constructor; assumption.
Qed.

(** The whole byte loop, resumed after the bytes [done]. *)
Lemma process_bytes_ok (N K : Z) (padded : list Z) :
  1 <= K -> Forall is_byte padded ->
  forall (todo done : list Z) (cl : list (list Z)) (g : rng),
  padded = done ++ todo ->
  Forall2 (coefficients_of K) done cl ->
  csprng_ok g = true ->
  exists cl' g',
    foldM (process_byte N K padded)
          (seq (List.length done) (List.length todo)) (rows_after N cl, g)
    = Ok (rows_after N cl', g')
    /\ Forall2 (coefficients_of K) padded cl'
    /\ csprng_ok g' = true.
Proof.
  intros HK Hb.
  induction todo as [|b todo IH]; intros done cl g Hp Hcl Hok.
  - exists cl, g. rewrite app_nil_r in Hp. subst done.
    split; [reflexivity|]. split; assumption.
  - pose proof (Forall2_length Hcl) as Hlen.
    assert (nth (List.length cl) padded 0 = b) as Hnth
      by (rewrite Hp, <- Hlen; apply nth_middle).
    destruct (process_byte_ok N K padded cl g HK Hok)
      as [cs [g1 [Hstep [Hcs Hok1]]]].
    { rewrite Hnth. rewrite Forall_forall in Hb. apply Hb.
      rewrite Hp. apply in_or_app. right. left. reflexivity. }
    rewrite Hnth in Hcs.
    destruct (IH (done ++ [b]) (cl ++ [cs]) g1) as [cl' [g' [Hf [Hall Hok']]]].
    + rewrite <- app_assoc. exact Hp.
    + apply Forall2_app; [assumption|]. constructor; [assumption|constructor].
    + assumption.
    + exists cl', g'. split; [|split; assumption].
      cbn [List.length seq foldM]. rewrite Hlen, Hstep. cbn [bind].
      rewrite length_app in Hf. cbn [List.length] in Hf.
      rewrite Nat.add_1_r, Hlen in Hf. exact Hf.
Qed.

Lemma share_values_byte (cl : list (list Z)) (j : Z) :
  Forall (Forall is_byte) cl -> is_byte j ->
  Forall is_byte (share_values cl j).
Proof.
  intros Hcl Hj. unfold share_values. apply Forall_map.
  apply Forall_forall. intros cs Hcs. rewrite Forall_forall in Hcl.
  apply evaluate_polynomial_byte; auto.
Qed.

Lemma share_values_length (cl : list (list Z)) (j : Z) :
  List.length (share_values cl j) = List.length cl.
Proof. apply length_map. Qed.

(** The framing loop emits the natural encoding of every row. *)
Lemma encode_shares_ok (L : Z) (cl : list (list Z)) (g : rng) :
  0 <= L < 65536 ->
  (200 <= List.length cl)%nat -> Z.of_nat (List.length cl) < 65536 ->
  Forall (Forall is_byte) cl ->
  forall (ids : list Z) (acc : list string),
  Forall (fun j => 1 <= j < 256) ids ->
  foldM (encode_share L) (map (fun j => j :: share_values cl j) ids) (acc, g)
  = Ok (acc ++ map (fun j => _encode_base62
                               (frame_bytes j (share_values cl j) L)) ids,
        g).
Proof.
  intros HL H200 HP Hcl.
  induction ids as [|j ids IH]; intros acc Hids; cbn [map foldM].
  - rewrite app_nil_r. reflexivity.
  - inversion Hids as [|? ? Hj Hids']; subst.
    assert (Forall is_byte (share_values cl j)) as Hv
      by (apply share_values_byte; [assumption|unfold is_byte; lia]).
    unfold encode_share at 1. cbn [nth skipn].
    rewrite bytes_of_list_ok by assumption. cbn [bind].
    destruct (format_parse_long j (share_values cl j) L g) as [Hf _];
      try assumption; try (rewrite share_values_length; assumption).
    rewrite Hf. cbn [bind]. rewrite IH by assumption.
    rewrite <- app_assoc. reflexivity.
Qed.

Lemma validate_share_parameters_true (total_shares threshold : Py.value) :
  fst (validate_share_parameters total_shares threshold) = true ->
  2 <= Py.int_of total_shares <= 255
  /\ 2 <= Py.int_of threshold <= Py.int_of total_shares.
Proof.
  unfold validate_share_parameters.
  destruct (negb (Py.isinstance_int total_shares)
            || negb (Py.isinstance_int threshold)); [discriminate|].
  destruct (Py.int_of total_shares <? 2) eqn:E1; [discriminate|].
  destruct (255 <? Py.int_of total_shares) eqn:E2; [discriminate|].
  destruct (Py.int_of threshold <? 2) eqn:E3; [discriminate|].
  destruct (Py.int_of total_shares <? Py.int_of threshold) eqn:E4;
    [discriminate|].
  lia.
Qed.

Lemma validate_secret_length_true (secret : list Z) :
  fst (validate_secret_length secret 1 10000) = true ->
  (1 <= List.length secret)%nat /\ Z.of_nat (List.length secret) <= 10000.
Proof.
  unfold validate_secret_length.
  destruct (Z.of_nat (List.length secret) <? 1) eqn:E1; [discriminate|].
  destruct (10000 <? Z.of_nat (List.length secret)) eqn:E2; [discriminate|].
  lia.
Qed.

Lemma coefficients_of_bytes (K : Z) (bytes : list Z) (cl : list (list Z)) :
  Forall2 (coefficients_of K) bytes cl ->
  Forall (fun cs => Z.of_nat (List.length cs) = K /\ Forall is_byte cs) cl.
Proof.
  induction 1 as [|b cs bytes cl [_ [Hl Hb]] _ IH]; constructor; auto.
Qed.

Lemma Forall2_firstn_app {A B : Type} (R : A -> B -> Prop)
    (l1 l2 : list A) (l : list B) :
  Forall2 R (l1 ++ l2) l -> Forall2 R l1 (firstn (List.length l1) l).
Proof.
  revert l. induction l1 as [|a l1 IH]; intros l H; [constructor|].
  inversion H as [|? b ? l' Hab Hrest]; subst.
  cbn [List.length firstn]. constructor; auto.
Qed.

(** What [generate_shares] returns for arguments that pass validation:
    the natural encodings of the frames of N value vectors, obtained from
    one coefficient vector per byte of the padded secret. *)
Lemma generate_shares_ok (secret : list Z) (total_shares threshold : Py.value)
    (g : rng) :
  fst (validate_share_parameters total_shares threshold) = true ->
  fst (validate_secret_length secret 1 10000) = true ->
  Forall is_scalar_value secret ->
  csprng_ok g = true ->
  exists (secret_bytes : list Z) (cl : list (list Z)) (g' : rng),
    Utf8.encode secret = Ok secret_bytes
    /\ Utf8.decode secret_bytes = Ok secret
    /\ Forall is_byte secret_bytes
    /\ (List.length secret <= List.length secret_bytes
        <= 4 * List.length secret)%nat
    /\ generate_shares secret total_shares threshold g
       = Ok (share_strings (Py.int_of total_shares)
                           (Z.of_nat (List.length secret_bytes)) cl, g')
    /\ (200 <= List.length cl)%nat
    /\ (List.length secret_bytes <= List.length cl)%nat
    /\ Z.of_nat (List.length cl) < 65536
    /\ Forall2 (coefficients_of (Py.int_of threshold)) secret_bytes
               (firstn (List.length secret_bytes) cl)
    /\ Forall (fun cs => Z.of_nat (List.length cs) = Py.int_of threshold
                         /\ Forall is_byte cs) cl.
Proof.
  intros Hparams Hsecret Hscalar Hok.
  destruct (validate_share_parameters_true _ _ Hparams) as [HN HK].
  destruct (validate_secret_length_true _ Hsecret) as [Hs1 Hs2].
  destruct (utf8_roundtrip secret Hscalar) as [sb [He [Hb [Hl Hd]]]].
  exists sb.
  assert (exists padded g1,
            (if (List.length sb <? 200)%nat
             then ' (padding, g') <-
                    random_bytes (200 - List.length sb) g ;;
                  Ok (sb ++ padding, g')
             else Ok (sb, g)) = Ok (padded, g1)
            /\ (exists padding, padded = sb ++ padding)
            /\ Forall is_byte padded
            /\ (200 <= List.length padded)%nat
            /\ Z.of_nat (List.length padded) < 65536
            /\ csprng_ok g1 = true) as [padded [g1 [Hpad [[padding Hp]
                                        [Hpb [H200 [HP Hok1]]]]]]].
  { destruct (List.length sb <? 200)%nat eqn:E.
    - apply Nat.ltb_lt in E.
      destruct (random_bytes_ok (200 - List.length sb) g Hok)
        as [padding [g1 [Hr [Hlp [Hbp Hok1]]]]].
      exists (sb ++ padding), g1. rewrite Hr. cbn [bind].
      split; [reflexivity|]. split; [exists padding; reflexivity|].
      split; [apply Forall_app; auto|].
      rewrite length_app. repeat split; try assumption; lia.
    - apply Nat.ltb_ge in E. exists sb, g.
      split; [reflexivity|]. split; [exists []; symmetry; apply app_nil_r|].
      repeat split; try assumption; lia. }
  destruct (process_bytes_ok (Py.int_of total_shares) (Py.int_of threshold)
              padded ltac:(lia) Hpb padded [] [] g1 eq_refl
              (Forall2_nil _) Hok1)
    as [cl [g2 [Hloop [Hcl Hok2]]]].
  pose proof (Forall2_length Hcl) as Hlen.
  pose proof (coefficients_of_bytes _ _ _ Hcl) as Hcb.
  exists cl, g2.
  split; [exact He|]. split; [exact Hd|]. split; [exact Hb|].
  split; [exact Hl|]. split.
  - unfold generate_shares.
    destruct (validate_share_parameters total_shares threshold) as [v e].
    cbn [fst] in Hparams. subst v. cbn [negb].
    destruct (validate_secret_length secret 1 10000) as [v' e'].
    cbn [fst] in Hsecret. subst v'. cbn [negb].
    rewrite He. cbn [bind]. rewrite Hpad. cbn [bind].
    cbn [List.length rows_after] in Hloop. rewrite Hloop. cbn [bind].
    assert (rows_after (Py.int_of total_shares) cl
            = map (fun j => j :: share_values cl j)
                  (range 1 (Py.int_of total_shares + 1))) as Hrows.
    { destruct cl; [cbn [List.length] in Hlen; lia|reflexivity]. }
    rewrite Hrows.
    rewrite encode_shares_ok; try lia.
    + reflexivity.
    + apply Forall_impl with (2 := Hcb). intros cs [_ H]. exact H.
    + apply Forall_forall. intros j Hj. apply range_bounds in Hj. lia.
  - rewrite <- Hlen.
    split; [exact H200|]. split; [rewrite Hp, length_app; lia|].
    split; [exact HP|]. split; [|exact Hcb].
    rewrite Hp in Hcl. apply (Forall2_firstn_app _ _ _ _ Hcl).
Qed.

(** ** The emitted share set *)

Lemma share_strings_length (N L : Z) (cl : list (list Z)) :
  List.length (share_strings N L cl) = Z.to_nat N.
Proof.
  unfold share_strings. rewrite length_map, range_ids, length_map, length_seq.
  reflexivity.
Qed.

Lemma share_strings_nth (N L : Z) (cl : list (list Z)) (i : nat) :
  (i < Z.to_nat N)%nat ->
  nth i (share_strings N L cl) EmptyString
  = _encode_base62 (frame_bytes (id_at i) (share_values cl (id_at i)) L).
Proof.
  intros Hi. unfold share_strings. rewrite range_ids, map_map.
  rewrite (nth_indep _ EmptyString
             (_encode_base62 (frame_bytes (id_at 0)
                                (share_values cl (id_at 0)) L)))
    by (rewrite length_map, length_seq; exact Hi).
  rewrite (map_nth (fun t => _encode_base62
                               (frame_bytes (id_at t)
                                  (share_values cl (id_at t)) L))
                   (seq 0 (Z.to_nat N)) 0%nat i).
  rewrite seq_nth by exact Hi. reflexivity.
Qed.

Lemma share_string_parse (L : Z) (cl : list (list Z)) (j : Z) :
  1 <= j < 256 -> 0 <= L < 65536 -> Z.of_nat (List.length cl) < 65536 ->
  Forall (Forall is_byte) cl ->
  _parse_base62_share
    (_encode_base62 (frame_bytes j (share_values cl j) L))
  = Ok (j, firstn (Z.to_nat L) (share_values cl j)).
Proof.
  intros Hj HL HP Hcl. apply parse_frame; try assumption.
  - apply share_values_byte; [assumption|unfold is_byte; lia].
  - rewrite share_values_length. exact HP.
Qed.

Lemma range_NoDup (lo hi : Z) : NoDup (range lo hi).
Proof.
  unfold range. generalize (Z.to_nat (hi - lo)) as n. intros n.
  generalize 0%nat as k. induction n as [|n IH]; intros k; cbn [seq map].
  - constructor.
  - constructor; [|apply IH].
    intros H. apply in_map_iff in H. destruct H as [i [Hi Hin]].
    apply in_seq in Hin. lia.
Qed.

(** C5: for every accepted secret and valid (N, K), [generate_shares]
    returns N share strings, each at least 250 characters long and made
    of Base62 characters only, whose ShareIds are 1..N in order, hence
    pairwise distinct and within [1, 255]. *)
Theorem generated_shares_well_formed
    (secret : list Z) (total_shares threshold : Py.value) (g : rng) :
  fst (validate_share_parameters total_shares threshold) = true ->
  fst (validate_secret_length secret 1 10000) = true ->
  Forall is_scalar_value secret ->
  csprng_ok g = true ->
  exists (shares : list string) (g' : rng),
    generate_shares secret total_shares threshold g = Ok (shares, g')
    /\ Z.of_nat (List.length shares) = Py.int_of total_shares
    /\ Forall (fun share => (250 <= String.length share)%nat
                            /\ all_base62 share = true) shares
    /\ Forall2 (fun share share_id =>
                  exists values,
                    _parse_base62_share share = Ok (share_id, values))
               shares (range 1 (Py.int_of total_shares + 1))
    /\ NoDup (range 1 (Py.int_of total_shares + 1))
    /\ Forall (fun share_id => 1 <= share_id <= 255)
              (range 1 (Py.int_of total_shares + 1)).
Proof.
  intros Hparams Hsecret Hscalar Hok.
  destruct (validate_share_parameters_true _ _ Hparams) as [HN HK].
  destruct (validate_secret_length_true _ Hsecret) as [Hs1 Hs2].
  destruct (generate_shares_ok _ _ _ _ Hparams Hsecret Hscalar Hok)
    as [sb [cl [g' [He [Hd [Hb [Hl [Hgen [H200 [HLP [HP [Hco Hcb]]]]]]]]]]]].
  assert (Forall (Forall is_byte) cl) as Hcl
    by (apply Forall_impl with (2 := Hcb); intros cs [_ H]; exact H).
  assert (0 <= Z.of_nat (List.length sb) < 65536) as HL by lia.
  assert (forall j, In j (range 1 (Py.int_of total_shares + 1)) ->
                    1 <= j < 256) as Hids
    by (intros j Hj; apply range_bounds in Hj; lia).
  exists (share_strings (Py.int_of total_shares)
                        (Z.of_nat (List.length sb)) cl), g'.
  split; [exact Hgen|]. split; [rewrite share_strings_length; lia|].
  split; [|split; [|split; [apply range_NoDup|]]].
  - unfold share_strings. apply Forall_map, Forall_forall. intros j Hj.
    split; [|apply encode_base62_alphabet].
    apply frame_encoding_long; try assumption.
    + apply Hids, Hj.
    + apply share_values_byte; [assumption|].
      specialize (Hids j Hj). unfold is_byte. lia.
    + rewrite share_values_length. exact H200.
    + rewrite share_values_length. exact HP.
  - unfold share_strings.
    induction (range 1 (Py.int_of total_shares + 1)) as [|j ids IH];
      cbn [map]; constructor.
    + eexists. apply share_string_parse; try assumption.
      apply Hids. left. reflexivity.
    + apply IH. intros j' Hj'. apply Hids. right. exact Hj'.
  - apply Forall_forall. intros j Hj. specialize (Hids j Hj). lia.
Qed.

(** ** Reconstruction from shares of one split *)

Lemma parse_rest (pf : string -> Z * list Z) (n : nat) (l : list string) :
  forall acc,
  (forall s, In s l ->
     _parse_base62_share s = Ok (pf s) /\ List.length (snd (pf s)) = n) ->
  foldM parse_one l (acc, Some n) = Ok (acc ++ map pf l, Some n).
Proof.
  induction l as [|s l IH]; intros acc H; cbn [foldM map].
  - rewrite app_nil_r. reflexivity.
  - destruct (H s (or_introl eq_refl)) as [Hp Hn].
    destruct (pf s) as [share_id values] eqn:E. cbn [snd] in Hn.
    rewrite (parse_one_next _ _ _ _ _ Hp) by lia. cbn [bind].
    rewrite <- Hn, firstn_all, Hn.
    rewrite IH by (intros s' Hs'; apply H; right; exact Hs').
    rewrite <- app_assoc. reflexivity.
Qed.

Lemma parse_all (pf : string -> Z * list Z) (n : nat) (l : list string) :
  l <> [] ->
  (forall s, In s l ->
     _parse_base62_share s = Ok (pf s) /\ List.length (snd (pf s)) = n) ->
  foldM parse_one l ([], None) = Ok (map pf l, Some n).
Proof.
  intros Hne H. destruct l as [|s l]; [contradiction|].
  destruct (H s (or_introl eq_refl)) as [Hp Hn].
  cbn [foldM map]. destruct (pf s) as [share_id values] eqn:E.
  cbn [snd] in Hn. rewrite (parse_one_first _ _ _ Hp). cbn [bind].
  rewrite Hn.
  rewrite (parse_rest pf n l) by (intros s' Hs'; apply H; right; exact Hs').
  reflexivity.
Qed.

Lemma Forall2_nth {A B : Type} (R : A -> B -> Prop) (da : A) (db : B)
    (l1 : list A) (l2 : list B) :
  Forall2 R l1 l2 ->
  forall t, (t < List.length l1)%nat -> R (nth t l1 da) (nth t l2 db).
Proof.
  induction 1 as [|a b l1 l2 Hab _ IH]; intros t Ht; [cbn in Ht; lia|].
  destruct t as [|t]; [exact Hab|]. cbn [nth]. apply IH.
  cbn [List.length] in Ht. lia.
Qed.

Lemma nth_firstn_lt {A : Type} (d : A) (n : nat) :
  forall (l : list A) (t : nat), (t < n)%nat ->
  nth t (firstn n l) d = nth t l d.
Proof.
  induction n as [|n IH]; intros l t Ht; [lia|].
  destruct l as [|a l]; [reflexivity|].
  destruct t as [|t]; [reflexivity|]. cbn [firstn nth]. apply IH. lia.
Qed.

Lemma id_at_NoDup (idxs : list nat) : NoDup idxs -> NoDup (map id_at idxs).
Proof.
  induction 1 as [|i idxs Hin _ IH]; cbn [map]; constructor; [|exact IH].
  intros H. apply in_map_iff in H. destruct H as [i' [Hi' Hin']].
  apply Hin. replace i with i'; [exact Hin'|]. unfold id_at in Hi'. lia.
Qed.

(** Reconstruction from the shares of one split selected by distinct
    positions, as many as a coefficient vector is long. *)
Lemma reconstruct_selected (N K : Z) (secret_bytes : list Z)
    (cl : list (list Z)) (idxs : list nat) :
  2 <= K -> N <= 255 ->
  Forall is_byte secret_bytes ->
  (List.length secret_bytes <= List.length cl)%nat ->
  Z.of_nat (List.length cl) < 65536 ->
  Forall2 (coefficients_of K) secret_bytes
          (firstn (List.length secret_bytes) cl) ->
  Forall (fun cs => Z.of_nat (List.length cs) = K /\ Forall is_byte cs) cl ->
  NoDup idxs -> Z.of_nat (List.length idxs) = K ->
  Forall (fun i => (i < Z.to_nat N)%nat) idxs ->
  foldM parse_one
        (map (fun i => nth i (share_strings N
                                (Z.of_nat (List.length secret_bytes)) cl)
                           EmptyString) idxs)
        ([], None)
  = Ok (map (fun i => (id_at i,
                       firstn (List.length secret_bytes)
                              (share_values cl (id_at i)))) idxs,
        Some (List.length secret_bytes))
  /\ foldM (reconstruct_byte
              (map (fun i => (id_at i,
                              firstn (List.length secret_bytes)
                                     (share_values cl (id_at i)))) idxs))
           (seq 0 (List.length secret_bytes)) []
     = Ok secret_bytes.
Proof.
  intros HK HN Hb HLP HP Hco Hcb Hnd Hlen Hidx.
  set (L := List.length secret_bytes) in *.
  assert (Forall (Forall is_byte) cl) as Hcl
    by (apply Forall_impl with (2 := Hcb); intros cs [_ H]; exact H).
  assert (forall i, In i idxs -> 1 <= id_at i < 256) as Hid.
  { intros i Hi. rewrite Forall_forall in Hidx. specialize (Hidx i Hi).
    unfold id_at. lia. }
  assert (idxs <> []) as Hne by (intros ->; cbn in Hlen; lia).
  split.
  - replace (map (fun i => nth i (share_strings N (Z.of_nat L) cl)
                               EmptyString) idxs)
      with (map (fun i => _encode_base62
                            (frame_bytes (id_at i)
                               (share_values cl (id_at i)) (Z.of_nat L)))
                idxs).
    + rewrite (parse_all parsed_of L).
      * rewrite map_map. apply (f_equal Ok).
        apply (f_equal (fun l => (l, Some L))).
        apply map_ext_in. intros i Hi. unfold parsed_of.
        rewrite share_string_parse by (auto; lia).
        rewrite Nat2Z.id. reflexivity.
      * destruct idxs; [contradiction|discriminate].
      * intros s Hs. apply in_map_iff in Hs. destruct Hs as [i [<- Hi]].
        unfold parsed_of.
        rewrite share_string_parse by (auto; lia).
        split; [reflexivity|]. cbn [snd].
        rewrite Nat2Z.id, firstn_length_le; [reflexivity|].
        rewrite share_values_length. exact HLP.
    + apply map_ext_in. intros i Hi. symmetry.
      apply share_strings_nth. rewrite Forall_forall in Hidx. auto.
  - rewrite (reconstruct_bytes _ (fun t => nth t secret_bytes 0)).
    + cbn [app]. fold L. rewrite nth_seq_map. reflexivity.
    + intros t Ht. rewrite map_map.
      assert (t < L)%nat as HtL by lia.
      assert (In (nth t cl []) cl) as Hin by (apply nth_In; lia).
      rewrite Forall_forall in Hcb. destruct (Hcb _ Hin) as [Hcl_len Hcl_b].
      replace (map (fun i => (id_at i,
                              nth t (firstn L (share_values cl (id_at i))) 0))
                   idxs)
        with (map (fun a => (a, _evaluate_polynomial (nth t cl []) a))
                  (map id_at idxs)).
      * rewrite lagrange_interpolation_polynomial.
        -- rewrite evaluate_polynomial_zero. f_equal.
           pose proof (Forall2_nth _ 0 [] _ _ Hco t HtL) as [Hh _].
           rewrite nth_firstn_lt in Hh by exact HtL. exact Hh.
        -- exact Hcl_b.
        -- apply Forall_map, Forall_forall. intros i Hi.
           specialize (Hid i Hi). unfold is_byte. lia.
        -- apply id_at_NoDup, Hnd.
        -- unfold is_byte. lia.
        -- destruct idxs; [contradiction|discriminate].
        -- rewrite length_map. lia.
      * rewrite map_map. apply map_ext. intros i. f_equal.
        rewrite nth_firstn_lt by exact HtL.
        unfold share_values.
        change 0 with (_evaluate_polynomial [] (id_at i)) at 1.
        rewrite (map_nth (fun cs => _evaluate_polynomial cs (id_at i))).
        reflexivity.
Qed.

Lemma validate_share_parameters_int (N K : Z) :
  2 <= K <= N -> N <= 255 ->
  fst (validate_share_parameters (Py.Int N) (Py.Int K)) = true.
Proof.
  intros HK HN. unfold validate_share_parameters.
  cbn [Py.isinstance_int Py.int_of negb orb].
  destruct (N <? 2) eqn:E1; [lia|]. destruct (255 <? N) eqn:E2; [lia|].
  destruct (K <? 2) eqn:E3; [lia|]. destruct (N <? K) eqn:E4; [lia|].
  reflexivity.
Qed.

Lemma validate_secret_length_ok (secret : list Z) :
  (1 <= List.length secret)%nat -> Z.of_nat (List.length secret) <= 10000 ->
  ~ In 0 secret ->
  fst (validate_secret_length secret 1 10000) = true.
Proof.
  intros H1 H2 Hnul. unfold validate_secret_length.
  destruct (Z.of_nat (List.length secret) <? 1) eqn:E1; [lia|].
  destruct (10000 <? Z.of_nat (List.length secret)) eqn:E2; [lia|].
  destruct (existsb (Z.eqb 0) secret) eqn:E3; [|reflexivity].
  apply existsb_exists in E3. destruct E3 as [c [Hc Hz]].
  apply Z.eqb_eq in Hz. subst c. contradiction.
Qed.

Lemma reconstruct_secret_selected (shares : list string)
    (parsed : list (Z * list Z)) (n : nat) (secret_bytes secret : list Z) :
  shares <> [] -> parsed <> [] ->
  foldM parse_one shares ([], None) = Ok (parsed, Some n) ->
  foldM (reconstruct_byte parsed) (seq 0 n) [] = Ok secret_bytes ->
  Forall is_byte secret_bytes ->
  Utf8.decode secret_bytes = Ok secret ->
  reconstruct_secret shares = Ok secret.
Proof.
  intros Hs Hp Hparse Hbytes Hb Hd. unfold reconstruct_secret.
  destruct shares as [|s shares]; [contradiction|].
  rewrite Hparse. cbn [bind].
  destruct parsed as [|p parsed]; [contradiction|].
  rewrite Hbytes. cbn [bind]. rewrite bytes_of_list_ok by assumption.
  cbn [bind]. rewrite Hd. reflexivity.
Qed.

(** C1: for every secret that is a valid UTF-8 string of 1 to 10 000
    bytes without NUL and all 2 <= K <= N <= 255, whatever the random
    source hands out, [generate_shares] returns N shares, and
    [reconstruct_secret] applied to any K of them, taken at distinct
    positions in any order, returns the secret. *)
Theorem split_combine_roundtrip
    (secret secret_bytes : list Z) (N K : Z) (g : rng) :
  Forall is_scalar_value secret ->
  Utf8.encode secret = Ok secret_bytes ->
  (1 <= List.length secret_bytes)%nat ->
  Z.of_nat (List.length secret_bytes) <= 10000 ->
  ~ In 0 secret ->
  2 <= K <= N -> N <= 255 ->
  csprng_ok g = true ->
  exists (shares : list string) (g' : rng),
    generate_shares secret (Py.Int N) (Py.Int K) g = Ok (shares, g')
    /\ Z.of_nat (List.length shares) = N
    /\ forall idxs : list nat,
         NoDup idxs ->
         Z.of_nat (List.length idxs) = K ->
         Forall (fun i => (i < List.length shares)%nat) idxs ->
         reconstruct_secret (map (fun i => nth i shares EmptyString) idxs)
         = Ok secret.
Proof.
  intros Hscalar Henc HL1 HL2 Hnul HK HN Hok.
  destruct (utf8_roundtrip secret Hscalar) as [sb' [He' [_ [Hl _]]]].
  rewrite Henc in He'. injection He' as <-.
  pose proof (validate_share_parameters_int N K HK HN) as Hparams.
  assert (fst (validate_secret_length secret 1 10000) = true) as Hsecret
    by (apply validate_secret_length_ok; try assumption; lia).
  destruct (generate_shares_ok _ _ _ _ Hparams Hsecret Hscalar Hok)
    as [sb [cl [g' [He [Hd [Hb [_ [Hgen [H200 [HLP [HP [Hco Hcb]]]]]]]]]]]].
  rewrite Henc in He. injection He as <-. cbn [Py.int_of] in *.
  exists (share_strings N (Z.of_nat (List.length secret_bytes)) cl), g'.
  split; [exact Hgen|]. split; [rewrite share_strings_length; lia|].
  intros idxs Hnd Hlen Hidx. rewrite share_strings_length in Hidx.
  destruct (reconstruct_selected N K secret_bytes cl idxs)
    as [Hparse Hbytes]; try assumption; try lia.
  assert (idxs <> []) as Hne by (intros ->; cbn in Hlen; lia).
  apply (reconstruct_secret_selected _ _ _ secret_bytes secret)
    with (3 := Hparse) (4 := Hbytes); try assumption.
  - destruct idxs; [contradiction|discriminate].
  - destruct idxs; [contradiction|discriminate].
Qed.

Lemma example_secret_scalar : Forall is_scalar_value example_secret.
Proof.
  unfold example_secret, is_scalar_value, Utf8.is_code_point.
  repeat (apply Forall_cons; [split; [lia|reflexivity]|]). apply Forall_nil.
Defined.

Lemma generated_shares_well_formed_witness :
  fst (validate_share_parameters (Py.Int 3) (Py.Int 2)) = true
  /\ fst (validate_secret_length example_secret 1 10000) = true
  /\ Forall is_scalar_value example_secret
  /\ csprng_ok example_rng = true
  /\ exists (shares : list string) (g' : rng),
       generate_shares example_secret (Py.Int 3) (Py.Int 2) example_rng
       = Ok (shares, g')
       /\ Z.of_nat (List.length shares) = Py.int_of (Py.Int 3)
       /\ Forall (fun share => (250 <= String.length share)%nat
                               /\ all_base62 share = true) shares
       /\ Forall2 (fun share share_id =>
                     exists values,
                       _parse_base62_share share = Ok (share_id, values))
                  shares (range 1 (Py.int_of (Py.Int 3) + 1))
       /\ NoDup (range 1 (Py.int_of (Py.Int 3) + 1))
       /\ Forall (fun share_id => 1 <= share_id <= 255)
                 (range 1 (Py.int_of (Py.Int 3) + 1)).
Proof.
  split; [reflexivity|]. split; [reflexivity|].
  split; [exact example_secret_scalar|]. split; [reflexivity|].
  apply (generated_shares_well_formed example_secret (Py.Int 3) (Py.Int 2)
           example_rng);
    [reflexivity|reflexivity|exact example_secret_scalar|reflexivity].
Defined.

Lemma split_combine_roundtrip_witness :
  Forall is_scalar_value example_secret
  /\ Utf8.encode example_secret = Ok example_secret
  /\ (1 <= List.length example_secret)%nat
  /\ Z.of_nat (List.length example_secret) <= 10000
  /\ ~ In 0 example_secret
  /\ 2 <= 2 <= 3 /\ 3 <= 255
  /\ csprng_ok example_rng = true
  /\ exists (shares : list string) (g' : rng),
       generate_shares example_secret (Py.Int 3) (Py.Int 2) example_rng
       = Ok (shares, g')
       /\ Z.of_nat (List.length shares) = 3
       /\ forall idxs : list nat,
            NoDup idxs ->
            Z.of_nat (List.length idxs) = 2 ->
            Forall (fun i => (i < List.length shares)%nat) idxs ->
            reconstruct_secret
              (map (fun i => nth i shares EmptyString) idxs)
            = Ok example_secret.
Proof.
  assert (~ In 0 example_secret) as Hnul.
  { unfold example_secret. intros [H|[H|[]]]; discriminate. }
  split; [exact example_secret_scalar|]. split; [reflexivity|].
  split; [cbn; lia|]. split; [cbn; lia|]. split; [exact Hnul|].
  split; [lia|]. split; [lia|]. split; [reflexivity|].
  apply (split_combine_roundtrip example_secret example_secret 3 2
           example_rng);
    try reflexivity; try exact example_secret_scalar; try exact Hnul;
    cbn; lia.
Defined.

(** ** Further properties of the field arithmetic *)

(** A negative [b] stays negative under [b >>= 1]: the loop never sees
    [b = 0]. *)
Lemma gf_mult_basic_loop_negative (fuel : nat) :
  forall a b r, b < 0 -> gf_mult_basic_loop fuel a b r = None.
Proof.
  induction fuel as [|fuel IH]; intros a b r Hb; [reflexivity|].
  cbn [gf_mult_basic_loop].
  destruct (b =? 0) eqn:E; [lia|].
  apply IH. apply Z.shiftr_neg. exact Hb.
Qed.

(** More fuel than the loop needs does not change what it returns. *)
Lemma gf_mult_basic_loop_more (fuel : nat) :
  forall a b r v extra,
  gf_mult_basic_loop fuel a b r = Some v ->
  gf_mult_basic_loop (fuel + extra) a b r = Some v.
Proof.
  induction fuel as [|fuel IH]; intros a b r v extra H; [discriminate|].
  cbn [Nat.add]. rewrite gf_mult_basic_loop_step in *.
  destruct (b =? 0); [exact H|]. apply IH, H.
Qed.

(** The [while b:] loop of [_gf_mult_basic] ends for every [b >= 0], after
    at most one round per bit of [b], and the value returned is a byte;
    for a negative [b] it never ends. *)
Theorem gf_mult_basic_halts (a b : Z) :
  (0 <= b ->
   exists r,
     (forall fuel, (mult_basic_fuel b <= fuel)%nat ->
                   gf_mult_basic_loop fuel a b 0 = Some r)
     /\ _gf_mult_basic a b = Z.land r 0xff
     /\ is_byte (_gf_mult_basic a b))
  /\ (b < 0 -> forall fuel r, gf_mult_basic_loop fuel a b r = None).
Proof.
  split.
  - intros Hb. destruct (gf_mult_basic_loop_fuel a b Hb) as [r Hr].
    exists r. split; [|split].
    + intros fuel Hf.
      replace fuel with (mult_basic_fuel b + (fuel - mult_basic_fuel b))%nat
        by lia.
      apply gf_mult_basic_loop_more, Hr.
    + unfold _gf_mult_basic. rewrite Hr. reflexivity.
    + unfold _gf_mult_basic. rewrite Hr. unfold is_byte.
      change 0xff with (Z.ones 8). rewrite Z.land_ones by lia.
      apply Z.mod_pos_bound. lia.
  - intros Hb fuel r. apply gf_mult_basic_loop_negative, Hb.
Qed.

(** The tables built by [_build_tables]: [exp] lists the powers of the
    generator 3, which has order 255 ([exp[i + 1] = exp[i] * 3], wrapping
    round to [exp[0] = 1] after 255 steps); [log] is the inverse of [exp]
    on the non-zero bytes; the two entries the construction leaves over
    are [exp[255] = exp[0]] and [log[0] = 0]. *)
Theorem tables_inverse (a : Z) :
  is_byte a ->
  (a <> 0 ->
   0 <= znth _log_table a < 255 /\ znth _exp_table (znth _log_table a) = a)
  /\ (a <> 255 ->
      1 <= znth _exp_table a < 256
      /\ znth _log_table (znth _exp_table a) = a
      /\ _gf_mult_basic (znth _exp_table a) 3
         = znth _exp_table ((a + 1) mod 255))
  /\ znth _exp_table 0 = 1
  /\ znth _exp_table 255 = znth _exp_table 0
  /\ znth _log_table 0 = 0.
Proof.
  intros Ha. split; [intros Hn; apply exp_log; assumption|].
  split; [|repeat split; reflexivity].
  intros Hn. assert (0 <= a < 255) as Hi by (unfold is_byte in Ha; lia).
  destruct (log_exp a Hi) as [He Hl]. split; [exact He|]. split; [exact Hl|].
  rewrite gf_mult_basic_table by (unfold is_byte; lia).
  rewrite gf_mult_nonzero by lia. rewrite Hl. reflexivity.
Qed.

Lemma tables_inverse_witness :
  is_byte 3
  /\ ((3 <> 0 ->
       0 <= znth _log_table 3 < 255 /\ znth _exp_table (znth _log_table 3) = 3)
      /\ (3 <> 255 ->
          1 <= znth _exp_table 3 < 256
          /\ znth _log_table (znth _exp_table 3) = 3
          /\ _gf_mult_basic (znth _exp_table 3) 3
             = znth _exp_table ((3 + 1) mod 255))
      /\ znth _exp_table 0 = 1
      /\ znth _exp_table 255 = znth _exp_table 0
      /\ znth _log_table 0 = 0).
Proof.
  split; [unfold is_byte; lia|].
  apply (tables_inverse 3). unfold is_byte. lia.
Defined.

(** [_gf_div]: for bytes [a] and [b <> 0] it returns the one byte [q] with
    [q * b = a]; a non-zero [a] over zero raises the division error, but
    zero over zero returns zero without raising. *)
Theorem gf_div_spec (a b : Z) :
  is_byte a -> is_byte b ->
  (b <> 0 ->
   exists q, _gf_div a b = Ok q /\ is_byte q /\ _gf_mult q b = a
             /\ forall q', is_byte q' -> _gf_mult q' b = a -> q' = q)
  /\ (a <> 0 ->
      _gf_div a 0 = Err (ValueError "Division by zero in GF(256)"))
  /\ _gf_div 0 0 = Ok 0.
Proof.
  intros Ha Hb. split; [|split; [|reflexivity]].
  - intros Hnb. exists (gf_quot a b).
    split; [apply gf_div_quot, Hnb|].
    split; [apply gf_quot_byte; assumption|].
    assert (forall q', is_byte q' -> gf_quot (_gf_mult q' b) b = q') as Hc.
    { intros q' Hq'. pose proof (gf_div_mult q' b Hq' Hb Hnb) as H.
      rewrite gf_div_quot in H by assumption. congruence. }
    split.
    + rewrite gf_quot_mult_inv by assumption.
      assert (is_byte (gf_quot 1 b)) as Hi
        by (apply gf_quot_byte; [unfold is_byte; lia|assumption]).
      rewrite gf_mult_assoc by assumption.
      rewrite gf_inv_mult by assumption. apply gf_mult_one_r, Ha.
    + intros q' Hq' E. rewrite <- E. symmetry. apply Hc, Hq'.
  - intros Hna. unfold _gf_div. destruct (a =? 0) eqn:E; [lia|reflexivity].
Qed.

Lemma gf_div_spec_witness :
  is_byte 87 /\ is_byte 131
  /\ ((131 <> 0 ->
       exists q, _gf_div 87 131 = Ok q /\ is_byte q /\ _gf_mult q 131 = 87
                 /\ forall q', is_byte q' -> _gf_mult q' 131 = 87 -> q' = q)
      /\ (87 <> 0 ->
          _gf_div 87 0 = Err (ValueError "Division by zero in GF(256)"))
      /\ _gf_div 0 0 = Ok 0).
Proof.
  split; [unfold is_byte; lia|].
  split; [unfold is_byte; lia|].
  apply (gf_div_spec 87 131); unfold is_byte; lia.
Defined.

(** [_gf_mult] on bytes: the product is a byte, multiplication is
    associative and distributes over exclusive or (the addition of the
    field), and a product is zero only when a factor is. *)
Theorem gf_mult_ring_laws (a b c : Z) :
  is_byte a -> is_byte b -> is_byte c ->
  is_byte (_gf_mult a b)
  /\ _gf_mult (_gf_mult a b) c = _gf_mult a (_gf_mult b c)
  /\ _gf_mult a (Z.lxor b c) = Z.lxor (_gf_mult a b) (_gf_mult a c)
  /\ (_gf_mult a b = 0 <-> a = 0 \/ b = 0).
Proof.
  intros Ha Hb Hc. split; [apply gf_mult_byte; assumption|].
  split; [apply gf_mult_assoc; assumption|]. split.
  - rewrite (gf_mult_comm a (Z.lxor b c)), (gf_mult_comm a b),
      (gf_mult_comm a c).
    apply gf_mult_lxor_l; assumption.
  - split.
    + intros H.
      destruct (Z.eq_dec a 0) as [|Hna]; [left; assumption|].
      destruct (Z.eq_dec b 0) as [|Hnb]; [right; assumption|].
      pose proof (gf_mult_log a b Ha Hb Hna Hnb). lia.
    + intros [-> | ->]; [apply gf_mult_zero_l|apply gf_mult_zero_r].
Qed.

Lemma gf_mult_ring_laws_witness :
  is_byte 87 /\ is_byte 131 /\ is_byte 19
  /\ (is_byte (_gf_mult 87 131)
      /\ _gf_mult (_gf_mult 87 131) 19 = _gf_mult 87 (_gf_mult 131 19)
      /\ _gf_mult 87 (Z.lxor 131 19)
         = Z.lxor (_gf_mult 87 131) (_gf_mult 87 19)
      /\ (_gf_mult 87 131 = 0 <-> 87 = 0 \/ 131 = 0)).
Proof.
  split; [unfold is_byte; lia|].
  split; [unfold is_byte; lia|].
  split; [unfold is_byte; lia|].
  apply (gf_mult_ring_laws 87 131 19); unfold is_byte; lia.
Defined.

(** [_evaluate_polynomial] reads its coefficients lowest degree first:
    the value of [c :: cs] at [x] is [c] plus [x] times the value of [cs];
    no coefficients give zero, and at [x = 0] the value is the constant
    term, which is where [generate_shares] puts the secret byte. *)
Theorem evaluate_polynomial_horner (c : Z) (cs : list Z) (x : Z) :
  _evaluate_polynomial [] x = 0
  /\ _evaluate_polynomial (c :: cs) x
     = Z.lxor (_gf_mult (_evaluate_polynomial cs x) x) c
  /\ _evaluate_polynomial (c :: cs) 0 = c.
Proof.
  split; [reflexivity|]. split.
  - rewrite !evaluate_polynomial_fold. reflexivity.
  - rewrite evaluate_polynomial_zero. reflexivity.
Qed.

(** Interpolating samples of a polynomial, taken at distinct byte nodes
    that are at least as many as it has coefficients, returns the value of
    the polynomial at every byte [x]. *)
Theorem lagrange_interpolation_recovers (cs nodes : list Z) (x : Z) :
  Forall is_byte cs -> Forall is_byte nodes -> NoDup nodes -> is_byte x ->
  (1 <= List.length nodes)%nat ->
  (List.length cs <= List.length nodes)%nat ->
  _lagrange_interpolation
    (map (fun a => (a, _evaluate_polynomial cs a)) nodes) x
  = Ok (_evaluate_polynomial cs x).
Proof.
  intros Hcs Hb Hnd Hx Hne Hlen.
  apply lagrange_interpolation_polynomial; try assumption.
  intros ->. cbn in Hne. lia.
Qed.

Lemma lagrange_interpolation_recovers_witness :
  _lagrange_interpolation
    (map (fun a => (a, _evaluate_polynomial [72; 19; 200] a)) [1; 5; 9; 2]) 0
  = Ok (_evaluate_polynomial [72; 19; 200] 0).
Proof.
  apply (lagrange_interpolation_recovers [72; 19; 200] [1; 5; 9; 2] 0).
  - repeat (constructor; [unfold is_byte; lia|]). constructor.
  - repeat (constructor; [unfold is_byte; lia|]). constructor.
  - repeat (constructor; [cbn; intuition lia|]). constructor.
  - unfold is_byte. lia.
  - cbn. lia.
  - cbn. lia.
Defined.

(** *** Interpolation passes through its points *)

Section Nodes.

Local Open Scope gf_scope.

Lemma gdiv_zero_l (b : gf) : gzero / b = gzero.
Proof. apply gf_ext. rewrite val_gdiv. apply gf_quot_zero_l. Qed.

(** A basis factor evaluated at one of the other nodes vanishes. *)
Lemma gbasis_other (x c : gf) (others : list gf) :
  In x others -> gbasis x c others = gzero.
Proof.
  induction others as [|b rest IH]; intros H; [contradiction|].
  cbn [gbasis]. destruct H as [->|H].
  - replace (x - x) with gzero by ring. rewrite gdiv_zero_l. ring.
  - rewrite IH by assumption. ring.
Qed.

(** A basis factor evaluated at its own node is one. *)
Lemma gbasis_self (a : gf) (others : list gf) :
  ~ In a others -> gbasis a a others = gone.
Proof.
  induction others as [|b rest IH]; intros H; [reflexivity|].
  cbn [gbasis]. rewrite IH by (intros H'; apply H; right; exact H').
  assert (a - b <> gzero) as Hn.
  { apply gsub_neq. intros ->. apply H. left. reflexivity. }
  field. exact Hn.
Qed.

Lemma glagrange_passed (f : gf -> gf) (x : gf) (nodes : list gf) :
  forall seen, In x seen -> glagrange f x seen nodes = gzero.
Proof.
  induction nodes as [|c rest IH]; intros seen H; [reflexivity|].
  cbn [glagrange].
  rewrite gbasis_other by (apply in_or_app; left; exact H).
  rewrite IH by (apply in_or_app; left; exact H). ring.
Qed.

Lemma glagrange_node (f : gf -> gf) (a : gf) (nodes : list gf) :
  forall seen,
  NoDup (seen ++ nodes) -> In a nodes -> glagrange f a seen nodes = f a.
Proof.
  induction nodes as [|c rest IH]; intros seen Hnd Hin; [contradiction|].
  cbn [glagrange]. destruct Hin as [->|Hin].
  - rewrite gbasis_self by (apply NoDup_remove_2, Hnd).
    rewrite glagrange_passed
      by (apply in_or_app; right; left; reflexivity).
    ring.
  - rewrite gbasis_other by (apply in_or_app; right; exact Hin).
    rewrite IH; [ring| |exact Hin].
    rewrite <- app_assoc. exact Hnd.
Qed.

End Nodes.

Lemma value_at_points (points : list (Z * Z)) :
  Forall (fun p => is_byte (fst p) /\ is_byte (snd p)) points ->
  NoDup (map fst points) ->
  forall all, (forall p, In p points -> In p all) ->
  NoDup (map fst all) ->
  Forall (fun p => is_byte (fst p) /\ is_byte (snd p)) all ->
  gpoints (value_at all) (map fst points) = points.
Proof.
  intros Hb Hnd all Hsub Hnda Hba.
  unfold gpoints. rewrite map_map.
  rewrite <- (map_id points) at 2. apply map_ext_in.
  intros [a y] Hin. cbn [fst].
  rewrite Forall_forall in Hb. destruct (Hb _ Hin) as [Ha Hy]. cbn in Ha, Hy.
  f_equal. unfold value_at. rewrite val_gf_of by assumption.
  specialize (Hsub _ Hin). clear Hin Hb Hnd.
  induction all as [|[a' y'] all IH]; [contradiction|].
  cbn [find fst]. cbn [map fst] in Hnda.
  inversion Hnda as [|? ? Hnotin Hnda']; subst.
  inversion Hba as [|? ? Hp Hba']; subst.
  destruct Hsub as [E|Hsub].
  - inversion E; subst. rewrite Z.eqb_refl. cbn [snd].
    apply val_gf_of, Hy.
  - destruct (a' =? a) eqn:E.
    + apply Z.eqb_eq in E. subst a'. exfalso. apply Hnotin.
      apply in_map_iff. exists (a, y). split; [reflexivity|exact Hsub].
    + apply IH; assumption.
Qed.

(** For byte points with pairwise distinct x the interpolation never
    raises, returns a byte at every byte [x], and at the x of one of the
    points returns the y of that point. *)
Theorem lagrange_interpolation_nodes (points : list (Z * Z)) (x : Z) :
  Forall (fun p => is_byte (fst p) /\ is_byte (snd p)) points ->
  NoDup (map fst points) -> is_byte x ->
  (1 <= List.length points)%nat ->
  (exists y, _lagrange_interpolation points x = Ok y /\ is_byte y)
  /\ forall xi yi, In (xi, yi) points ->
                   _lagrange_interpolation points xi = Ok yi.
Proof.
  intros Hb Hnd Hx Hne.
  assert (Forall is_byte (map fst points)) as Hbx.
  { apply Forall_map. revert Hb. apply Forall_impl. tauto. }
  assert (map fst points <> []) as Hn.
  { destruct points; [cbn in Hne; lia|discriminate]. }
  pose proof (value_at_points points Hb Hnd points (fun p H => H) Hnd Hb)
    as E.
  split.
  - eexists. split.
    + rewrite <- E at 1. apply lagrange_interpolation_gf; assumption.
    + apply val_byte.
  - intros xi yi Hin.
    rewrite Forall_forall in Hb. destruct (Hb _ Hin) as [Hxi Hyi].
    cbn [fst snd] in Hxi, Hyi.
    rewrite <- E at 1.
    rewrite lagrange_interpolation_gf; try assumption.
    rewrite glagrange_node.
    + pose proof (f_equal (fun l => In (xi, yi) l) E) as HE. cbn beta in HE.
      rewrite <- HE in Hin. unfold gpoints in Hin.
      apply in_map_iff in Hin. destruct Hin as [a [Ea _]].
      inversion Ea; subst. reflexivity.
    + cbn [app]. apply gf_of_NoDup; assumption.
    + apply in_map, in_map_iff. exists (xi, yi). split; [reflexivity|exact Hin].
Qed.

Lemma lagrange_interpolation_nodes_witness :
  (exists y, _lagrange_interpolation [(1, 200); (7, 13); (2, 0)] 0 = Ok y
             /\ is_byte y)
  /\ forall xi yi, In (xi, yi) [(1, 200); (7, 13); (2, 0)] ->
       _lagrange_interpolation [(1, 200); (7, 13); (2, 0)] xi = Ok yi.
Proof.
  apply (lagrange_interpolation_nodes [(1, 200); (7, 13); (2, 0)] 0).
  - repeat (constructor; [cbn; unfold is_byte; lia|]). constructor.
  - repeat (constructor; [cbn; intuition lia|]). constructor.
  - unfold is_byte. lia.
  - cbn. lia.
Defined.

(** ** Further properties of the Base62 codec *)

Lemma string_length_app (s t : string) :
  String.length (s ++ t) = (String.length s + String.length t)%nat.
Proof.
  induction s as [|c s IH]; cbn [String.append String.length];
    [reflexivity|].
  rewrite IH. reflexivity.
Qed.

Lemma string_app_assoc (s t u : string) :
  ((s ++ t) ++ u = s ++ (t ++ u))%string.
Proof.
  induction s as [|c s IH]; cbn [String.append]; [reflexivity|].
  rewrite IH. reflexivity.
Qed.

Lemma string_app_empty (s : string) : (s ++ EmptyString)%string = s.
Proof.
  induction s as [|c s IH]; cbn [String.append]; [reflexivity|].
  rewrite IH. reflexivity.
Qed.

(** A string is empty or ends in a last character. *)
Lemma string_snoc (s : string) :
  s = EmptyString
  \/ exists s' c, s = (s' ++ String c EmptyString)%string.
Proof.
  induction s as [|c s IH]; [left; reflexivity|right].
  destruct IH as [->|[s' [c' ->]]].
  - exists EmptyString, c. reflexivity.
  - exists (String c s'), c'. reflexivity.
Qed.

Lemma all_base62_app (s t : string) :
  all_base62 (s ++ t) = all_base62 s && all_base62 t.
Proof.
  induction s as [|c s IH]; cbn [String.append all_base62]; [reflexivity|].
  rewrite IH. apply andb_assoc.
Qed.

Lemma decode_base62_loop_app (s t : string) :
  forall num,
  decode_base62_loop (s ++ t) num
  = (v <- decode_base62_loop s num ;; decode_base62_loop t v).
Proof.
  induction s as [|c s IH]; intros num;
    cbn [String.append decode_base62_loop bind]; [reflexivity|].
  destruct (negb (Py.contains _BASE62_ALPHABET c)); [reflexivity|].
  apply IH.
Qed.

(** On strings over the alphabet the decoding loop does not raise. *)
Lemma decode_base62_loop_ok (s : string) :
  forall num, 0 <= num -> all_base62 s = true ->
  exists v, decode_base62_loop s num = Ok v /\ num <= v.
Proof.
  induction s as [|c s IH]; intros num Hn H; cbn [decode_base62_loop].
  - exists num. split; [reflexivity|lia].
  - cbn [all_base62] in H. apply andb_true_iff in H. destruct H as [Hc Hs].
    rewrite Hc. cbn [negb].
    pose proof (index_of_nonneg _BASE62_ALPHABET c).
    destruct (IH (num * 62 + Py.index_of _BASE62_ALPHABET c)) as [v [Hv Hle]];
      [lia|assumption|].
    exists v. split; [exact Hv|lia].
Qed.

Lemma decode_base62_loop_single (c : ascii) (num : Z) :
  Py.contains _BASE62_ALPHABET c = true ->
  decode_base62_loop (String c EmptyString) num
  = Ok (num * 62 + Py.index_of _BASE62_ALPHABET c).
Proof.
  intros H. change (decode_base62_loop (String c EmptyString) num)
    with (if negb (Py.contains _BASE62_ALPHABET c)
          then Err (ValueError ("Invalid Base62 character: "
                                  ++ String c EmptyString))
          else Ok (num * 62 + Py.index_of _BASE62_ALPHABET c)).
  rewrite H. reflexivity.
Qed.

(** [s.index(c)] is the position of [c] in [s]. *)
Lemma char_at_index_of (s : string) (c : ascii) :
  Py.contains s c = true ->
  0 <= Py.index_of s c < Z.of_nat (String.length s)
  /\ Py.char_at s (Py.index_of s c) = c.
Proof.
  induction s as [|c' s IH]; cbn [Py.contains Py.index_of String.length];
    [discriminate|].
  intros H. destruct (Ascii.eqb c c') eqn:E.
  - apply Ascii.eqb_eq in E. subst c'. split; [lia|reflexivity].
  - cbn [orb] in H. destruct (IH H) as [Hr Hc]. split; [lia|].
    unfold Py.char_at in *.
    replace (Z.to_nat (1 + Py.index_of s c))
      with (S (Z.to_nat (Py.index_of s c))) by lia.
    exact Hc.
Qed.

Lemma base62_index (c : ascii) :
  Py.contains _BASE62_ALPHABET c = true ->
  0 <= Py.index_of _BASE62_ALPHABET c < 62
  /\ Py.char_at _BASE62_ALPHABET (Py.index_of _BASE62_ALPHABET c) = c.
Proof. intros H. apply (char_at_index_of _ _ H). Qed.

(** More fuel than the encoding loop needs does not change its result. *)
Lemma encode_base62_loop_more (fuel : nat) :
  forall num s r extra,
  encode_base62_loop fuel num s = Some r ->
  encode_base62_loop (fuel + extra) num s = Some r.
Proof.
  induction fuel as [|fuel IH]; intros num s r extra H; [discriminate|].
  cbn [Nat.add encode_base62_loop] in *.
  destruct (0 <? num); [apply IH, H|exact H].
Qed.

Lemma encode_base62_loop_unique (f1 f2 : nat) (num : Z) (s r1 r2 : string) :
  encode_base62_loop f1 num s = Some r1 ->
  encode_base62_loop f2 num s = Some r2 ->
  r1 = r2.
Proof.
  intros H1 H2.
  apply (encode_base62_loop_more _ _ _ _ f2) in H1.
  apply (encode_base62_loop_more _ _ _ _ f1) in H2.
  rewrite Nat.add_comm in H2. congruence.
Qed.

Lemma strip_zero_chars_value (s : string) :
  decode_base62_loop (strip_zero_chars s) 0 = decode_base62_loop s 0.
Proof.
  induction s as [|c s IH]; [reflexivity|].
  cbn [strip_zero_chars]. destruct (Ascii.eqb c "0") eqn:E; [|reflexivity].
  apply Ascii.eqb_eq in E. subst c. rewrite IH. reflexivity.
Qed.

Lemma strip_zero_chars_alphabet (s : string) :
  all_base62 s = true -> all_base62 (strip_zero_chars s) = true.
Proof.
  induction s as [|c s IH]; intros H; [reflexivity|].
  cbn [strip_zero_chars]. destruct (Ascii.eqb c "0"); [|exact H].
  cbn [all_base62] in H. apply andb_true_iff in H. apply IH, H.
Qed.

Lemma strip_zero_chars_head (s : string) (c : ascii) (t : string) :
  strip_zero_chars s = String c t -> c <> "0"%char.
Proof.
  induction s as [|c' s IH]; cbn [strip_zero_chars]; [discriminate|].
  destruct (Ascii.eqb c' "0") eqn:E; [exact IH|].
  intros H. injection H as -> _. apply Ascii.eqb_neq, E.
Qed.

(** The encoding loop writes out the digits of a string that has no
    leading ['0']. *)
Lemma encode_base62_loop_digits_of (n : nat) :
  forall s c t acc v,
  String.length s = n ->
  s = String c t -> c <> "0"%char ->
  all_base62 s = true ->
  decode_base62_loop s 0 = Ok v ->
  0 < v
  /\ exists fuel, encode_base62_loop fuel v acc = Some (s ++ acc)%string.
Proof.
  induction n as [|n IH]; intros s c t acc v Hlen Hs Hc Ha Hv.
  { subst s. discriminate. }
  destruct (string_snoc s) as [E|[s' [d E]]]; [subst s; discriminate|].
  rewrite E in Hs. rewrite E in Ha. rewrite E in Hv. rewrite E in Hlen.
  rewrite E. clear E s.
  rewrite all_base62_app in Ha. apply andb_true_iff in Ha.
  destruct Ha as [Ha' Hd]. cbn [all_base62] in Hd.
  rewrite andb_true_r in Hd.
  destruct (base62_index d Hd) as [Hi Hch].
  rewrite decode_base62_loop_app in Hv.
  destruct (decode_base62_loop_ok s' 0 ltac:(lia) Ha') as [v' [Hv' Hpos]].
  rewrite Hv' in Hv. cbn [bind] in Hv.
  rewrite (decode_base62_loop_single d v' Hd) in Hv.
  assert (v' * 62 + Py.index_of _BASE62_ALPHABET d = v) as Hv2
    by congruence.
  clear Hv. rename Hv2 into Hv.
  rewrite string_length_app in Hlen. cbn [String.length] in Hlen.
  rewrite string_app_assoc.
  change (String d EmptyString ++ acc)%string with (String d acc).
  destruct s' as [|c' t'].
  - (* a single digit *)
    cbn [String.append] in Hs. injection Hs as Hdc _. subst d.
    assert (v' = 0) as Hv0 by (cbn in Hv'; congruence). subst v'.
    assert (Py.index_of _BASE62_ALPHABET c <> 0) as Hnz.
    { intros H0. rewrite H0 in Hch. apply Hc. rewrite <- Hch. reflexivity. }
    split; [lia|]. exists 2%nat.
    change (encode_base62_loop 2 v acc)
      with (if 0 <? v
            then encode_base62_loop 1 (v / 62)
                   (String (Py.char_at _BASE62_ALPHABET (v mod 62)) acc)
            else Some acc).
    destruct (0 <? v) eqn:E0; [|lia].
    rewrite Z.div_small by lia. rewrite Z.mod_small by lia.
    replace v with (Py.index_of _BASE62_ALPHABET c) by lia.
    rewrite Hch. reflexivity.
  - cbn [String.append] in Hs. injection Hs as Hcc _. subst c'.
    destruct (IH (String c t') c t' (String d acc) v'
                 ltac:(cbn [String.length] in *; lia) eq_refl Hc Ha' Hv')
      as [Hv'pos [fuel Hf]].
    split; [lia|]. exists (S fuel).
    change (encode_base62_loop (S fuel) v acc)
      with (if 0 <? v
            then encode_base62_loop fuel (v / 62)
                   (String (Py.char_at _BASE62_ALPHABET (v mod 62)) acc)
            else Some acc).
    destruct (0 <? v) eqn:E0; [|lia].
    replace (v / 62) with v'
      by (apply (Z.div_unique _ _ _ (Py.index_of _BASE62_ALPHABET d)); lia).
    replace (v mod 62) with (Py.index_of _BASE62_ALPHABET d)
      by (apply (Z.mod_unique _ _ v'); lia).
    rewrite Hch. exact Hf.
Qed.

(** [int.from_bytes(num.to_bytes(length, 'big'), 'big')] *)
Lemma int_from_bytes_le_bytes (n : nat) :
  forall num, 0 <= num ->
  Py.int_from_bytes (rev (Py.le_bytes n num)) = num mod 256 ^ Z.of_nat n.
Proof.
  induction n as [|n IH]; intros num Hn.
  - cbn. rewrite Z.mod_1_r. reflexivity.
  - cbn [Py.le_bytes rev]. rewrite int_from_bytes_app.
    rewrite IH by (apply Z.div_pos; lia).
    rewrite Nat2Z.inj_succ, Z.pow_succ_r by lia.
    rewrite Z.rem_mul_r by (try apply Z.pow_nonzero; lia). lia.
Qed.

(** [num.to_bytes((num.bit_length() + 7) // 8, 'big')] never overflows
    and holds the number. *)
Lemma int_to_bytes_bit_length (num : Z) :
  0 < num ->
  exists bytes,
    Py.int_to_bytes num ((Py.bit_length num + 7) / 8) = Ok bytes
    /\ bytes <> [] /\ Py.int_from_bytes bytes = num.
Proof.
  intros Hpos. unfold Py.int_to_bytes, Py.bit_length.
  destruct (num <? 0) eqn:E; [lia|].
  destruct (num =? 0) eqn:E0; [lia|].
  remember ((Z.log2 num + 1 + 7) / 8) as k eqn:Hk.
  assert (1 <= k /\ Z.log2 num + 1 <= 8 * k) as [Hk1 Hk2].
  { pose proof (Z.log2_nonneg num).
    pose proof (Z.div_mod (Z.log2 num + 1 + 7) 8 ltac:(lia)).
    pose proof (Z.mod_pos_bound (Z.log2 num + 1 + 7) 8 ltac:(lia)).
    rewrite <- Hk in *. lia. }
  assert (num < 256 ^ k) as Hlt.
  { change 256 with (2 ^ 8). rewrite <- Z.pow_mul_r by lia.
    pose proof (Z.log2_spec num Hpos) as [_ Hs].
    eapply Z.lt_le_trans; [exact Hs|].
    apply Z.pow_le_mono_r; lia. }
  destruct (256 ^ k <=? num) eqn:E1; [lia|].
  eexists. split; [reflexivity|]. split.
  - replace (Z.to_nat k) with (S (Z.to_nat (k - 1))) by lia.
    cbn [Py.le_bytes rev]. intros H. apply app_eq_nil in H.
    destruct H as [_ H]. discriminate.
  - rewrite int_from_bytes_le_bytes by lia.
    rewrite Z2Nat.id by lia. apply Z.mod_small. lia.
Qed.

Lemma decode_then_encode_base62 (s : string) :
  all_base62 s = true ->
  exists bytes,
    _decode_base62 s = Ok bytes
    /\ _encode_base62 bytes = base62_normal_string s.
Proof.
  intros Ha. destruct s as [|c0 s0] eqn:Es.
  { exists []. split; reflexivity. }
  rewrite <- Es in *.
  destruct (decode_base62_loop_ok s 0 ltac:(lia) Ha) as [v [Hv Hpos]].
  assert (_decode_base62 s
          = if v =? 0 then Ok [0]
            else Py.int_to_bytes v ((Py.bit_length v + 7) / 8)) as Hd.
  { unfold _decode_base62. rewrite Es. rewrite <- Es. rewrite Hv.
    reflexivity. }
  assert (base62_normal_string s
          = match strip_zero_chars s with
            | EmptyString => "0"
            | w => w
            end) as Hn.
  { unfold base62_normal_string. rewrite Es. reflexivity. }
  rewrite Hd, Hn. clear Hd Hn.
  pose proof (strip_zero_chars_value s) as Hval. rewrite Hv in Hval.
  pose proof (strip_zero_chars_alphabet s Ha) as Halpha.
  destruct (strip_zero_chars s) as [|c t] eqn:Et.
  - cbn [decode_base62_loop] in Hval. injection Hval as <-.
    exists [0]. split; reflexivity.
  - pose proof (strip_zero_chars_head s c t Et) as Hc.
    destruct (encode_base62_loop_digits_of _ (String c t) c t EmptyString v
                eq_refl eq_refl Hc Halpha Hval) as [Hvpos [fuel Hf]].
    destruct (v =? 0) eqn:E0; [lia|].
    destruct (int_to_bytes_bit_length v Hvpos) as [bytes [Hb [Hne Hi]]].
    exists bytes. split; [exact Hb|].
    unfold _encode_base62. destruct bytes as [|b bytes]; [contradiction|].
    rewrite Hi, E0.
    destruct (encode_base62_loop_fuel v EmptyString ltac:(lia)) as [r Hr].
    rewrite Hr. rewrite string_app_empty in Hf.
    apply (encode_base62_loop_unique _ _ _ _ _ _ Hr Hf).
Qed.

(** Decoding and encoding again writes the same number in its shortest
    form: for a string [s] over the alphabet, [_decode_base62] does not
    raise and [_encode_base62] of its result is [s] without its leading
    ['0'] characters (["0"] when nothing else is left, the empty string
    for the empty string). *)
Theorem base62_decode_encode (s : string) :
  all_base62 s = true ->
  exists bytes,
    _decode_base62 s = Ok bytes
    /\ _encode_base62 bytes = base62_normal_string s.
Proof. apply decode_then_encode_base62. Qed.

Lemma base62_decode_encode_witness :
  exists bytes,
    _decode_base62 "007fZ" = Ok bytes
    /\ _encode_base62 bytes = base62_normal_string "007fZ".
Proof. apply (base62_decode_encode "007fZ"). reflexivity. Defined.

Lemma decode_base62_outcome (s : string) :
  (all_base62 s = true ->
   exists bytes, _decode_base62 s = Ok bytes /\ Forall is_byte bytes)
  /\ (forall pre c post,
        s = (pre ++ String c post)%string ->
        all_base62 pre = true ->
        Py.contains _BASE62_ALPHABET c = false ->
        _decode_base62 s
        = Err (ValueError ("Invalid Base62 character: "
                             ++ String c EmptyString))).
Proof.
  split.
  - intros Ha. destruct (decode_then_encode_base62 s Ha) as [bytes [Hd _]].
    exists bytes. split; [exact Hd|].
    apply (decode_base62_shape _ _ Hd).
  - intros pre c post -> Ha Hc.
    destruct (decode_base62_loop_ok pre 0 ltac:(lia) Ha) as [v [Hv _]].
    assert (decode_base62_loop (pre ++ String c post) 0
            = Err (ValueError ("Invalid Base62 character: "
                                 ++ String c EmptyString))) as Hl.
    { rewrite decode_base62_loop_app, Hv. cbn [bind decode_base62_loop].
      rewrite Hc. reflexivity. }
    unfold _decode_base62.
    destruct (pre ++ String c post)%string eqn:E.
    { destruct pre; discriminate. }
    rewrite Hl. reflexivity.
Qed.

(** [_decode_base62] raises for the first character outside the alphabet,
    naming it, and for nothing else: on a string over the alphabet it
    returns bytes. *)
Theorem decode_base62_errors (s : string) :
  (all_base62 s = true ->
   exists bytes, _decode_base62 s = Ok bytes /\ Forall is_byte bytes)
  /\ (forall pre c post,
        s = (pre ++ String c post)%string ->
        all_base62 pre = true ->
        Py.contains _BASE62_ALPHABET c = false ->
        _decode_base62 s
        = Err (ValueError ("Invalid Base62 character: "
                             ++ String c EmptyString))).
Proof. apply decode_base62_outcome. Qed.

(** The encoder writes canonical strings: over the alphabet, empty only
    for empty data, and with no leading ['0'] unless the string is
    ["0"] itself. *)
Theorem encode_base62_canonical (data : list Z) :
  Forall is_byte data ->
  all_base62 (_encode_base62 data) = true
  /\ (_encode_base62 data = EmptyString <-> data = [])
  /\ base62_normal_string (_encode_base62 data) = _encode_base62 data.
Proof.
  intros Hb. split; [apply encode_base62_alphabet|].
  destruct data as [|b d]; [repeat split; reflexivity|].
  destruct (Z.eq_dec (Py.int_from_bytes (b :: d)) 0) as [E0|Hnz].
  { rewrite encode_base62_zero by (try discriminate; assumption).
    split; [split; discriminate|reflexivity]. }
  pose proof (int_from_bytes_range (b :: d) Hb) as Hr.
  destruct (encode_base62_positive (b :: d) ltac:(lia)) as [r [Hl Hr']].
  rewrite Hr'.
  assert (62 ^ Z.of_nat 0 <= Py.int_from_bytes (b :: d)) as H62
    by (change (62 ^ Z.of_nat 0) with 1; lia).
  pose proof (encode_base62_loop_digits _ 0%nat _ _ _ H62 Hl) as Hlen.
  assert (0 <= Py.int_from_bytes (b :: d)) as Hnn by lia.
  pose proof (decode_encode_loop _ _ _ _ Hnn Hl) as Hdec.
  cbn [decode_base62_loop] in Hdec.
  assert (all_base62 r = true) as Ha
    by (rewrite <- Hr'; apply encode_base62_alphabet).
  split.
  { split; [|discriminate]. intros ->. cbn in Hlen. lia. }
  unfold base62_normal_string.
  destruct r as [|c t] eqn:Er; [reflexivity|]. rewrite <- Er in *.
  pose proof (strip_zero_chars_value r) as Hval. rewrite Hdec in Hval.
  pose proof (strip_zero_chars_alphabet r Ha) as Halpha.
  destruct (strip_zero_chars r) as [|c' t'] eqn:Et.
  { cbn [decode_base62_loop] in Hval. injection Hval as Hval. lia. }
  pose proof (strip_zero_chars_head r c' t' Et) as Hc.
  destruct (encode_base62_loop_digits_of _ (String c' t') c' t' EmptyString _
              eq_refl eq_refl Hc Halpha Hval) as [_ [fuel Hf]].
  rewrite string_app_empty in Hf.
  apply (encode_base62_loop_unique _ _ _ _ _ _ Hf Hl).
Qed.

Lemma encode_base62_canonical_witness :
  all_base62 (_encode_base62 [0; 0; 1; 44]) = true
  /\ (_encode_base62 [0; 0; 1; 44] = EmptyString <-> [0; 0; 1; 44] = [])
  /\ base62_normal_string (_encode_base62 [0; 0; 1; 44])
     = _encode_base62 [0; 0; 1; 44].
Proof.
  apply (encode_base62_canonical [0; 0; 1; 44]).
  repeat (constructor; [unfold is_byte; lia|]). constructor.
Defined.

(** ** Further properties of share framing and parsing *)

Lemma decode_base62_loop_alphabet (s : string) :
  forall num v, decode_base62_loop s num = Ok v -> all_base62 s = true.
Proof.
  induction s as [|c s IH]; intros num v H; [reflexivity|].
  cbn [decode_base62_loop] in H. cbn [all_base62].
  destruct (Py.contains _BASE62_ALPHABET c); [|discriminate].
  cbn [negb andb] in *. apply (IH _ _ H).
Qed.

Lemma decode_base62_alphabet (s : string) (bytes : list Z) :
  _decode_base62 s = Ok bytes -> all_base62 s = true.
Proof.
  unfold _decode_base62. destruct s as [|c s]; [reflexivity|].
  destruct (decode_base62_loop (String c s) 0) as [v|e] eqn:E;
    [|discriminate].
  intros _. apply (decode_base62_loop_alphabet _ _ _ E).
Qed.

(** A string that is not over the alphabet has a first character
    outside it. *)
Lemma all_base62_false (s : string) :
  all_base62 s = false ->
  exists pre c post,
    s = (pre ++ String c post)%string
    /\ all_base62 pre = true
    /\ Py.contains _BASE62_ALPHABET c = false.
Proof.
  induction s as [|c s IH]; [discriminate|].
  cbn [all_base62]. destruct (Py.contains _BASE62_ALPHABET c) eqn:E.
  - cbn [andb]. intros H. destruct (IH H) as [pre [c' [post [-> [Hp Hc]]]]].
    exists (String c pre), c', post. cbn [String.append all_base62].
    rewrite E, Hp. auto.
  - intros _. exists EmptyString, c, s. auto.
Qed.

(** A leading ['0'] does not change the number a string stands for. *)
Lemma decode_base62_zero_prefix (s : string) :
  s <> EmptyString ->
  _decode_base62 (String "0" s) = _decode_base62 s.
Proof.
  intros Hne. destruct s as [|c s]; [contradiction|]. reflexivity.
Qed.

(** The parser reads a share as a number: ['0'] characters put in front
    of a share string change nothing in what [_parse_base62_share]
    returns, be it a share or an error, so a share has many spellings. *)
Theorem parse_ignores_leading_zeros (share_str : string) :
  _parse_base62_share (String "0" share_str)
  = _parse_base62_share share_str
  /\ _parse_base62_share share_str
     = _parse_base62_share (strip_zero_chars share_str).
Proof.
  assert (forall s, _parse_base62_share (String "0" s)
                    = _parse_base62_share s) as H.
  { intros s. destruct s as [|c s]; [reflexivity|].
    unfold _parse_base62_share, parse_base62_share_body.
    rewrite decode_base62_zero_prefix by discriminate. reflexivity. }
  split; [apply H|].
  induction share_str as [|c s IH]; [reflexivity|].
  cbn [strip_zero_chars]. destruct (Ascii.eqb c "0") eqn:E; [|reflexivity].
  apply Ascii.eqb_eq in E. subst c. rewrite H. exact IH.
Qed.

Lemma parse_legacy_format_eq (share_str : string) (decoded_bytes : list Z) :
  _decode_base62 share_str = Ok decoded_bytes ->
  (List.length decoded_bytes < 5)%nat ->
  _parse_base62_share share_str
  = if (2 <=? List.length decoded_bytes)%nat
    then Ok (nth 0 decoded_bytes 0,
             firstn (Z.to_nat (nth 1 decoded_bytes 0))
                    (skipn 2 decoded_bytes))
    else Err (ValueError "Failed to parse share: Share too short").
Proof.
  intros Hd Hlen.
  destruct (decode_base62_shape _ _ Hd) as [_ Hid].
  unfold _parse_base62_share, parse_base62_share_body.
  rewrite Hd. cbn [bind].
  destruct (List.length decoded_bytes <? 5)%nat eqn:E;
    [|apply Nat.ltb_ge in E; lia].
  destruct (2 <=? List.length decoded_bytes)%nat eqn:E2; [|reflexivity].
  apply Nat.leb_le in E2. specialize (Hid E2).
  destruct (1 <=? nth 0 decoded_bytes 0) eqn:E3; [|lia].
  destruct (nth 0 decoded_bytes 0 <=? 255) eqn:E4; [|lia].
  cbn [andb]. unfold slice.
  replace (2 + Z.to_nat (nth 1 decoded_bytes 0%Z) - 2)%nat
    with (Z.to_nat (nth 1 decoded_bytes 0%Z)) by lia.
  reflexivity.
Qed.

(** A share that decodes to fewer than five bytes is read in the old
    two-byte-header layout: with at least two bytes it is always
    accepted, the first byte being the share id and the second the number
    of values taken from the bytes that follow (fewer when fewer follow);
    with fewer than two bytes it is too short. *)
Theorem parse_legacy_format (share_str : string) (decoded_bytes : list Z) :
  _decode_base62 share_str = Ok decoded_bytes ->
  (List.length decoded_bytes < 5)%nat ->
  _parse_base62_share share_str
  = if (2 <=? List.length decoded_bytes)%nat
    then Ok (nth 0 decoded_bytes 0,
             firstn (Z.to_nat (nth 1 decoded_bytes 0))
                    (skipn 2 decoded_bytes))
    else Err (ValueError "Failed to parse share: Share too short").
Proof. apply parse_legacy_format_eq. Qed.

Lemma parse_legacy_format_witness :
  _parse_base62_share "1NKL"
  = if (2 <=? List.length [5; 1; 65])%nat
    then Ok (nth 0 [5; 1; 65] 0,
             firstn (Z.to_nat (nth 1 [5; 1; 65] 0)) (skipn 2 [5; 1; 65]))
    else Err (ValueError "Failed to parse share: Share too short").
Proof.
  apply (parse_legacy_format "1NKL" [5; 1; 65]).
  - vm_compute. reflexivity.
  - cbn. lia.
Defined.

(** Everything [_parse_base62_share] can do: it returns a share id in
    1..255 with byte values, for a non-empty string over the alphabet;
    or it raises a [ValueError] that reports a character outside the
    alphabet, a share that is too short, or a length mismatch.  The
    invalid-id and the overflow errors of its body can never occur. *)
Theorem parse_base62_share_outcomes (share_str : string) :
  (exists share_id values,
     _parse_base62_share share_str = Ok (share_id, values)
     /\ 1 <= share_id <= 255 /\ Forall is_byte values
     /\ all_base62 share_str = true /\ share_str <> EmptyString)
  \/ (exists pre c post,
        share_str = (pre ++ String c post)%string
        /\ all_base62 pre = true
        /\ Py.contains _BASE62_ALPHABET c = false
        /\ _parse_base62_share share_str
           = Err (ValueError ("Failed to parse share: Invalid Base62 character: "
                                ++ String c EmptyString)))
  \/ _parse_base62_share share_str
     = Err (ValueError "Failed to parse share: Share too short")
  \/ _parse_base62_share share_str
     = Err (ValueError "Failed to parse share: Share data length mismatch").
Proof.
  destruct (all_base62 share_str) eqn:Ha.
  - destruct (proj1 (decode_base62_outcome share_str) Ha) as [bytes [Hd Hb]].
    destruct (Nat.lt_ge_cases (List.length bytes) 5) as [Hlt|Hge].
    + rewrite (parse_legacy_format_eq _ _ Hd Hlt).
      destruct (2 <=? List.length bytes)%nat eqn:E2; [left|auto].
      apply Nat.leb_le in E2.
      destruct (decode_base62_shape _ _ Hd) as [_ Hid]. specialize (Hid E2).
      eexists. eexists. split; [reflexivity|].
      split; [lia|]. split; [apply firstn_Forall, skipn_Forall, Hb|].
      split; [reflexivity|].
      intros ->. cbn in Hd. injection Hd as <-. cbn in E2. lia.
    + rewrite (parse_current_format_eq _ _ Hd Hge).
      destruct (Z.of_nat (List.length (skipn 5 bytes))
                =? Py.int_from_bytes (slice bytes 3 5)); [left|auto].
      destruct (decode_base62_shape _ _ Hd) as [_ Hid].
      specialize (Hid ltac:(lia)).
      eexists. eexists. split; [reflexivity|].
      split; [lia|]. split; [apply firstn_Forall, skipn_Forall, Hb|].
      split; [reflexivity|].
      intros ->. cbn in Hd. injection Hd as <-. cbn in Hge. lia.
  - right. left.
    destruct (all_base62_false _ Ha) as [pre [c [post [E [Hp Hc]]]]].
    exists pre, c, post. split; [exact E|]. split; [exact Hp|].
    split; [exact Hc|].
    unfold _parse_base62_share, parse_base62_share_body.
    rewrite (proj2 (decode_base62_outcome share_str) pre c post E Hp Hc).
    reflexivity.
Qed.

(** *** Limits of the frame *)

(** The frame has one byte for the share id and two bytes for each of
    the lengths: [_format_share_with_original_length] raises a
    [ValueError] for a share id outside 0..255 and an [OverflowError] for
    an original length that is negative or above 65535 and for share data
    of more than 65535 bytes, in that order. *)
Theorem format_share_errors
    (share_id : Z) (share_data : list Z) (L : Z) (g : rng) :
  (~ is_byte share_id ->
   _format_share_with_original_length share_id share_data L g
   = Err (ValueError "bytes must be in range(0, 256)"))
  /\ (is_byte share_id -> L < 0 ->
      _format_share_with_original_length share_id share_data L g
      = Err (OverflowError "can't convert negative int to unsigned"))
  /\ (is_byte share_id -> 65536 <= L ->
      _format_share_with_original_length share_id share_data L g
      = Err (OverflowError "int too big to convert"))
  /\ (is_byte share_id -> 0 <= L < 65536 ->
      65536 <= Z.of_nat (List.length share_data) ->
      _format_share_with_original_length share_id share_data L g
      = Err (OverflowError "int too big to convert")).
Proof.
  unfold _format_share_with_original_length.
  split; [|split; [|split]].
  - intros Hn. unfold Py.bytes_of_list. cbn [forallb].
    destruct (is_byteb share_id) eqn:E;
      [apply is_byteb_spec in E; contradiction|].
    reflexivity.
  - intros Hid HL.
    rewrite bytes_of_list_ok by (constructor; [assumption|constructor]).
    cbn [bind]. unfold Py.int_to_bytes at 1.
    destruct (L <? 0) eqn:E; [reflexivity|lia].
  - intros Hid HL.
    rewrite bytes_of_list_ok by (constructor; [assumption|constructor]).
    cbn [bind]. unfold Py.int_to_bytes at 1.
    destruct (L <? 0) eqn:E; [lia|].
    change (256 ^ 2) with 65536.
    destruct (65536 <=? L) eqn:E'; [reflexivity|lia].
  - intros Hid HL HP.
    rewrite bytes_of_list_ok by (constructor; [assumption|constructor]).
    rewrite int_to_bytes_be16 by lia. cbn [bind].
    unfold Py.int_to_bytes at 1.
    destruct (Z.of_nat (List.length share_data) <? 0) eqn:E; [lia|].
    change (256 ^ 2) with 65536.
    destruct (65536 <=? Z.of_nat (List.length share_data)) eqn:E';
      [reflexivity|lia].
Qed.

(** *** Short frames *)

(** A number below [62 ^ k] is written with at most [k] digits. *)
Lemma encode_base62_loop_short (fuel : nat) :
  forall (k : nat) num s r,
  0 <= num < 62 ^ Z.of_nat k ->
  encode_base62_loop fuel num s = Some r ->
  (String.length r <= String.length s + k)%nat.
Proof.
  induction fuel as [|fuel IH]; intros k num s r Hk H; [discriminate|].
  cbn [encode_base62_loop] in H.
  destruct (0 <? num) eqn:E.
  - destruct k as [|k]; [change (62 ^ Z.of_nat 0) with 1 in Hk; lia|].
    apply (IH k) in H.
    + cbn [String.length] in H. lia.
    + rewrite Nat2Z.inj_succ, Z.pow_succ_r in Hk by lia.
      split; [apply Z.div_pos; lia|].
      apply Z.div_lt_upper_bound; lia.
  - injection H as <-. lia.
Qed.

Lemma pow_256_62 (n : nat) : 256 ^ Z.of_nat n <= 62 ^ Z.of_nat (2 * n).
Proof.
  replace (Z.of_nat (2 * n)) with (2 * Z.of_nat n) by lia.
  rewrite Z.pow_mul_r by lia. change (62 ^ 2) with 3844.
  apply Z.pow_le_mono_l. lia.
Qed.

(** Bytes are written with at most two characters each. *)
Lemma encode_base62_length_le (data : list Z) :
  Forall is_byte data ->
  (String.length (_encode_base62 data) <= 2 * List.length data)%nat.
Proof.
  intros Hb. unfold _encode_base62. destruct data as [|b d]; [cbn; lia|].
  destruct (Py.int_from_bytes (b :: d) =? 0);
    [cbn [String.length List.length]; lia|].
  destruct (encode_base62_loop _ _ _) as [r|] eqn:E; [|cbn; lia].
  pose proof (int_from_bytes_range _ Hb) as Hr.
  pose proof (pow_256_62 (List.length (b :: d))) as Hp.
  apply (encode_base62_loop_short _ (2 * List.length (b :: d))) in E;
    [cbn [String.length] in E; lia|lia].
Qed.

(** What a successful draw returns. *)
Lemma secure_random_int_inv (min_val max_val : Z) (g g' : rng) (v : Z) :
  min_val <= max_val ->
  secure_random_int min_val max_val g = Ok (v, g') ->
  csprng_ok g = true
  /\ v = raw g (pos g) mod (max_val - min_val + 1) + min_val
  /\ min_val <= v <= max_val
  /\ g' = mk_rng (csprng_ok g) (raw g) (S (pos g)).
Proof.
  intros Hle. unfold secure_random_int, randbelow.
  destruct (csprng_ok g) eqn:E; cbn [negb]; [|discriminate].
  intros H.
  assert (raw g (pos g) mod (max_val - min_val + 1) + min_val = v
          /\ mk_rng true (raw g) (S (pos g)) = g') as [Hv Hg]
    by (split; congruence).
  split; [reflexivity|]. split; [symmetry; exact Hv|].
  split; [|symmetry; exact Hg].
  pose proof (Z.mod_pos_bound (raw g (pos g)) (max_val - min_val + 1)
                ltac:(lia)).
  lia.
Qed.

Lemma random_bytes_byte (n : nat) :
  forall g bs g', random_bytes n g = Ok (bs, g') ->
  List.length bs = n /\ Forall is_byte bs.
Proof.
  induction n as [|n IH]; intros g bs g' H; cbn [random_bytes] in H.
  - split; [|replace bs with (@nil Z) by congruence; constructor].
    replace bs with (@nil Z) by congruence. reflexivity.
  - destruct (secure_random_int 1 255 g) as [[v g1]|e] eqn:Ev;
      [|discriminate].
    cbn [bind] in H.
    destruct (random_bytes n g1) as [[bs' g2]|e] eqn:E; [|discriminate].
    cbn [bind] in H.
    destruct (secure_random_int_inv 1 255 g g1 v ltac:(lia) Ev)
      as [_ [_ [Hr _]]].
    destruct (IH _ _ _ E) as [Hl Hb].
    replace bs with (v :: bs') by congruence.
    split; [cbn [List.length]; lia|].
    constructor; [unfold is_byte; lia|assumption].
Qed.

(** The transport padding does not bring a short frame up to 250
    characters: for share data of at most 88 bytes the share string that
    [_format_share_with_original_length] returns is shorter than 250
    characters, whatever the random source hands out. *)
Theorem format_share_short
    (share_id : Z) (share_data : list Z) (L : Z) (g g' : rng)
    (share_str : string) :
  Forall is_byte share_data ->
  (List.length share_data <= 88)%nat ->
  _format_share_with_original_length share_id share_data L g
  = Ok (share_str, g') ->
  (String.length share_str < 250)%nat /\ all_base62 share_str = true.
Proof.
  intros Hb Hlen. unfold _format_share_with_original_length.
  unfold Py.bytes_of_list. cbn [forallb]. rewrite andb_true_r.
  destruct (is_byteb share_id) eqn:Eid; [|discriminate]. cbn [bind].
  apply is_byteb_spec in Eid.
  destruct (Py.int_to_bytes L 2) as [lb|e] eqn:EL; [|discriminate].
  cbn [bind].
  destruct (Py.int_to_bytes (Z.of_nat (List.length share_data)) 2)
    as [pb|e] eqn:EP; [|discriminate].
  cbn [bind].
  assert (forall n bs, Py.int_to_bytes n 2 = Ok bs ->
                       List.length bs = 2%nat /\ Forall is_byte bs) as H2.
  { intros n bs H. unfold Py.int_to_bytes in H.
    destruct (n <? 0); [discriminate|].
    destruct (256 ^ 2 <=? n); [discriminate|].
    assert (bs = rev (Py.le_bytes (Z.to_nat 2) n)) as -> by congruence.
    split; [reflexivity|]. apply Forall_rev, le_bytes_byte. }
  destruct (H2 _ _ EL) as [HlL HbL]. destruct (H2 _ _ EP) as [HlP HbP].
  set (base_data := ([share_id] ++ lb ++ pb) ++ share_data).
  assert (Forall is_byte base_data) as Hbase.
  { unfold base_data. repeat (apply Forall_app; split); try assumption.
    constructor; [assumption|constructor]. }
  assert (List.length base_data <= 93)%nat as Hbl.
  { unfold base_data. rewrite !length_app. cbn [List.length]. lia. }
  pose proof (encode_base62_length_le base_data Hbase) as He.
  pose proof (encode_base62_alphabet base_data) as Ha.
  set (encoded := _encode_base62 base_data) in *.
  destruct (String.length encoded <? 250)%nat eqn:E250;
    [|apply Nat.ltb_ge in E250; lia].
  set (padding_needed := (250 - String.length encoded)%nat).
  destruct (random_bytes (padding_needed / 3 + 10) g) as [[pad g1]|e] eqn:Er;
    [|discriminate].
  cbn [bind]. destruct (random_bytes_byte _ _ _ _ Er) as [Hpl Hpb].
  pose proof (encode_base62_length_le pad Hpb) as Hpe.
  pose proof (encode_base62_alphabet pad) as Hpa.
  assert (String.length (encoded ++ _encode_base62 pad) < 250)%nat as Htot.
  { rewrite string_length_app, Hpl in *.
    assert (64 <= padding_needed)%nat as Hp by (unfold padding_needed; lia).
    pose proof (Nat.div_mod_eq padding_needed 3) as Hdm.
    pose proof (Nat.mod_upper_bound padding_needed 3 ltac:(lia)) as Hm.
    unfold padding_needed in *. lia. }
  destruct (250 <? String.length (encoded ++ _encode_base62 pad))%nat eqn:E;
    [apply Nat.ltb_lt in E; lia|].
  intros H. injection H as <- <-. split; [exact Htot|].
  rewrite all_base62_app, Ha, Hpa. reflexivity.
Qed.

Lemma format_share_short_witness :
  Nat.lt (String.length (_encode_base62 (frame_bytes 1 [65] 1)
                            ++ _encode_base62 (repeat 1 91))) 250
  /\ all_base62 (_encode_base62 (frame_bytes 1 [65] 1)
                   ++ _encode_base62 (repeat 1 91)) = true.
Proof.
  apply (format_share_short 1 [65] 1 example_rng
           (mk_rng true (fun _ => 0) 91)).
  - constructor; [unfold is_byte; lia|constructor].
  - cbn. lia.
  - vm_compute. reflexivity.
Defined.

(** ** Further properties of [generate_shares] *)

(** *** Rejected secrets *)

Lemma encode_surrogate (secret : list Z) (c : Z) :
  In c secret -> Utf8.is_surrogate c = true ->
  Utf8.encode secret = Err UnicodeEncodeError.
Proof.
  intros Hin Hs. induction secret as [|c0 rest IH]; [contradiction|].
  cbn [Utf8.encode].
  assert (forall r, Utf8.encode_code_point c0 = Err r
                    -> r = UnicodeEncodeError) as Honly.
  { intros r. unfold Utf8.encode_code_point.
    destruct (c0 <? 128); [discriminate|].
    destruct (c0 <? 2048); [discriminate|].
    destruct (c0 <? 65536); [|discriminate].
    destruct (Utf8.is_surrogate c0); [|discriminate]. congruence. }
  destruct Hin as [->|Hin].
  - unfold Utf8.encode_code_point.
    unfold Utf8.is_surrogate in Hs. apply andb_true_iff in Hs.
    destruct Hs as [H1 H2]. apply Z.leb_le in H1, H2.
    destruct (c <? 128) eqn:E1; [lia|].
    destruct (c <? 2048) eqn:E2; [lia|].
    destruct (c <? 65536) eqn:E3; [|lia].
    unfold Utf8.is_surrogate.
    destruct (55296 <=? c) eqn:E4; [|lia].
    destruct (c <=? 57343) eqn:E5; [|lia]. reflexivity.
  - destruct (Utf8.encode_code_point c0) as [bs|r] eqn:E0.
    + cbn [bind]. rewrite (IH Hin). reflexivity.
    + rewrite (Honly r eq_refl). reflexivity.
Qed.

Lemma generate_shares_rejections
    (secret : list Z) (total_shares threshold : Py.value) (g : rng) :
  fst (validate_share_parameters total_shares threshold) = true ->
  (secret = [] ->
   generate_shares secret total_shares threshold g
   = Err (ValueError "Secret must be at least 1 characters"))
  /\ (10000 < Z.of_nat (List.length secret) ->
      generate_shares secret total_shares threshold g
      = Err (ValueError "Secret cannot exceed 10000 characters"))
  /\ (secret <> [] -> Z.of_nat (List.length secret) <= 10000 ->
      In 0 secret ->
      generate_shares secret total_shares threshold g
      = Err (ValueError "Secret cannot contain null bytes"))
  /\ (secret <> [] -> Z.of_nat (List.length secret) <= 10000 ->
      ~ In 0 secret ->
      (exists c, In c secret /\ Utf8.is_surrogate c = true) ->
      generate_shares secret total_shares threshold g
      = Err UnicodeEncodeError).
Proof.
  intros Hparams. unfold generate_shares.
  destruct (validate_share_parameters total_shares threshold) as [v e].
  cbn [fst] in Hparams. subst v. cbn [negb].
  unfold validate_secret_length.
  split; [|split; [|split]].
  - intros ->. reflexivity.
  - intros Hlong.
    destruct (Z.of_nat (List.length secret) <? 1) eqn:E1; [lia|].
    destruct (10000 <? Z.of_nat (List.length secret)) eqn:E2; [|lia].
    reflexivity.
  - intros Hne Hlen Hnul.
    assert (1 <= Z.of_nat (List.length secret))
      by (destruct secret; [contradiction|cbn [List.length]; lia]).
    destruct (Z.of_nat (List.length secret) <? 1) eqn:E1; [lia|].
    destruct (10000 <? Z.of_nat (List.length secret)) eqn:E2; [lia|].
    destruct (existsb (Z.eqb 0) secret) eqn:E3; [reflexivity|].
    assert (existsb (Z.eqb 0) secret = true) as H'
      by (apply existsb_exists; exists 0; split; [assumption|reflexivity]).
    congruence.
  - intros Hne Hlen Hnul [c [Hin Hs]].
    assert (1 <= Z.of_nat (List.length secret))
      by (destruct secret; [contradiction|cbn [List.length]; lia]).
    destruct (Z.of_nat (List.length secret) <? 1) eqn:E1; [lia|].
    destruct (10000 <? Z.of_nat (List.length secret)) eqn:E2; [lia|].
    destruct (existsb (Z.eqb 0) secret) eqn:E3.
    { apply existsb_exists in E3. destruct E3 as [z [Hz Hz0]].
      apply Z.eqb_eq in Hz0. subst z. contradiction. }
    cbn [negb]. rewrite (encode_surrogate secret c Hin Hs). reflexivity.
Qed.

(** With share parameters that pass, [generate_shares] raises for an
    empty secret, for a secret of more than 10 000 characters and for a
    secret that contains NUL, each with the message of
    [validate_secret_length]; a secret that passes these tests but holds
    a surrogate code point fails in [secret.encode('utf-8')].  None of
    this depends on the random source, which is not consulted before. *)
Theorem generate_shares_secret_errors
    (secret : list Z) (total_shares threshold : Py.value) (g : rng) :
  fst (validate_share_parameters total_shares threshold) = true ->
  (secret = [] ->
   generate_shares secret total_shares threshold g
   = Err (ValueError "Secret must be at least 1 characters"))
  /\ (10000 < Z.of_nat (List.length secret) ->
      generate_shares secret total_shares threshold g
      = Err (ValueError "Secret cannot exceed 10000 characters"))
  /\ (secret <> [] -> Z.of_nat (List.length secret) <= 10000 ->
      In 0 secret ->
      generate_shares secret total_shares threshold g
      = Err (ValueError "Secret cannot contain null bytes"))
  /\ (secret <> [] -> Z.of_nat (List.length secret) <= 10000 ->
      ~ In 0 secret ->
      (exists c, In c secret /\ Utf8.is_surrogate c = true) ->
      generate_shares secret total_shares threshold g
      = Err UnicodeEncodeError).
Proof. apply generate_shares_rejections. Qed.

Lemma generate_shares_secret_errors_witness :
  ([65; 0] = [] ->
   generate_shares [65; 0] (Py.Int 3) (Py.Int 2) example_rng
   = Err (ValueError "Secret must be at least 1 characters"))
  /\ (10000 < Z.of_nat (List.length [65; 0]) ->
      generate_shares [65; 0] (Py.Int 3) (Py.Int 2) example_rng
      = Err (ValueError "Secret cannot exceed 10000 characters"))
  /\ ([65; 0] <> [] -> Z.of_nat (List.length [65; 0]) <= 10000 ->
      In 0 [65; 0] ->
      generate_shares [65; 0] (Py.Int 3) (Py.Int 2) example_rng
      = Err (ValueError "Secret cannot contain null bytes"))
  /\ ([65; 0] <> [] -> Z.of_nat (List.length [65; 0]) <= 10000 ->
      ~ In 0 [65; 0] ->
      (exists c, In c [65; 0] /\ Utf8.is_surrogate c = true) ->
      generate_shares [65; 0] (Py.Int 3) (Py.Int 2) example_rng
      = Err UnicodeEncodeError).
Proof.
  apply (generate_shares_secret_errors [65; 0] (Py.Int 3) (Py.Int 2)
           example_rng).
  reflexivity.
Defined.

(** *** The random source *)

Lemma advance_zero (g : rng) : advance g 0 = g.
Proof. destruct g. unfold advance. cbn. rewrite Nat.add_0_r. reflexivity. Qed.

Lemma advance_add (g : rng) (a b : nat) :
  advance (advance g a) b = advance g (a + b).
Proof. unfold advance. cbn. rewrite Nat.add_assoc. reflexivity. Qed.

Lemma secure_random_int_spec (g : rng) :
  csprng_ok g = true ->
  secure_random_int 1 255 g = Ok (raw g (pos g) mod 255 + 1, advance g 1)
  /\ drawn_byte (raw g (pos g) mod 255 + 1).
Proof.
  intros Hok. unfold secure_random_int, randbelow, advance. rewrite Hok.
  cbn [negb]. rewrite Nat.add_1_r. split; [reflexivity|].
  pose proof (Z.mod_pos_bound (raw g (pos g)) 255 ltac:(lia)).
  unfold drawn_byte. lia.
Qed.

Lemma secure_random_int_fails (min_val max_val : Z) (g : rng) :
  csprng_ok g = false -> secure_random_int min_val max_val g = Err no_csprng.
Proof.
  intros H. unfold secure_random_int. rewrite H. reflexivity.
Qed.

Lemma random_bytes_spec (n : nat) :
  forall g, csprng_ok g = true ->
  exists bs,
    random_bytes n g = Ok (bs, advance g n)
    /\ List.length bs = n /\ Forall drawn_byte bs.
Proof.
  induction n as [|n IH]; intros g Hok.
  - exists []. rewrite advance_zero. repeat split. constructor.
  - destruct (secure_random_int_spec g Hok) as [Hv Hr].
    destruct (IH (advance g 1) Hok) as [bs [Hbs [Hl Hb]]].
    exists (raw g (pos g) mod 255 + 1 :: bs).
    cbn [random_bytes]. rewrite Hv. cbn [bind]. rewrite Hbs. cbn [bind].
    rewrite advance_add. split; [reflexivity|].
    split; [cbn [List.length]; lia|]. constructor; assumption.
Qed.

Lemma draw_coefficients_spec (n : nat) :
  forall cs g, csprng_ok g = true ->
  exists drawn,
    draw_coefficients n cs g = Ok (cs ++ drawn, advance g n)
    /\ List.length drawn = n /\ Forall drawn_byte drawn.
Proof.
  induction n as [|n IH]; intros cs g Hok.
  - exists []. rewrite app_nil_r, advance_zero. repeat split. constructor.
  - destruct (secure_random_int_spec g Hok) as [Hv Hr].
    destruct (IH (cs ++ [raw g (pos g) mod 255 + 1]) (advance g 1) Hok)
      as [dr [Hd [Hl Hb]]].
    exists (raw g (pos g) mod 255 + 1 :: dr).
    cbn [draw_coefficients]. rewrite Hv. cbn [bind].
    rewrite Hd, <- app_assoc, advance_add. split; [reflexivity|].
    split; [cbn [List.length]; lia|]. constructor; assumption.
Qed.

Lemma drawn_byte_is_byte (l : list Z) : Forall drawn_byte l -> Forall is_byte l.
Proof.
  apply Forall_impl. unfold drawn_byte, is_byte. intros a. lia.
Qed.

(** The share loop of one byte position extends every row by the value
    of the new coefficient vector. *)
Lemma rows_after_step (N : Z) (cl : list (list Z)) (cs : list Z) :
  fold_left (add_share_value (List.length cl) cs) (range 1 (N + 1))
            (rows_after N cl)
  = rows_after N (cl ++ [cs]).
Proof.
  rewrite rows_after_snoc. destruct cl as [|c0 cl].
  - cbn [List.length rows_after]. rewrite add_share_first. reflexivity.
  - cbn [List.length rows_after].
    rewrite range_ids, !share_rows_ids.
    pose proof (add_share_next (List.length cl) cs
                  (fun j => j :: share_values (c0 :: cl) j)
                  (Z.to_nat N) 0 [] eq_refl) as H.
    cbn [app] in H. rewrite H.
    apply map_ext. intros t. cbn [app]. f_equal.
    unfold share_values.
    change (c0 :: cl ++ [cs]) with ((c0 :: cl) ++ [cs]).
    rewrite map_app. reflexivity.
Qed.

Lemma process_byte_spec (N K : Z) (padded : list Z) (cl : list (list Z))
    (g : rng) :
  1 <= K -> csprng_ok g = true ->
  is_byte (nth (List.length cl) padded 0) ->
  exists cs,
    process_byte N K padded (rows_after N cl, g) (List.length cl)
    = Ok (rows_after N (cl ++ [cs]), advance g (Z.to_nat (K - 1)))
    /\ drawn_coefficients_of K (nth (List.length cl) padded 0) cs.
Proof.
  intros HK Hok Hb. unfold process_byte.
  destruct (draw_coefficients_spec (Z.to_nat (K - 1))
              [nth (List.length cl) padded 0] g Hok)
    as [drawn [Hd [Hl Hdb]]].
  rewrite Hd. cbn [bind].
  exists ([nth (List.length cl) padded 0] ++ drawn).
  rewrite rows_after_step. split; [reflexivity|].
  split; [|exact Hdb].
  unfold coefficients_of. cbn [app hd List.length].
  split; [reflexivity|]. split; [lia|].
  constructor; [assumption|apply drawn_byte_is_byte, Hdb].
Qed.

Lemma process_bytes_spec (N K : Z) (padded : list Z) :
  1 <= K -> Forall is_byte padded ->
  forall (todo done : list Z) (cl : list (list Z)) (g : rng),
  padded = done ++ todo ->
  Forall2 (drawn_coefficients_of K) done cl ->
  csprng_ok g = true ->
  exists cl',
    foldM (process_byte N K padded)
          (seq (List.length done) (List.length todo)) (rows_after N cl, g)
    = Ok (rows_after N cl',
          advance g (List.length todo * Z.to_nat (K - 1)))
    /\ Forall2 (drawn_coefficients_of K) padded cl'.
Proof.
  intros HK Hb.
  induction todo as [|b todo IH]; intros done cl g Hp Hcl Hok.
  - exists cl. rewrite app_nil_r in Hp. subst done.
    cbn [List.length Nat.mul seq foldM]. rewrite advance_zero.
    split; [reflexivity|assumption].
  - pose proof (Forall2_length Hcl) as Hlen.
    assert (nth (List.length cl) padded 0 = b) as Hnth
      by (rewrite Hp, <- Hlen; apply nth_middle).
    destruct (process_byte_spec N K padded cl g HK Hok)
      as [cs [Hstep Hcs]].
    { rewrite Hnth. rewrite Forall_forall in Hb. apply Hb.
      rewrite Hp. apply in_or_app. right. left. reflexivity. }
    rewrite Hnth in Hcs.
    destruct (IH (done ++ [b]) (cl ++ [cs]) (advance g (Z.to_nat (K - 1))))
      as [cl' [Hf Hall]].
    + rewrite <- app_assoc. exact Hp.
    + apply Forall2_app; [assumption|]. constructor; [assumption|constructor].
    + exact Hok.
    + exists cl'. split; [|assumption].
      cbn [List.length seq foldM]. rewrite Hlen, Hstep. cbn [bind].
      rewrite length_app in Hf. cbn [List.length] in Hf.
      rewrite Nat.add_1_r, Hlen in Hf. rewrite Hf.
      rewrite advance_add. cbn [Nat.mul].
      rewrite (Nat.add_comm (Z.to_nat (K - 1))). reflexivity.
Qed.

Lemma drawn_coefficients_weaken (K : Z) (bytes : list Z)
    (cl : list (list Z)) :
  Forall2 (drawn_coefficients_of K) bytes cl ->
  Forall2 (coefficients_of K) bytes cl.
Proof. apply Forall2_impl. intros b cs [H _]. exact H. Qed.

(** The length of the padded secret: at least 200 bytes. *)
Lemma padded_length (n : nat) :
  (if (n <? 200)%nat then n + (200 - n) else n)%nat = Nat.max n 200.
Proof. destruct (n <? 200)%nat eqn:E; [apply Nat.ltb_lt in E|apply Nat.ltb_ge in E]; lia. Qed.

(** What [generate_shares] returns for arguments that pass validation,
    with the random part of every coefficient vector in 1..255 and the
    state in which the random source is left. *)
Lemma generate_shares_spec (secret : list Z)
    (total_shares threshold : Py.value) (g : rng) :
  fst (validate_share_parameters total_shares threshold) = true ->
  fst (validate_secret_length secret 1 10000) = true ->
  Forall is_scalar_value secret ->
  csprng_ok g = true ->
  exists (secret_bytes : list Z) (cl : list (list Z)),
    Utf8.encode secret = Ok secret_bytes
    /\ Utf8.decode secret_bytes = Ok secret
    /\ Forall is_byte secret_bytes
    /\ 1 <= Z.of_nat (List.length secret_bytes) <= 40000
    /\ List.length cl = Nat.max (List.length secret_bytes) 200
    /\ generate_shares secret total_shares threshold g
       = Ok (share_strings (Py.int_of total_shares)
                           (Z.of_nat (List.length secret_bytes)) cl,
             advance g (200 - List.length secret_bytes
                        + List.length cl
                          * Z.to_nat (Py.int_of threshold - 1)))
    /\ Forall2 (drawn_coefficients_of (Py.int_of threshold)) secret_bytes
               (firstn (List.length secret_bytes) cl)
    /\ Forall (fun cs => Z.of_nat (List.length cs) = Py.int_of threshold
                         /\ Forall is_byte cs
                         /\ Forall drawn_byte (tl cs)) cl.
Proof.
  intros Hparams Hsecret Hscalar Hok.
  destruct (validate_share_parameters_true _ _ Hparams) as [HN HK].
  destruct (validate_secret_length_true _ Hsecret) as [Hs1 Hs2].
  destruct (utf8_roundtrip secret Hscalar) as [sb [He [Hb [Hl Hd]]]].
  exists sb.
  assert (exists padded,
            (if (List.length sb <? 200)%nat
             then ' (padding, g') <-
                    random_bytes (200 - List.length sb) g ;;
                  Ok (sb ++ padding, g')
             else Ok (sb, g))
            = Ok (padded, advance g (200 - List.length sb))
            /\ (exists padding, padded = sb ++ padding)
            /\ Forall is_byte padded
            /\ List.length padded = Nat.max (List.length sb) 200)
    as [padded [Hpad [[padding Hp] [Hpb Hpl]]]].
  { destruct (List.length sb <? 200)%nat eqn:E.
    - apply Nat.ltb_lt in E.
      destruct (random_bytes_spec (200 - List.length sb) g Hok)
        as [padding [Hr [Hlp Hbp]]].
      exists (sb ++ padding). rewrite Hr. cbn [bind].
      split; [reflexivity|]. split; [exists padding; reflexivity|].
      split; [apply Forall_app; split;
              [assumption|apply drawn_byte_is_byte, Hbp]|].
      rewrite length_app. lia.
    - apply Nat.ltb_ge in E. exists sb.
      replace (200 - List.length sb)%nat with 0%nat by lia.
      rewrite advance_zero.
      split; [reflexivity|]. split; [exists []; symmetry; apply app_nil_r|].
      split; [assumption|lia]. }
  destruct (process_bytes_spec (Py.int_of total_shares)
              (Py.int_of threshold) padded ltac:(lia) Hpb padded [] []
              (advance g (200 - List.length sb)) eq_refl
              (Forall2_nil _) Hok)
    as [cl [Hloop Hcl]].
  pose proof (Forall2_length Hcl) as Hlen.
  pose proof (drawn_coefficients_weaken _ _ _ Hcl) as Hclw.
  pose proof (coefficients_of_bytes _ _ _ Hclw) as Hcb.
  exists cl.
  split; [exact He|]. split; [exact Hd|]. split; [exact Hb|].
  split; [lia|]. split; [lia|]. split; [|split].
  - unfold generate_shares.
    destruct (validate_share_parameters total_shares threshold) as [v e].
    cbn [fst] in Hparams. subst v. cbn [negb].
    destruct (validate_secret_length secret 1 10000) as [v' e'].
    cbn [fst] in Hsecret. subst v'. cbn [negb].
    rewrite He. cbn [bind]. rewrite Hpad. cbn [bind].
    cbn [List.length rows_after] in Hloop. rewrite Hloop. cbn [bind].
    assert (rows_after (Py.int_of total_shares) cl
            = map (fun j => j :: share_values cl j)
                  (range 1 (Py.int_of total_shares + 1))) as Hrows.
    { destruct cl; [cbn [List.length] in Hlen; lia|reflexivity]. }
    rewrite Hrows.
    rewrite encode_shares_ok; try lia.
    + rewrite advance_add, Hlen. reflexivity.
    + apply Forall_impl with (2 := Hcb). intros cs [_ H]. exact H.
    + apply Forall_forall. intros j Hj. apply range_bounds in Hj. lia.
  - rewrite Hp in Hcl. apply (Forall2_firstn_app _ _ _ _ Hcl).
  - clear - Hcl. induction Hcl as [|b cs bytes cl [[_ [H1 H2]] H3] _ IH];
      constructor; auto.
Qed.

(** ** Interpolation from one point too few *)

Section Short.

Local Open Scope gf_scope.

Variable x : gf.

(** Synthetic division keeps the leading coefficient. *)
Lemma gsynth_lead (coefficients : list gf) (a : gf) :
  forall q r, gsynth coefficients a = (q, r) ->
  (2 <= List.length coefficients)%nat ->
  glead q = glead coefficients.
Proof.
  induction coefficients as [|c rest IH]; intros q r H Hlen;
    [cbn in Hlen; lia|].
  cbn [gsynth] in H. destruct rest as [|c' rest']; [cbn in Hlen; lia|].
  destruct (gsynth (c' :: rest') a) as [q' r'] eqn:E.
  injection H as <- <-.
  destruct rest' as [|c'' rest''].
  - cbn in E. injection E as <- <-. reflexivity.
  - specialize (IH q' r' eq_refl ltac:(cbn [List.length]; lia)).
    destruct (gsynth_spec _ _ _ _ E) as [Hl _].
    destruct q' as [|q0 q'']; [cbn in Hl; lia|].
    unfold glead in *. cbn [last] in *. exact IH.
Qed.

(** Interpolating a polynomial at one node fewer than it has
    coefficients misses its value by the leading coefficient times the
    product of the distances to the nodes. *)
Lemma glagrange_short (nodes : list gf) :
  forall coefficients,
  NoDup nodes -> List.length coefficients = S (List.length nodes) ->
  glagrange (geval coefficients) x [] nodes
  = geval coefficients x - glead coefficients * gvanish x nodes.
Proof.
  induction nodes as [|a nodes' IH]; intros cs Hnd Hlen.
  - destruct cs as [|c [|c' cs']]; try discriminate.
    unfold glead. cbn. ring.
  - destruct (gsynth cs a) as [q r] eqn:E.
    destruct (gsynth_spec cs a q r E) as [Hq He].
    pose proof (gsynth_lead cs a q r E
                  ltac:(rewrite Hlen; cbn [List.length]; lia)) as Hlead.
    assert (NoDup nodes') as Hnd' by (inversion Hnd; assumption).
    assert (forall c, In c nodes' -> c <> a) as Hne.
    { intros c Hc ->. inversion Hnd; contradiction. }
    pose proof (glagrange_unity x (List.length nodes') (a :: nodes')
                  eq_refl Hnd) as U.
    cbn [glagrange app] in U |- *.
    rewrite glagrange_seen in U. rewrite glagrange_seen.
    rewrite (glagrange_ext x _
               (fun c => r * (1 * gweight x a c) + (x - a) * geval q c)).
    + rewrite glagrange_linear.
      rewrite (IH q Hnd')
        by (rewrite Hq, Hlen; cbn [List.length]; reflexivity).
      set (A := glagrange (fun c => 1 * gweight x a c) x [] nodes') in *.
      rewrite (He a), (He x), Hlead. cbn [gvanish].
      transitivity (r * (1 * gbasis x a nodes' + A)
                    + (x - a) * (geval q x - glead cs * gvanish x nodes')).
      * ring.
      * rewrite U. ring.
    + intros c Hc. rewrite (He c). unfold gweight. field.
      apply gsub_neq, Hne, Hc.
Qed.

End Short.

Lemma gmul_eq_zero (a b : gf) : gmul a b = gzero -> a = gzero \/ b = gzero.
Proof.
  intros H. apply (f_equal val) in H. rewrite val_gmul in H.
  change (val gzero) with 0 in H.
  destruct (Z.eq_dec (val a) 0) as [Ha|Ha]; [left; apply gf_ext, Ha|].
  destruct (Z.eq_dec (val b) 0) as [Hb|Hb]; [right; apply gf_ext, Hb|].
  pose proof (gf_mult_log _ _ (val_byte a) (val_byte b) Ha Hb). lia.
Qed.

Lemma gvanish_nonzero (nodes : list Z) :
  Forall drawn_byte nodes -> gvanish (gf_of 0) (map gf_of nodes) <> gzero.
Proof.
  induction 1 as [|a nodes Ha _ IH]; cbn [map gvanish].
  - intros H. apply (f_equal val) in H. discriminate.
  - intros H. apply gmul_eq_zero in H. destruct H as [H|H]; [|auto].
    apply (proj1 (gsub_eq_zero _ _)) in H. unfold drawn_byte in Ha.
    assert (val (gf_of 0) = val (gf_of a)) as Hv by (rewrite H; reflexivity).
    rewrite (val_gf_of a) in Hv by (unfold is_byte; lia).
    change (val (gf_of 0)) with 0 in Hv. lia.
Qed.

Lemma glead_map (cs : list Z) : glead (map gf_of cs) = gf_of (last cs 0).
Proof.
  unfold glead. induction cs as [|c [|c' cs'] IH]; try reflexivity.
  exact IH.
Qed.

Lemma lagrange_interpolation_short_zero (cs nodes : list Z) :
  Forall is_byte cs -> Forall drawn_byte nodes -> NoDup nodes ->
  (1 <= List.length nodes)%nat ->
  List.length cs = S (List.length nodes) ->
  last cs 0 <> 0 ->
  exists v,
    _lagrange_interpolation
      (map (fun a => (a, _evaluate_polynomial cs a)) nodes) 0 = Ok v
    /\ is_byte v /\ v <> hd 0 cs.
Proof.
  intros Hcs Hn Hnd Hne Hlen Htop.
  pose proof (drawn_byte_is_byte _ Hn) as Hb.
  assert (is_byte 0) as H0 by (unfold is_byte; lia).
  assert (nodes <> []) as Hnn by (intros ->; cbn in Hne; lia).
  replace (map (fun a => (a, _evaluate_polynomial cs a)) nodes)
    with (gpoints (geval (map gf_of cs)) nodes).
  - rewrite lagrange_interpolation_gf by assumption.
    rewrite glagrange_short
      by (try (apply gf_of_NoDup; assumption); rewrite !length_map; exact Hlen).
    eexists. split; [reflexivity|]. split; [apply val_byte|].
    rewrite <- evaluate_polynomial_zero.
    rewrite (evaluate_polynomial_gf cs 0) by assumption.
    intros E. apply gf_ext in E.
    assert (gmul (glead (map gf_of cs)) (gvanish (gf_of 0) (map gf_of nodes))
            = gzero) as Hz.
    { set (p := geval (map gf_of cs) (gf_of 0)) in *.
      set (t := gmul _ _) in *.
      transitivity (gsub p (gsub p t)); [ring|]. rewrite E. ring. }
    apply gmul_eq_zero in Hz. destruct Hz as [Hz|Hz].
    + rewrite glead_map in Hz. apply (f_equal val) in Hz.
      assert (is_byte (last cs 0)) as Hl.
      { destruct cs as [|c cs']; [discriminate|].
        rewrite Forall_forall in Hcs. apply Hcs.
        destruct (@exists_last _ (c :: cs') ltac:(discriminate))
          as [l' [z Ez]].
        rewrite Ez, last_last. apply in_or_app. right. left. reflexivity. }
      rewrite val_gf_of in Hz by assumption. apply Htop, Hz.
    + apply (gvanish_nonzero nodes Hn), Hz.
  - unfold gpoints. apply map_ext_in. intros a Ha.
    rewrite Forall_forall in Hb.
    rewrite evaluate_polynomial_gf by auto. reflexivity.
Qed.

(** When the coefficient of the highest power is not zero, interpolating
    samples of a polynomial taken at distinct non-zero nodes, one fewer
    than it has coefficients, never returns its constant term at 0: the
    value returned is off by the top coefficient times the product of
    the nodes. *)
Theorem lagrange_interpolation_one_short (cs nodes : list Z) :
  Forall is_byte cs -> Forall drawn_byte nodes -> NoDup nodes ->
  (1 <= List.length nodes)%nat ->
  List.length cs = S (List.length nodes) ->
  last cs 0 <> 0 ->
  exists v,
    _lagrange_interpolation
      (map (fun a => (a, _evaluate_polynomial cs a)) nodes) 0 = Ok v
    /\ is_byte v /\ v <> hd 0 cs.
Proof. apply lagrange_interpolation_short_zero. Qed.

Lemma lagrange_interpolation_one_short_witness :
  exists v,
    _lagrange_interpolation
      (map (fun a => (a, _evaluate_polynomial [72; 19; 200] a)) [3; 7]) 0
    = Ok v
    /\ is_byte v /\ v <> hd 0 [72; 19; 200].
Proof.
  apply (lagrange_interpolation_one_short [72; 19; 200] [3; 7]).
  - repeat (constructor; [unfold is_byte; lia|]). constructor.
  - repeat (constructor; [unfold drawn_byte; lia|]). constructor.
  - repeat (constructor; [cbn; intuition lia|]). constructor.
  - cbn. lia.
  - reflexivity.
  - cbn. lia.
Defined.

(** ** Further properties of splitting and reconstruction *)

(** *** Strict decoding is injective *)

Lemma utf8_decode_encode_bound (n : nat) :
  forall bs s, (List.length bs <= n)%nat ->
  Utf8.decode bs = Ok s -> Utf8.encode s = Ok bs.
Proof.
  induction n as [|n IH]; intros bs s Hn H.
  { destruct bs; [|cbn in Hn; lia]. cbn in H. injection H as <-.
    reflexivity. }
  destruct bs as [|b0 r0]; [cbn in H; injection H as <-; reflexivity|].
  cbn [List.length] in Hn. cbn [Utf8.decode] in H.
  destruct (b0 <? 128) eqn:E1.
  { destruct (Utf8.decode r0) as [rest|] eqn:Er; [|discriminate].
    cbn [bind] in H. injection H as <-.
    cbn [Utf8.encode]. unfold Utf8.encode_code_point. rewrite E1.
    cbn [bind]. rewrite (IH r0 rest) by (try assumption; lia).
    reflexivity. }
  destruct (b0 <? 194) eqn:E2; [discriminate|].
  destruct (b0 <? 224) eqn:E3.
  { destruct r0 as [|b1 r1]; [discriminate|].
    destruct (Utf8.is_cont b1) eqn:C1; [|discriminate].
    destruct (Utf8.decode r1) as [rest|] eqn:Er; [|discriminate].
    cbn [bind] in H. injection H as <-.
    unfold Utf8.is_cont in C1.
    cbn [Utf8.encode]. unfold Utf8.encode_code_point.
    set (c := (b0 - 192) * 64 + (b1 - 128)).
    assert (128 <= c < 2048 /\ 192 + c / 64 = b0 /\ 128 + c mod 64 = b1)
      as [Hc [Hd0 Hd1]] by (subst c; div_lia).
    destruct (c <? 128) eqn:F1; [lia|].
    destruct (c <? 2048) eqn:F2; [|lia].
    cbn [bind]. rewrite (IH r1 rest) by (cbn [List.length] in Hn; try assumption; lia).
    cbn [bind app]. rewrite Hd0, Hd1. reflexivity. }
  destruct (b0 <? 240) eqn:E4.
  { destruct r0 as [|b1 [|b2 r2]]; try discriminate.
    set (c := (b0 - 224) * 4096 + (b1 - 128) * 64 + (b2 - 128)) in *.
    destruct (Utf8.is_cont b1 && Utf8.is_cont b2 && (2048 <=? c)
              && negb (Utf8.is_surrogate c)) eqn:C; [|discriminate].
    destruct (Utf8.decode r2) as [rest|] eqn:Er; [|discriminate].
    cbn [bind] in H. injection H as <-.
    rewrite !andb_true_iff in C. destruct C as [[[C1 C2] C3] C4].
    unfold Utf8.is_cont in C1, C2. apply negb_true_iff in C4.
    cbn [Utf8.encode]. unfold Utf8.encode_code_point.
    assert (2048 <= c < 65536 /\ 224 + c / 4096 = b0
            /\ 128 + (c / 64) mod 64 = b1 /\ 128 + c mod 64 = b2)
      as [Hc [Hd0 [Hd1 Hd2]]] by (subst c; div_lia).
    destruct (c <? 128) eqn:F1; [lia|].
    destruct (c <? 2048) eqn:F2; [lia|].
    destruct (c <? 65536) eqn:F3; [|lia].
    rewrite C4. cbn [bind].
    rewrite (IH r2 rest) by (cbn [List.length] in Hn; try assumption; lia).
    cbn [bind app]. rewrite Hd0, Hd1, Hd2. reflexivity. }
  destruct (b0 <? 245) eqn:E5; [|discriminate].
  destruct r0 as [|b1 [|b2 [|b3 r3]]]; try discriminate.
  set (c := (b0 - 240) * 262144 + (b1 - 128) * 4096 + (b2 - 128) * 64
            + (b3 - 128)) in *.
  destruct (Utf8.is_cont b1 && Utf8.is_cont b2 && Utf8.is_cont b3
            && (65536 <=? c) && (c <=? 1114111)) eqn:C; [|discriminate].
  destruct (Utf8.decode r3) as [rest|] eqn:Er; [|discriminate].
  cbn [bind] in H. injection H as <-.
  rewrite !andb_true_iff in C. destruct C as [[[[C1 C2] C3] C4] C5].
  unfold Utf8.is_cont in C1, C2, C3.
  cbn [Utf8.encode]. unfold Utf8.encode_code_point.
  assert (65536 <= c /\ 240 + c / 262144 = b0
          /\ 128 + (c / 4096) mod 64 = b1
          /\ 128 + (c / 64) mod 64 = b2 /\ 128 + c mod 64 = b3)
    as [Hc [Hd0 [Hd1 [Hd2 Hd3]]]] by (subst c; div_lia).
  destruct (c <? 128) eqn:F1; [lia|].
  destruct (c <? 2048) eqn:F2; [lia|].
  destruct (c <? 65536) eqn:F3; [lia|].
  cbn [bind].
  rewrite (IH r3 rest) by (cbn [List.length] in Hn; try assumption; lia).
  cbn [bind app]. rewrite Hd0, Hd1, Hd2, Hd3. reflexivity.
Qed.

(** Only one byte string decodes to a given string. *)
Lemma utf8_decode_encode (bs s : list Z) :
  Utf8.decode bs = Ok s -> Utf8.encode s = Ok bs.
Proof. apply (utf8_decode_encode_bound (List.length bs)). lia. Qed.

(** *** Reconstruction from any selection of the shares of one split *)

(** Parsing shares of one split selected by position. *)
Lemma parse_selected (N : Z) (L : nat) (cl : list (list Z))
    (idxs : list nat) :
  N <= 255 -> (L <= List.length cl)%nat ->
  Z.of_nat (List.length cl) < 65536 ->
  Forall (Forall is_byte) cl ->
  idxs <> [] -> Forall (fun i => (i < Z.to_nat N)%nat) idxs ->
  foldM parse_one
        (map (fun i => nth i (share_strings N (Z.of_nat L) cl) EmptyString)
             idxs)
        ([], None)
  = Ok (map (fun i => (id_at i, firstn L (share_values cl (id_at i)))) idxs,
        Some L).
Proof.
  intros HN HLP HP Hcl Hne Hidx.
  assert (forall i, In i idxs -> 1 <= id_at i < 256) as Hid.
  { intros i Hi. rewrite Forall_forall in Hidx. specialize (Hidx i Hi).
    unfold id_at. lia. }
  replace (map (fun i => nth i (share_strings N (Z.of_nat L) cl)
                             EmptyString) idxs)
    with (map (fun i => _encode_base62
                          (frame_bytes (id_at i)
                             (share_values cl (id_at i)) (Z.of_nat L)))
              idxs).
  - rewrite (parse_all parsed_of L).
    + rewrite map_map. apply (f_equal Ok).
      apply (f_equal (fun l => (l, Some L))).
      apply map_ext_in. intros i Hi. unfold parsed_of.
      rewrite share_string_parse by (auto; lia).
      rewrite Nat2Z.id. reflexivity.
    + destruct idxs; [contradiction|discriminate].
    + intros s Hs. apply in_map_iff in Hs. destruct Hs as [i [<- Hi]].
      unfold parsed_of.
      rewrite share_string_parse by (auto; lia).
      split; [reflexivity|]. cbn [snd].
      rewrite Nat2Z.id, firstn_length_le; [reflexivity|].
      rewrite share_values_length. exact HLP.
  - apply map_ext_in. intros i Hi. symmetry.
    apply share_strings_nth. rewrite Forall_forall in Hidx. auto.
Qed.

(** The points handed to the interpolation for the byte position [t]
    are samples of the coefficient vector of that position. *)
Lemma selected_points (L : nat) (cl : list (list Z)) (idxs : list nat)
    (t : nat) :
  (t < L)%nat ->
  map (fun '(share_id, values) => (share_id, nth t values 0))
      (map (fun i => (id_at i, firstn L (share_values cl (id_at i)))) idxs)
  = map (fun a => (a, _evaluate_polynomial (nth t cl []) a))
        (map id_at idxs).
Proof.
  intros HtL. rewrite !map_map. apply map_ext. intros i. f_equal.
  rewrite nth_firstn_lt by exact HtL.
  unfold share_values.
  change 0 with (_evaluate_polynomial [] (id_at i)) at 1.
  rewrite (map_nth (fun cs => _evaluate_polynomial cs (id_at i))).
  reflexivity.
Qed.

(** [reconstruct_secret] once the shares are parsed and the bytes
    interpolated. *)
Lemma reconstruct_secret_bytes (shares : list string)
    (parsed : list (Z * list Z)) (n : nat) (bytes : list Z) :
  shares <> [] -> parsed <> [] ->
  foldM parse_one shares ([], None) = Ok (parsed, Some n) ->
  foldM (reconstruct_byte parsed) (seq 0 n) [] = Ok bytes ->
  Forall is_byte bytes ->
  reconstruct_secret shares
  = match Utf8.decode bytes with
    | Ok secret => Ok secret
    | Err _ => Err bad_utf8
    end.
Proof.
  intros Hs Hp Hparse Hbytes Hb. unfold reconstruct_secret.
  destruct shares as [|s shares]; [contradiction|].
  rewrite Hparse. cbn [bind].
  destruct parsed as [|p parsed]; [contradiction|].
  rewrite Hbytes. cbn [bind]. rewrite bytes_of_list_ok by assumption.
  cbn [bind]. destruct (Utf8.decode bytes) as [s'|e] eqn:E; [reflexivity|].
  rewrite (utf8_decode_error _ _ E). reflexivity.
Qed.

(** The bytes that [reconstruct_secret] interpolates from the selected
    shares, given what the interpolation returns at every position. *)
Lemma reconstruct_selection (N : Z) (L : nat) (cl : list (list Z))
    (idxs : list nat) (value : nat -> Z) :
  N <= 255 -> (L <= List.length cl)%nat ->
  Z.of_nat (List.length cl) < 65536 ->
  Forall (Forall is_byte) cl ->
  idxs <> [] -> Forall (fun i => (i < Z.to_nat N)%nat) idxs ->
  (forall t, (t < L)%nat ->
     _lagrange_interpolation
       (map (fun a => (a, _evaluate_polynomial (nth t cl []) a))
            (map id_at idxs)) 0 = Ok (value t)
     /\ is_byte (value t)) ->
  reconstruct_secret
    (map (fun i => nth i (share_strings N (Z.of_nat L) cl) EmptyString) idxs)
  = match Utf8.decode (map value (seq 0 L)) with
    | Ok secret => Ok secret
    | Err _ => Err bad_utf8
    end.
Proof.
  intros HN HLP HP Hcl Hne Hidx Hv.
  apply (reconstruct_secret_bytes _
           (map (fun i => (id_at i, firstn L (share_values cl (id_at i))))
                idxs) L).
  - destruct idxs; [contradiction|discriminate].
  - destruct idxs; [contradiction|discriminate].
  - apply parse_selected; assumption.
  - rewrite (reconstruct_bytes _ value); [reflexivity|].
    intros t Ht. rewrite selected_points by lia. apply Hv. lia.
  - apply Forall_map, Forall_forall. intros t Ht. apply in_seq in Ht.
    apply Hv. lia.
Qed.

Lemma nth_Forall2_hd (K : Z) (bytes : list Z) (cl : list (list Z)) (t : nat) :
  Forall2 (drawn_coefficients_of K) bytes (firstn (List.length bytes) cl) ->
  (t < List.length bytes)%nat ->
  drawn_coefficients_of K (nth t bytes 0) (nth t cl []).
Proof.
  intros H Ht.
  pose proof (Forall2_nth _ 0 [] _ _ H t Ht) as Hn.
  rewrite nth_firstn_lt in Hn by exact Ht. exact Hn.
Qed.

Lemma split_arguments (secret secret_bytes : list Z) (N K : Z) :
  Utf8.encode secret = Ok secret_bytes ->
  (1 <= List.length secret_bytes)%nat ->
  Z.of_nat (List.length secret_bytes) <= 10000 ->
  ~ In 0 secret ->
  2 <= K <= N -> N <= 255 ->
  Forall is_scalar_value secret ->
  fst (validate_share_parameters (Py.Int N) (Py.Int K)) = true
  /\ fst (validate_secret_length secret 1 10000) = true.
Proof.
  intros He H1 H2 Hnul HK HN Hscalar.
  split; [apply validate_share_parameters_int; assumption|].
  destruct (utf8_roundtrip secret Hscalar) as [sb [He' [_ [Hl _]]]].
  assert (sb = secret_bytes) by congruence. subst sb.
  apply validate_secret_length_ok; [| |assumption].
  - destruct secret; [|cbn [List.length]; lia].
    cbn in He. injection He as <-. cbn in H1. lia.
  - lia.
Qed.

Lemma quorum_reconstructs
    (secret secret_bytes : list Z) (N K : Z) (g : rng) :
  Forall is_scalar_value secret ->
  Utf8.encode secret = Ok secret_bytes ->
  (1 <= List.length secret_bytes)%nat ->
  Z.of_nat (List.length secret_bytes) <= 10000 ->
  ~ In 0 secret ->
  2 <= K <= N -> N <= 255 ->
  csprng_ok g = true ->
  exists (shares : list string) (g' : rng),
    generate_shares secret (Py.Int N) (Py.Int K) g = Ok (shares, g')
    /\ forall idxs : list nat,
         NoDup idxs -> K <= Z.of_nat (List.length idxs) ->
         Forall (fun i => (i < List.length shares)%nat) idxs ->
         reconstruct_secret (map (fun i => nth i shares EmptyString) idxs)
         = Ok secret.
Proof.
  intros Hscalar He H1 H2 Hnul HK HN Hok.
  destruct (split_arguments _ _ _ _ He H1 H2 Hnul HK HN Hscalar)
    as [Hparams Hsecret].
  destruct (generate_shares_spec _ _ _ _ Hparams Hsecret Hscalar Hok)
    as [sb [cl [He' [Hd [Hb [Hlb [Hlen [Hgen [Hco Hall]]]]]]]]].
  assert (sb = secret_bytes) by congruence. subst sb.
  cbn [Py.int_of] in *.
  eexists. eexists. split; [exact Hgen|].
  intros idxs Hnd Hmany Hidx. rewrite share_strings_length in Hidx.
  assert (Forall (Forall is_byte) cl) as Hcl.
  { apply Forall_impl with (2 := Hall). intros cs [_ [H _]]. exact H. }
  assert (idxs <> []) as Hne by (intros ->; cbn in Hmany; lia).
  rewrite (reconstruct_selection N (List.length secret_bytes) cl idxs
             (fun t => nth t secret_bytes 0)); try assumption; try lia.
  - rewrite nth_seq_map, Hd. reflexivity.
  - intros t Ht.
    destruct (nth_Forall2_hd _ _ _ t Hco Ht) as [[Hh [Hl Hcb]] _].
    split.
    + rewrite lagrange_interpolation_polynomial.
      * rewrite evaluate_polynomial_zero, Hh. reflexivity.
      * exact Hcb.
      * apply Forall_map, Forall_forall. intros i Hi.
        rewrite Forall_forall in Hidx. specialize (Hidx i Hi).
        unfold id_at, is_byte. lia.
      * apply id_at_NoDup, Hnd.
      * unfold is_byte. lia.
      * destruct idxs; [contradiction|discriminate].
      * rewrite length_map. lia.
    + rewrite Forall_forall in Hb. apply Hb, nth_In, Ht.
Qed.

(** Every selection of at least K of the shares of one split, at distinct
    positions in any order, reconstructs the secret: shares beyond the
    threshold do no harm. *)
Theorem split_combine_quorum
    (secret secret_bytes : list Z) (N K : Z) (g : rng) :
  Forall is_scalar_value secret ->
  Utf8.encode secret = Ok secret_bytes ->
  (1 <= List.length secret_bytes)%nat ->
  Z.of_nat (List.length secret_bytes) <= 10000 ->
  ~ In 0 secret ->
  2 <= K <= N -> N <= 255 ->
  csprng_ok g = true ->
  exists (shares : list string) (g' : rng),
    generate_shares secret (Py.Int N) (Py.Int K) g = Ok (shares, g')
    /\ forall idxs : list nat,
         NoDup idxs -> K <= Z.of_nat (List.length idxs) ->
         Forall (fun i => (i < List.length shares)%nat) idxs ->
         reconstruct_secret (map (fun i => nth i shares EmptyString) idxs)
         = Ok secret.
Proof. apply quorum_reconstructs. Qed.

Lemma split_combine_quorum_witness :
  exists (shares : list string) (g' : rng),
    generate_shares example_secret (Py.Int 3) (Py.Int 2) example_rng
    = Ok (shares, g')
    /\ forall idxs : list nat,
         NoDup idxs -> 2 <= Z.of_nat (List.length idxs) ->
         Forall (fun i => (i < List.length shares)%nat) idxs ->
         reconstruct_secret (map (fun i => nth i shares EmptyString) idxs)
         = Ok example_secret.
Proof.
  apply (split_combine_quorum example_secret [72; 105] 3 2 example_rng).
  - apply example_secret_scalar.
  - reflexivity.
  - cbn. lia.
  - cbn. lia.
  - cbn. intuition lia.
  - lia.
  - lia.
  - reflexivity.
Defined.

Lemma last_in_tl (cs : list Z) :
  (2 <= List.length cs)%nat -> In (last cs 0) (tl cs).
Proof.
  intros H. destruct cs as [|c [|c' cs']]; try (cbn in H; lia).
  cbn [tl]. change (last (c :: c' :: cs') 0) with (last (c' :: cs') 0).
  destruct (@exists_last _ (c' :: cs') ltac:(discriminate)) as [l [z E]].
  rewrite E, last_last. apply in_or_app. right. left. reflexivity.
Qed.

(** One share fewer than the threshold never reconstructs the secret:
    because every random coefficient is drawn from 1..255, so that the
    top coefficient is never zero, each byte interpolated from K - 1 of
    the shares of one split differs from the byte of the secret at its
    position, and [reconstruct_secret] either raises the invalid-UTF-8
    error or returns a string other than the secret. *)
Theorem split_below_threshold
    (secret secret_bytes : list Z) (N K : Z) (g : rng) :
  Forall is_scalar_value secret ->
  Utf8.encode secret = Ok secret_bytes ->
  (1 <= List.length secret_bytes)%nat ->
  Z.of_nat (List.length secret_bytes) <= 10000 ->
  ~ In 0 secret ->
  2 <= K <= N -> N <= 255 ->
  csprng_ok g = true ->
  exists (shares : list string) (g' : rng),
    generate_shares secret (Py.Int N) (Py.Int K) g = Ok (shares, g')
    /\ forall idxs : list nat,
         NoDup idxs -> Z.of_nat (List.length idxs) = K - 1 ->
         Forall (fun i => (i < List.length shares)%nat) idxs ->
         exists bytes,
           List.length bytes = List.length secret_bytes
           /\ (forall t, (t < List.length secret_bytes)%nat ->
                         nth t bytes 0 <> nth t secret_bytes 0)
           /\ reconstruct_secret
                (map (fun i => nth i shares EmptyString) idxs)
              = match Utf8.decode bytes with
                | Ok other => Ok other
                | Err _ => Err bad_utf8
                end
           /\ reconstruct_secret
                (map (fun i => nth i shares EmptyString) idxs)
              <> Ok secret.
Proof.
  intros Hscalar He H1 H2 Hnul HK HN Hok.
  destruct (split_arguments _ _ _ _ He H1 H2 Hnul HK HN Hscalar)
    as [Hparams Hsecret].
  destruct (generate_shares_spec _ _ _ _ Hparams Hsecret Hscalar Hok)
    as [sb [cl [He' [Hd [Hb [Hlb [Hlen [Hgen [Hco Hall]]]]]]]]].
  assert (sb = secret_bytes) by congruence. subst sb.
  cbn [Py.int_of] in *.
  eexists. eexists. split; [exact Hgen|].
  intros idxs Hnd Hfew Hidx. rewrite share_strings_length in Hidx.
  assert (Forall (Forall is_byte) cl) as Hcl.
  { apply Forall_impl with (2 := Hall). intros cs [_ [H _]]. exact H. }
  assert (idxs <> []) as Hne by (intros ->; cbn in Hfew; lia).
  set (points := fun t : nat =>
         map (fun a => (a, _evaluate_polynomial (nth t cl []) a))
             (map id_at idxs)).
  set (value := fun t : nat =>
         match _lagrange_interpolation (points t) 0 with
         | Ok v => v
         | Err _ => 0
         end).
  assert (forall t, (t < List.length secret_bytes)%nat ->
            _lagrange_interpolation (points t) 0 = Ok (value t)
            /\ is_byte (value t)
            /\ value t <> nth t secret_bytes 0) as Hv.
  { intros t Ht.
    destruct (nth_Forall2_hd _ _ _ t Hco Ht) as [[Hh [Hl Hcb]] Hdr].
    destruct (lagrange_interpolation_short_zero (nth t cl [])
                (map id_at idxs)) as [v [Hi [Hvb Hvn]]].
    - exact Hcb.
    - apply Forall_map, Forall_forall. intros i Hi.
      rewrite Forall_forall in Hidx. specialize (Hidx i Hi).
      unfold id_at, drawn_byte. lia.
    - apply id_at_NoDup, Hnd.
    - rewrite length_map. lia.
    - rewrite length_map. lia.
    - pose proof (last_in_tl (nth t cl []) ltac:(lia)) as Hin.
      rewrite Forall_forall in Hdr. specialize (Hdr _ Hin).
      unfold drawn_byte in Hdr. lia.
    - unfold value. fold (points t) in Hi. rewrite Hi.
      split; [reflexivity|]. split; [exact Hvb|]. rewrite <- Hh. exact Hvn. }
  exists (map value (seq 0 (List.length secret_bytes))).
  assert (forall t, (t < List.length secret_bytes)%nat ->
            nth t (map value (seq 0 (List.length secret_bytes))) 0 = value t)
    as Hnth.
  { intros t Ht.
    rewrite (nth_indep _ 0 (value 0%nat))
      by (rewrite length_map, length_seq; exact Ht).
    rewrite (map_nth value), seq_nth by exact Ht. reflexivity. }
  assert (reconstruct_secret
            (map (fun i => nth i (share_strings N
                                    (Z.of_nat (List.length secret_bytes)) cl)
                               EmptyString) idxs)
          = match Utf8.decode (map value (seq 0 (List.length secret_bytes)))
            with
            | Ok other => Ok other
            | Err _ => Err bad_utf8
            end) as Hrec.
  { apply reconstruct_selection; try assumption; try lia.
    intros t Ht. destruct (Hv t Ht) as [Hi [Hvb _]]. split; assumption. }
  split; [rewrite length_map, length_seq; reflexivity|].
  split; [intros t Ht; rewrite (Hnth t Ht); apply (Hv t Ht)|].
  split; [exact Hrec|].
  rewrite Hrec.
  destruct (Utf8.decode (map value (seq 0 (List.length secret_bytes))))
    as [other|e] eqn:E; [|discriminate].
  intros H. injection H as ->.
  apply utf8_decode_encode in E.
  assert (map value (seq 0 (List.length secret_bytes)) = secret_bytes) as Eq
    by congruence.
  assert (0 < List.length secret_bytes)%nat as H0 by lia.
  pose proof (Hnth 0%nat H0) as Hn0. rewrite Eq in Hn0.
  destruct (Hv 0%nat H0) as [_ [_ Hneq]]. apply Hneq. symmetry. exact Hn0.
Qed.

Lemma split_below_threshold_witness :
  exists (shares : list string) (g' : rng),
    generate_shares example_secret (Py.Int 3) (Py.Int 2) example_rng
    = Ok (shares, g')
    /\ forall idxs : list nat,
         NoDup idxs -> Z.of_nat (List.length idxs) = 2 - 1 ->
         Forall (fun i => (i < List.length shares)%nat) idxs ->
         exists bytes,
           List.length bytes = List.length [72; 105]
           /\ (forall t, (t < List.length [72; 105])%nat ->
                         nth t bytes 0 <> nth t [72; 105] 0)
           /\ reconstruct_secret
                (map (fun i => nth i shares EmptyString) idxs)
              = match Utf8.decode bytes with
                | Ok other => Ok other
                | Err _ => Err bad_utf8
                end
           /\ reconstruct_secret
                (map (fun i => nth i shares EmptyString) idxs)
              <> Ok example_secret.
Proof.
  apply (split_below_threshold example_secret [72; 105] 3 2 example_rng).
  - apply example_secret_scalar.
  - reflexivity.
  - cbn. lia.
  - cbn. lia.
  - cbn. intuition lia.
  - lia.
  - lia.
  - reflexivity.
Defined.

(** *** The random source in [generate_shares] *)

Lemma random_bytes_fails (n : nat) (g : rng) :
  csprng_ok g = false -> (1 <= n)%nat -> random_bytes n g = Err no_csprng.
Proof.
  intros H Hn. destruct n as [|n]; [lia|].
  cbn [random_bytes]. rewrite secure_random_int_fails by assumption.
  reflexivity.
Qed.

Lemma draw_coefficients_fails (n : nat) (cs : list Z) (g : rng) :
  csprng_ok g = false -> (1 <= n)%nat ->
  draw_coefficients n cs g = Err no_csprng.
Proof.
  intros H Hn. destruct n as [|n]; [lia|].
  cbn [draw_coefficients]. rewrite secure_random_int_fails by assumption.
  reflexivity.
Qed.

(** Without a working random source [generate_shares] raises the
    [SecurityError] of [secure_random_int] for every secret and every pair
    of parameters that pass validation: a threshold of at least 2 needs
    at least one random coefficient, so no share is ever produced from a
    source that failed its self-test. *)
Theorem generate_shares_needs_csprng
    (secret : list Z) (total_shares threshold : Py.value) (g : rng) :
  fst (validate_share_parameters total_shares threshold) = true ->
  fst (validate_secret_length secret 1 10000) = true ->
  Forall is_scalar_value secret ->
  csprng_ok g = false ->
  generate_shares secret total_shares threshold g = Err no_csprng.
Proof.
  intros Hparams Hsecret Hscalar Hbad.
  destruct (validate_share_parameters_true _ _ Hparams) as [HN HK].
  destruct (validate_secret_length_true _ Hsecret) as [Hs1 Hs2].
  destruct (utf8_roundtrip secret Hscalar) as [sb [He [Hb [Hl Hd]]]].
  unfold generate_shares.
  destruct (validate_share_parameters total_shares threshold) as [v e].
  cbn [fst] in Hparams. subst v. cbn [negb].
  destruct (validate_secret_length secret 1 10000) as [v' e'].
  cbn [fst] in Hsecret. subst v'. cbn [negb].
  rewrite He. cbn [bind].
  destruct (List.length sb <? 200)%nat eqn:E.
  - apply Nat.ltb_lt in E. rewrite random_bytes_fails by (try assumption; lia).
    reflexivity.
  - cbn [bind]. destruct sb as [|b sb']; [cbn in Hl; lia|].
    cbn [List.length seq foldM]. unfold process_byte at 1.
    rewrite draw_coefficients_fails by (try assumption; lia).
    reflexivity.
Qed.

Lemma generate_shares_needs_csprng_witness :
  generate_shares example_secret (Py.Int 3) (Py.Int 2)
                  (mk_rng false (fun _ => 0) 0)
  = Err no_csprng.
Proof.
  apply (generate_shares_needs_csprng example_secret (Py.Int 3) (Py.Int 2)
           (mk_rng false (fun _ => 0) 0)).
  - reflexivity.
  - reflexivity.
  - apply example_secret_scalar.
  - reflexivity.
Defined.

(** ** [validate_shares] and the outcomes of [reconstruct_secret] *)

Lemma foldM_invariant {A S : Type} (P : S -> Prop)
    (f : S -> A -> result S) (l : list A) :
  (forall s a s', In a l -> P s -> f s a = Ok s' -> P s') ->
  forall s s', P s -> foldM f l s = Ok s' -> P s'.
Proof.
  induction l as [|a l IH]; intros Hf s s' Hs H; cbn [foldM] in H.
  - congruence.
  - destruct (f s a) as [s1|e] eqn:E; [|discriminate]. cbn [bind] in H.
    apply (IH (fun s0 a0 s0' Hin => Hf s0 a0 s0' (or_intror Hin)) s1 s');
      [|exact H].
    apply (Hf s a s1 (or_introl eq_refl) Hs E).
Qed.

(** *** Interpolation of the points that shares give *)

Lemma lagrange_basis_step_byte (x : Z) (i : nat) (xi li : Z)
    (entry : nat * (Z * Z)) (v : Z) :
  is_byte x -> is_byte xi -> is_byte (fst (snd entry)) -> is_byte li ->
  lagrange_basis_step x i xi li entry = Ok v -> is_byte v.
Proof.
  destruct entry as [j [xj yj]]. cbn [fst snd]. intros Hx Hxi Hxj Hli.
  unfold lagrange_basis_step.
  destruct (negb (i =? j)%nat); [|congruence].
  destruct (xi =? xj) eqn:E; [discriminate|].
  rewrite gf_div_quot by (rewrite lxor_eq_iff; lia).
  cbn [bind]. intros H.
  replace v with (_gf_mult li (gf_quot (Z.lxor x xj) (Z.lxor xi xj)))
    by congruence.
  apply gf_mult_byte; [assumption|].
  apply gf_quot_byte; apply lxor_byte; assumption.
Qed.

Lemma enumerate_snd_In {A : Type} (l : list A) (k : nat) (e : nat * A) :
  In e (combine (seq k (List.length l)) l) -> In (snd e) l.
Proof. destruct e as [j a]. intros H. apply in_combine_r in H. exact H. Qed.

(** A product read off the tables is a byte, whatever the factors. *)
Lemma gf_mult_table_byte (a b : Z) : is_byte (_gf_mult a b).
Proof.
  unfold _gf_mult. destruct ((a =? 0) || (b =? 0)); [unfold is_byte; lia|].
  assert (0 <= (znth _log_table a + znth _log_table b) mod 255 < 255) as Hm
    by (apply Z.mod_pos_bound; lia).
  pose proof (log_exp _ Hm). unfold is_byte. lia.
Qed.

Lemma lagrange_interpolation_byte (points : list (Z * Z)) (x v : Z) :
  Forall (fun p => is_byte (fst p)) points ->
  is_byte x ->
  _lagrange_interpolation points x = Ok v -> is_byte v.
Proof.
  intros Hb Hx. unfold _lagrange_interpolation.
  destruct points as [|p0 rest] eqn:Ep; [discriminate|]. rewrite <- Ep in *.
  clear Ep p0 rest.
  apply (foldM_invariant is_byte); [|unfold is_byte; lia].
  intros acc [i [xi yi]] acc' Hin Hacc. unfold lagrange_step.
  destruct (lagrange_basis points x i xi) as [li|e] eqn:El; [|discriminate].
  cbn [bind]. intros H.
  replace acc' with (Z.lxor acc (_gf_mult yi li)) by congruence.
  apply lxor_byte; [assumption|apply gf_mult_table_byte].
Qed.

Lemma lagrange_interpolation_ok_or (points : list (Z * Z)) (x : Z) :
  points <> [] ->
  (exists v, _lagrange_interpolation points x = Ok v)
  \/ _lagrange_interpolation points x = Err duplicate_x.
Proof.
  intros Hne. unfold _lagrange_interpolation.
  destruct points as [|p0 rest] eqn:Ep; [contradiction|]. rewrite <- Ep.
  apply foldM_ok_or. intros s a _. apply lagrange_step_ok_or.
Qed.

(** For byte points with distinct x the interpolation returns a byte. *)
Lemma lagrange_interpolation_total (points : list (Z * Z)) (x : Z) :
  Forall (fun p => is_byte (fst p) /\ is_byte (snd p)) points ->
  NoDup (map fst points) -> is_byte x -> points <> [] ->
  exists v, _lagrange_interpolation points x = Ok v /\ is_byte v.
Proof.
  intros Hb Hnd Hx Hne.
  assert (Forall is_byte (map fst points)) as Hbx.
  { apply Forall_map. revert Hb. apply Forall_impl. tauto. }
  assert (map fst points <> []) as Hn.
  { destruct points; [contradiction|discriminate]. }
  pose proof (value_at_points points Hb Hnd points (fun p H => H) Hnd Hb)
    as E.
  eexists. split.
  - rewrite <- E at 1. apply lagrange_interpolation_gf; assumption.
  - apply val_byte.
Qed.

(** *** Values below zero

    A share of the old hex layout can carry a value from -15 to -1.  The
    tables are then read from their end, so that the value counts as the
    byte 256 more. *)

Lemma table_index_byte (y : Z) : is_byte (table_index y).
Proof. unfold table_index, is_byte. apply Z.mod_pos_bound. lia. Qed.

Lemma table_index_small (y : Z) : is_byte y -> table_index y = y.
Proof. unfold table_index, is_byte. intros H. apply Z.mod_small. lia. Qed.

Lemma gf_mult_table_index (y b : Z) :
  -255 <= y <= 255 -> _gf_mult y b = _gf_mult (table_index y) b.
Proof.
  intros Hy. destruct (Z.ltb_spec y 0) as [Hneg|Hpos].
  - assert (table_index y = y + 256) as ->.
    { unfold table_index. symmetry. apply (Z.mod_unique y 256 (-1)); lia. }
    assert (znth _log_table y = znth _log_table (y + 256)) as Hl.
    { unfold znth. change (List.length _log_table) with 256%nat.
      replace (y <? 0) with true by (symmetry; apply Z.ltb_lt; lia).
      replace (y + 256 <? 0) with false by (symmetry; apply Z.ltb_ge; lia).
      f_equal. lia. }
    unfold _gf_mult. rewrite Hl.
    replace (y =? 0) with false by (symmetry; apply Z.eqb_neq; lia).
    replace (y + 256 =? 0) with false by (symmetry; apply Z.eqb_neq; lia).
    reflexivity.
  - rewrite table_index_small by (unfold is_byte; lia). reflexivity.
Qed.

(** The basis factors depend on the x-coordinates only. *)
Lemma lagrange_basis_ys (f : Z -> Z) (x : Z) (i : nat) (xi : Z)
    (points : list (Z * Z)) :
  lagrange_basis (map (fun p => (fst p, f (snd p))) points) x i xi
  = lagrange_basis points x i xi.
Proof.
  unfold lagrange_basis, enumerate. rewrite length_map.
  generalize 0%nat. generalize 1.
  induction points as [|[xj yj] l IH]; intros li k; [reflexivity|].
  cbn [map fst snd List.length seq combine foldM].
  change (lagrange_basis_step x i xi li (k, (xj, f yj)))
    with (lagrange_basis_step x i xi li (k, (xj, yj))).
  destruct (lagrange_basis_step x i xi li (k, (xj, yj))); cbn [bind];
    [apply IH|reflexivity].
Qed.

Lemma lagrange_interpolation_table_index (points : list (Z * Z)) (x : Z) :
  Forall (fun p => -255 <= snd p <= 255) points ->
  _lagrange_interpolation points x
  = _lagrange_interpolation
      (map (fun p => (fst p, table_index (snd p))) points) x.
Proof.
  intros H.
  assert (forall (l : list (Z * Z)) (k : nat) (acc : Z),
            Forall (fun p => -255 <= snd p <= 255) l ->
            foldM (lagrange_step points x)
                  (combine (seq k (List.length l)) l) acc
            = foldM (lagrange_step
                       (map (fun p => (fst p, table_index (snd p))) points)
                       x)
                    (combine (seq k (List.length l))
                             (map (fun p => (fst p, table_index (snd p))) l))
                    acc) as Hloop.
  { induction l as [|[xi yi] l IH]; intros k acc Hl; [reflexivity|].
    inversion Hl as [|? ? Hy Hl']; subst. cbn [snd] in Hy.
    cbn [map fst snd List.length seq combine foldM].
    unfold lagrange_step at 1 3.
    rewrite lagrange_basis_ys.
    destruct (lagrange_basis points x k xi) as [li|e]; cbn [bind];
      [|reflexivity].
    rewrite <- gf_mult_table_index by exact Hy. apply IH, Hl'. }
  unfold _lagrange_interpolation, enumerate.
  destruct points as [|p0 rest]; [reflexivity|].
  rewrite (Hloop (p0 :: rest) 0%nat 0 H), length_map. reflexivity.
Qed.

(** For points with distinct byte x-coordinates and share values the
    interpolation returns a byte. *)
Lemma lagrange_interpolation_values (points : list (Z * Z)) (x : Z) :
  Forall (fun p => is_byte (fst p) /\ is_share_value (snd p)) points ->
  NoDup (map fst points) -> is_byte x -> points <> [] ->
  exists v, _lagrange_interpolation points x = Ok v /\ is_byte v.
Proof.
  intros Hb Hnd Hx Hne.
  rewrite lagrange_interpolation_table_index.
  - apply lagrange_interpolation_total.
    + apply Forall_map. revert Hb. apply Forall_impl.
      intros [xi yi] [Hxi _]. cbn [fst snd].
      split; [exact Hxi|apply table_index_byte].
    + rewrite map_map. cbn [fst]. exact Hnd.
    + exact Hx.
    + destruct points; [contradiction|discriminate].
  - revert Hb. apply Forall_impl. unfold is_share_value. intros p [_ H]. lia.
Qed.

(** *** The byte loop of [reconstruct_secret] *)

Lemma well_parsed_points (parsed : list (Z * list Z)) (n t : nat) :
  Forall (fun p => 1 <= fst p <= 255
                   /\ List.length (snd p) = n
                   /\ Forall is_share_value (snd p)) parsed ->
  (t < n)%nat ->
  Forall (fun p => is_byte (fst p) /\ is_share_value (snd p))
         (map (fun '(share_id, values) => (share_id, nth t values 0)) parsed).
Proof.
  intros H Ht. apply Forall_map. revert H. apply Forall_impl.
  intros [share_id values]. cbn [fst snd]. intros [Hid [Hl Hb]].
  split; [unfold is_byte; lia|].
  rewrite Forall_forall in Hb. apply Hb, nth_In. lia.
Qed.

Lemma points_fst (parsed : list (Z * list Z)) (t : nat) :
  map fst (map (fun '(share_id, values) => (share_id, nth t values 0))
               parsed)
  = map fst parsed.
Proof.
  rewrite map_map. apply map_ext. intros [share_id values]. reflexivity.
Qed.

Lemma reconstruct_loop_ok_or (parsed : list (Z * list Z)) (n : nat) :
  parsed <> [] ->
  Forall (fun p => 1 <= fst p <= 255
                   /\ List.length (snd p) = n
                   /\ Forall is_share_value (snd p)) parsed ->
  forall (m k : nat) (acc : list Z),
  (k + m <= n)%nat -> Forall is_byte acc ->
  (exists bytes, foldM (reconstruct_byte parsed) (seq k m) acc = Ok bytes
                 /\ Forall is_byte bytes)
  \/ foldM (reconstruct_byte parsed) (seq k m) acc = Err duplicate_x.
Proof.
  intros Hne Hwp. induction m as [|m IH]; intros k acc Hk Hacc.
  - left. exists acc. split; [reflexivity|assumption].
  - cbn [seq foldM].
    set (points := map (fun '(share_id, values) => (share_id, nth k values 0))
                       parsed).
    assert (points <> []) as Hpne
      by (subst points; destruct parsed; [contradiction|discriminate]).
    assert (reconstruct_byte parsed acc k
            = (secret_byte <- _lagrange_interpolation points 0 ;;
               Ok (acc ++ [secret_byte]))) as Hstep by reflexivity.
    rewrite Hstep.
    destruct (lagrange_interpolation_ok_or points 0 Hpne) as [[v Hv]|He].
    + rewrite Hv. cbn [bind].
      apply IH; [lia|]. apply Forall_app. split; [assumption|].
      constructor; [|constructor].
      apply (lagrange_interpolation_byte points 0 v);
        [|unfold is_byte; lia|exact Hv].
      assert (Forall (fun p => is_byte (fst p) /\ is_share_value (snd p))
                     points) as Hp
        by (apply (well_parsed_points parsed n k Hwp); lia).
      revert Hp. apply Forall_impl. tauto.
    + rewrite He. right. reflexivity.
Qed.

Lemma reconstruct_loop_total (parsed : list (Z * list Z)) (n : nat) :
  parsed <> [] -> NoDup (map fst parsed) ->
  Forall (fun p => 1 <= fst p <= 255
                   /\ List.length (snd p) = n
                   /\ Forall is_share_value (snd p)) parsed ->
  forall (m k : nat) (acc : list Z),
  (k + m <= n)%nat -> Forall is_byte acc ->
  exists bytes, foldM (reconstruct_byte parsed) (seq k m) acc = Ok bytes
                /\ Forall is_byte bytes.
Proof.
  intros Hne Hnd Hwp. induction m as [|m IH]; intros k acc Hk Hacc.
  - exists acc. split; [reflexivity|assumption].
  - cbn [seq foldM]. unfold reconstruct_byte at 1.
    set (points := map (fun '(share_id, values) => (share_id, nth k values 0))
                       parsed).
    destruct (lagrange_interpolation_values points 0) as [v [Hv Hvb]].
    + apply (well_parsed_points parsed n k Hwp). lia.
    + subst points. rewrite points_fst. exact Hnd.
    + unfold is_byte. lia.
    + subst points. destruct parsed; [contradiction|discriminate].
    + rewrite Hv. cbn [bind]. apply IH; [lia|].
      apply Forall_app. split; [assumption|]. constructor; [assumption|constructor].
Qed.

Lemma byte_share_value (v : Z) : is_byte v -> is_share_value v.
Proof. unfold is_byte, is_share_value. lia. Qed.

Lemma bytes_share_values (values : list Z) :
  Forall is_byte values -> Forall is_share_value values.
Proof. apply Forall_impl, byte_share_value. Qed.

(** *** The parsing loop on share strings without a dash *)

(** [_parse_base62_share] raises nothing but [ValueError]. *)
Lemma parse_base62_share_error (share_str : string) (e : exn) :
  _parse_base62_share share_str = Err e -> exists m, e = ValueError m.
Proof.
  unfold _parse_base62_share.
  destruct (parse_base62_share_body share_str) as [p|e0]; [discriminate|].
  intros H. exists ("Failed to parse share: " ++ exn_str e0)%string.
  congruence.
Qed.

Lemma well_parsed_snoc (parsed : list (Z * list Z)) (sl : option nat)
    (share_id : Z) (values : list Z) (n : nat) :
  well_parsed (parsed, sl) ->
  sl = None \/ sl = Some n ->
  1 <= share_id <= 255 -> List.length values = n ->
  Forall is_share_value values ->
  well_parsed (parsed ++ [(share_id, values)], Some n).
Proof.
  unfold well_parsed. cbn [fst snd]. intros Hwp Hsl Hid Hl Hb.
  split; [destruct parsed; discriminate|].
  apply Forall_app. split.
  - destruct Hsl as [->| ->]; [subst parsed; constructor|apply Hwp].
  - constructor; [|constructor]. cbn [fst snd]. auto.
Qed.

Lemma firstn_length_exact {A : Type} (n : nat) (l : list A) :
  (n <= List.length l)%nat -> List.length (firstn n l) = n.
Proof. intros H. rewrite length_firstn. lia. Qed.

Lemma parse_one_no_dash (st : parse_state) (share_str : string) :
  Py.contains share_str "-" = false ->
  well_parsed st ->
  (exists p n,
     parse_one st share_str = Ok (fst st ++ [p], Some n)
     /\ (snd st = None \/ snd st = Some n)
     /\ well_parsed (fst st ++ [p], Some n)
     /\ exists values,
          _parse_base62_share share_str = Ok (fst p, values)
          /\ snd p = firstn n values)
  \/ parse_one st share_str = Err invalid_format.
Proof.
  intros Hdash Hwp. destruct st as [parsed sl]. cbn [fst snd].
  assert (accept_hex (parsed, sl) share_str
          = Err (ValueError "Invalid share format")) as Hhex.
  { unfold accept_hex. rewrite Hdash. reflexivity. }
  unfold parse_one, accept_base62.
  destruct (_parse_base62_share share_str) as [[share_id values]|e] eqn:Ep.
  - destruct (parse_base62_share_bytes _ _ _ Ep) as [Hid Hb].
    apply bytes_share_values in Hb.
    cbn [bind]. destruct sl as [n|].
    + destruct (List.length values =? n)%nat eqn:E; cbn [negb].
      * apply Nat.eqb_eq in E. left. exists (share_id, values), n.
        split; [reflexivity|]. split; [auto|].
        split; [apply (well_parsed_snoc _ (Some n)); auto; lia|].
        exists values. split; [reflexivity|]. cbn [snd].
        rewrite <- E. symmetry. apply firstn_all.
      * destruct (n <? List.length values)%nat eqn:E'.
        -- apply Nat.ltb_lt in E'. left.
           exists (share_id, firstn n values), n.
           split; [reflexivity|]. split; [auto|].
           split; [|exists values; split; reflexivity].
           apply (well_parsed_snoc _ (Some n)); auto; try lia.
           ++ apply firstn_length_exact. lia.
           ++ apply firstn_Forall, Hb.
        -- right. rewrite Hhex. reflexivity.
    + left. exists (share_id, values), (List.length values).
      split; [reflexivity|]. split; [auto|].
      split; [apply (well_parsed_snoc _ None); auto; lia|].
      exists values. split; [reflexivity|]. cbn [snd].
      symmetry. apply firstn_all.
  - right. cbn [bind].
    destruct (parse_base62_share_error _ _ Ep) as [m ->].
    rewrite Hhex. reflexivity.
Qed.

Lemma parse_loop_no_dash (shares : list string) :
  Forall (fun s => Py.contains s "-" = false) shares ->
  forall st, well_parsed st ->
  (exists st', foldM parse_one shares st = Ok st' /\ well_parsed st'
               /\ (shares <> [] -> fst st' <> []))
  \/ foldM parse_one shares st = Err invalid_format.
Proof.
  induction 1 as [|s shares Hs _ IH]; intros st Hwp.
  - left. exists st. split; [reflexivity|]. split; [assumption|].
    intros H. contradiction.
  - cbn [foldM].
    destruct (parse_one_no_dash st s Hs Hwp)
      as [[p [n [Hp [_ [Hwp' _]]]]]|He].
    + rewrite Hp. cbn [bind].
      destruct (IH _ Hwp') as [[st' [Hf [Hw Hne]]]|Hf].
      * left. exists st'. split; [exact Hf|]. split; [exact Hw|].
        intros _. unfold well_parsed in Hw.
        destruct (snd st') eqn:E; [apply Hw|].
        destruct shares as [|s2 shares].
        -- cbn [foldM] in Hf. injection Hf as <-. discriminate.
        -- apply Hne. discriminate.
      * right. exact Hf.
    + rewrite He. right. reflexivity.
Qed.

Lemma parse_one_error (st : parse_state) (share_str : string) (e : exn) :
  Py.contains share_str "-" = false ->
  _parse_base62_share share_str = Err e ->
  parse_one st share_str = Err invalid_format.
Proof.
  intros Hdash Hp. destruct st as [parsed sl].
  unfold parse_one, accept_base62. rewrite Hp. cbn [bind].
  destruct (parse_base62_share_error _ _ Hp) as [m ->].
  unfold accept_hex. rewrite Hdash. reflexivity.
Qed.

Lemma parse_loop_error (shares : list string) (bad : string) (e : exn) :
  Forall (fun s => Py.contains s "-" = false) shares ->
  In bad shares -> _parse_base62_share bad = Err e ->
  forall st, well_parsed st ->
  foldM parse_one shares st = Err invalid_format.
Proof.
  induction 1 as [|s shares Hs Hrest IH]; intros Hin Hbad st Hwp;
    [contradiction|].
  cbn [foldM]. destruct Hin as [->|Hin].
  - rewrite (parse_one_error st bad e Hs Hbad). reflexivity.
  - destruct (parse_one_no_dash st s Hs Hwp)
      as [[p [n [Hp [_ [Hwp' _]]]]]|He].
    + rewrite Hp. cbn [bind]. apply IH; assumption.
    + rewrite He. reflexivity.
Qed.

(** Everything [reconstruct_secret] can do with share strings that have
    no dash, that is, outside the old hex layout: it returns a string, or
    raises one of four errors: no shares, a share that cannot be used (all
    causes, from a bad character to too few values, are reported as an
    invalid format, which is the answer whenever some share does not
    parse), duplicate x-coordinates, or bytes that are not UTF-8. *)
Theorem reconstruct_secret_outcomes (shares : list string) :
  Forall (fun s => Py.contains s "-" = false) shares ->
  ((exists secret, reconstruct_secret shares = Ok secret)
   \/ reconstruct_secret shares = Err (ValueError "No shares provided")
   \/ reconstruct_secret shares = Err invalid_format
   \/ reconstruct_secret shares = Err duplicate_x
   \/ reconstruct_secret shares = Err bad_utf8)
  /\ (shares = [] <->
      reconstruct_secret shares = Err (ValueError "No shares provided"))
  /\ (forall bad e,
        In bad shares -> _parse_base62_share bad = Err e ->
        reconstruct_secret shares = Err invalid_format).
Proof.
  intros Hd.
  assert (well_parsed ([], None)) as Hw0 by reflexivity.
  split; [|split].
  - destruct shares as [|s rest] eqn:Es; [auto|]. rewrite <- Es in *.
    assert (shares <> []) as Hne by (rewrite Es; discriminate).
    unfold reconstruct_secret. rewrite Es. rewrite <- Es.
    destruct (parse_loop_no_dash shares Hd _ Hw0)
      as [[[parsed sl] [Hf [Hw Hp]]]|Hf].
    + rewrite Hf. cbn [bind]. specialize (Hp Hne). cbn [fst] in Hp.
      destruct parsed as [|p others] eqn:Epa; [contradiction|].
      rewrite <- Epa in *.
      unfold well_parsed in Hw. cbn [fst snd] in Hw.
      destruct sl as [n|]; [|contradiction].
      destruct Hw as [_ Hw].
      destruct (reconstruct_loop_ok_or parsed n Hp Hw n 0 []
                  ltac:(lia) (Forall_nil _)) as [[bytes [Hl Hb]]|Hl].
      * rewrite Hl. cbn [bind]. rewrite bytes_of_list_ok by assumption.
        cbn [bind].
        destruct (Utf8.decode bytes) as [secret|e] eqn:E; [eauto|].
        rewrite (utf8_decode_error _ _ E). auto 6.
      * rewrite Hl. cbn [bind]. auto 6.
    + rewrite Hf. cbn [bind]. auto.
  - split; [intros ->; reflexivity|].
    destruct shares as [|s rest] eqn:Es; [reflexivity|]. rewrite <- Es in *.
    assert (shares <> []) as Hne by (rewrite Es; discriminate).
    unfold reconstruct_secret. rewrite Es. rewrite <- Es.
    destruct (parse_loop_no_dash shares Hd _ Hw0)
      as [[[parsed sl] [Hf [Hw Hp]]]|Hf].
    + rewrite Hf. cbn [bind]. specialize (Hp Hne). cbn [fst] in Hp.
      destruct parsed as [|p others] eqn:Epa; [contradiction|].
      rewrite <- Epa in *.
      unfold well_parsed in Hw. cbn [fst snd] in Hw.
      destruct sl as [n|]; [|contradiction].
      destruct Hw as [_ Hw].
      destruct (reconstruct_loop_ok_or parsed n Hp Hw n 0 []
                  ltac:(lia) (Forall_nil _)) as [[bytes [Hl Hb]]|Hl].
      * rewrite Hl. cbn [bind]. rewrite bytes_of_list_ok by assumption.
        cbn [bind].
        destruct (Utf8.decode bytes) as [secret|e] eqn:E; [discriminate|].
        rewrite (utf8_decode_error _ _ E). discriminate.
      * rewrite Hl. cbn [bind]. discriminate.
    + rewrite Hf. cbn [bind]. discriminate.
  - intros bad e Hin Hbad.
    destruct shares as [|s rest] eqn:Es; [contradiction|].
    rewrite <- Es in *.
    unfold reconstruct_secret. rewrite Es. rewrite <- Es.
    rewrite (parse_loop_error shares bad e Hd Hin Hbad _ Hw0).
    reflexivity.
Qed.

Lemma reconstruct_secret_outcomes_witness :
  ((exists secret, reconstruct_secret ["4gfFC4"; "A!"] = Ok secret)
   \/ reconstruct_secret ["4gfFC4"; "A!"]
      = Err (ValueError "No shares provided")
   \/ reconstruct_secret ["4gfFC4"; "A!"] = Err invalid_format
   \/ reconstruct_secret ["4gfFC4"; "A!"] = Err duplicate_x
   \/ reconstruct_secret ["4gfFC4"; "A!"] = Err bad_utf8)
  /\ (["4gfFC4"; "A!"] = [] <->
      reconstruct_secret ["4gfFC4"; "A!"]
      = Err (ValueError "No shares provided"))
  /\ (forall bad e,
        In bad ["4gfFC4"; "A!"] -> _parse_base62_share bad = Err e ->
        reconstruct_secret ["4gfFC4"; "A!"] = Err invalid_format).
Proof.
  apply (reconstruct_secret_outcomes ["4gfFC4"; "A!"]).
  repeat (constructor; [reflexivity|]). constructor.
Defined.

(** *** [validate_shares] *)

Lemma hex_pairs_checked : hex_pairs_check = true.
Proof. vm_cast_no_check (eq_refl true). Qed.

Lemma all_chars_In (c : ascii) : In c all_chars.
Proof.
  unfold all_chars. rewrite <- (ascii_nat_embedding c).
  apply in_map, in_seq. pose proof (nat_ascii_bounded c). lia.
Qed.

(** Two characters that [int(_, 16)] accepts stand for a share value:
    two digits for a byte, a sign and a digit for a number from -15 to
    15, a blank and a digit for a number up to 15. *)
Lemma int_base16_pair (c1 c2 : ascii) (v : Z) :
  Py.int_base16 (String c1 (String c2 EmptyString)) = Ok v ->
  is_share_value v.
Proof.
  intros H. pose proof hex_pairs_checked as Hc. unfold hex_pairs_check in Hc.
  rewrite forallb_forall in Hc. specialize (Hc c1 (all_chars_In c1)).
  rewrite forallb_forall in Hc. specialize (Hc c2 (all_chars_In c2)).
  unfold hex_pair_check in Hc. rewrite H in Hc.
  apply andb_true_iff in Hc. unfold is_share_value. lia.
Qed.

(** Some spellings that [int(_, 16)] accepts, and some it refuses. *)
Example int_base16_spellings :
  Py.int_base16 "ff" = Ok 255
  /\ Py.int_base16 "-1" = Ok (-1)
  /\ Py.int_base16 "+f" = Ok 15
  /\ Py.int_base16 " 0x1F " = Ok 31
  /\ Py.int_base16 "1_0" = Ok 16
  /\ Py.int_base16 "0g"
     = Err (ValueError "invalid literal for int() with base 16: '0g'")
  /\ Py.int_base16 "1__0"
     = Err (ValueError "invalid literal for int() with base 16: '1__0'")
  /\ Py.int_base16 "- 1"
     = Err (ValueError "invalid literal for int() with base 16: '- 1'")
  /\ Py.int_base16 EmptyString
     = Err (ValueError "invalid literal for int() with base 16: ''").
Proof. vm_compute. repeat split. Qed.

Lemma hex_pairs_values (s : string) :
  (forall values, hex_pairs s = Ok values -> Forall is_share_value values)
  /\ (forall c values,
        hex_pairs (String c s) = Ok values -> Forall is_share_value values).
Proof.
  induction s as [|c' s [IH1 IH2]].
  - split.
    + intros values H. cbn [hex_pairs] in H.
      replace values with (@nil Z) by congruence. constructor.
    + intros c values H. cbn [hex_pairs] in H.
      replace values with (@nil Z) by congruence. constructor.
  - split; [apply IH2|].
    intros c values H. cbn [hex_pairs] in H.
    destruct (Py.int_base16 (String c (String c' EmptyString)))
      as [v|e] eqn:Ev; [|discriminate].
    cbn [bind] in H.
    destruct (hex_pairs s) as [vs|e] eqn:Es; [|discriminate].
    cbn [bind] in H. replace values with (v :: vs) by congruence.
    constructor; [apply (int_base16_pair _ _ _ Ev)|apply IH1; reflexivity].
Qed.

(** Every early return of the loop of [validate_shares] is a refusal. *)
Lemma validate_one_inl (st : validate_state) (entry : nat * string)
    (answer : bool * string) :
  validate_one st entry = inl answer -> fst answer = false.
Proof.
  destruct st as [sl ids]. destruct entry as [i s]. unfold validate_one.
  intros H.
  repeat match type of H with
         | context [if ?c then _ else _] => destruct c
         | context [match ?x with _ => _ end] => destruct x
         end;
    try discriminate;
    match type of H with
    | inl ?a = inl _ => replace answer with a by congruence; reflexivity
    end.
Qed.

(** A share that the loop of [validate_shares] lets pass is accepted by
    the parsing loop of [reconstruct_secret] with the same id and
    values. *)
Lemma validate_one_inr (sl : option nat) (ids : list Z) (i : nat)
    (s : string) (st' : validate_state) :
  validate_one (sl, ids) (i, s) = inr st' ->
  exists share_id values,
    st' = (Some (List.length values), share_id :: ids)
    /\ (sl = None \/ sl = Some (List.length values))
    /\ existsb (Z.eqb share_id) ids = false
    /\ 1 <= share_id <= 255 /\ Forall is_share_value values
    /\ forall parsed,
         parse_one (parsed, sl) s
         = Ok (parsed ++ [(share_id, values)], Some (List.length values)).
Proof.
  unfold validate_one.
  destruct (_parse_base62_share s) as [[share_id values]|e] eqn:Ep.
  - destruct (existsb (Z.eqb share_id) ids) eqn:Ex; [discriminate|].
    destruct (parse_base62_share_bytes _ _ _ Ep) as [Hid Hb].
    apply bytes_share_values in Hb.
    intros H. exists share_id, values.
    assert (forall parsed n, sl = None \/ sl = Some n ->
              List.length values = n ->
              parse_one (parsed, sl) s
              = Ok (parsed ++ [(share_id, values)], Some n)) as Hparse.
    { intros parsed n Hsl Hn. unfold parse_one, accept_base62.
      rewrite Ep. cbn [bind]. destruct Hsl as [->| ->].
      - rewrite Hn. reflexivity.
      - rewrite Hn, Nat.eqb_refl. reflexivity. }
    destruct sl as [n|].
    + destruct (List.length values =? n)%nat eqn:E; cbn [negb] in H;
        [|discriminate].
      apply Nat.eqb_eq in E.
      split; [rewrite E; congruence|]. split; [rewrite E; auto|].
      split; [exact Ex|]. split; [lia|]. split; [exact Hb|].
      intros parsed. apply Hparse; auto.
    + split; [congruence|]. split; [auto|]. split; [exact Ex|].
      split; [lia|]. split; [exact Hb|].
      intros parsed. apply Hparse; auto.
  - destruct (parse_base62_share_error _ _ Ep) as [m ->].
    destruct (negb (Py.contains s "-")) eqn:Ed; [discriminate|].
    destruct (Py.split_first s "-") as [share_id_hex values_hex] eqn:Es.
    destruct (Py.int_base16 share_id_hex) as [share_id|e] eqn:Ei;
      [|discriminate].
    destruct ((share_id <? 1) || (255 <? share_id)) eqn:Er; [discriminate|].
    destruct (existsb (Z.eqb share_id) ids) eqn:Ex; [discriminate|].
    destruct (negb (String.length values_hex mod 2 =? 0)%nat) eqn:Eo;
      [discriminate|].
    destruct (String.length values_hex =? 0)%nat eqn:Ez; [discriminate|].
    destruct (hex_pairs values_hex) as [values|e] eqn:Eh; [|discriminate].
    pose proof (proj1 (hex_pairs_values values_hex) values Eh) as Hb.
    intros H. exists share_id, values.
    assert (forall parsed n, sl = None \/ sl = Some n ->
              List.length values = n ->
              parse_one (parsed, sl) s
              = Ok (parsed ++ [(share_id, values)], Some n)) as Hparse.
    { intros parsed n Hsl Hn. unfold parse_one, accept_base62.
      rewrite Ep. cbn [bind]. unfold accept_hex.
      rewrite Ed, Es, Ei. cbn [bind]. rewrite Er, Eo, Eh. cbn [bind].
      destruct Hsl as [->| ->].
      - rewrite Hn. reflexivity.
      - rewrite Hn, Nat.eqb_refl. reflexivity. }
    destruct sl as [n|].
    + destruct (List.length values =? n)%nat eqn:E; cbn [negb] in H;
        [|discriminate].
      apply Nat.eqb_eq in E.
      split; [rewrite E; congruence|]. split; [rewrite E; auto|].
      split; [exact Ex|]. split; [lia|]. split; [exact Hb|].
      intros parsed. apply Hparse; auto.
    + split; [congruence|]. split; [auto|]. split; [exact Ex|].
      split; [lia|]. split; [exact Hb|].
      intros parsed. apply Hparse; auto.
Qed.

Lemma existsb_eqb_false (x : Z) (l : list Z) :
  existsb (Z.eqb x) l = false -> ~ In x l.
Proof.
  intros H Hin.
  assert (existsb (Z.eqb x) l = true) as H'
    by (apply existsb_exists; exists x; split; [assumption|apply Z.eqb_refl]).
  congruence.
Qed.

Lemma NoDup_snoc {A : Type} (l : list A) (a : A) :
  NoDup l -> ~ In a l -> NoDup (l ++ [a]).
Proof.
  induction 1 as [|b l Hb Hnd IH]; intros Ha; cbn [app].
  - constructor; [intros []|constructor].
  - constructor.
    + intros Hin. apply in_app_or in Hin. destruct Hin as [Hin|[->|[]]].
      * contradiction.
      * apply Ha. left. reflexivity.
    + apply IH. intros Hin. apply Ha. right. exact Hin.
Qed.

(** What the loop of [validate_shares] accepts, the parsing loop of
    [reconstruct_secret] accepts, with pairwise distinct share ids. *)
Lemma validate_loop_sound (l : list string) :
  forall (k : nat) (sl : option nat) (ids : list Z)
         (parsed : list (Z * list Z)),
  fst (validate_loop (combine (seq k (List.length l)) l) (sl, ids)) = true ->
  well_parsed (parsed, sl) -> NoDup (map fst parsed) ->
  (forall share_id, In share_id (map fst parsed) -> In share_id ids) ->
  exists parsed' sl',
    foldM parse_one l (parsed, sl) = Ok (parsed', sl')
    /\ well_parsed (parsed', sl') /\ NoDup (map fst parsed')
    /\ List.length parsed' = (List.length parsed + List.length l)%nat.
Proof.
  induction l as [|s l IH]; intros k sl ids parsed Hv Hwp Hnd Hids.
  - exists parsed, sl. cbn [List.length]. rewrite Nat.add_0_r. auto.
  - cbn [List.length seq combine validate_loop] in Hv.
    destruct (validate_one (sl, ids) (k, s)) as [answer|st'] eqn:E.
    { rewrite (validate_one_inl _ _ _ E) in Hv. discriminate. }
    destruct (validate_one_inr _ _ _ _ _ E)
      as [share_id [values [-> [Hsl [Hex [Hid [Hb Hparse]]]]]]].
    apply existsb_eqb_false in Hex.
    destruct (IH (S k) (Some (List.length values)) (share_id :: ids)
                 (parsed ++ [(share_id, values)]) Hv)
      as [parsed' [sl' [Hf [Hwp' [Hnd' Hlen]]]]].
    + apply (well_parsed_snoc _ sl); auto.
    + rewrite map_app. cbn [map fst].
      apply NoDup_snoc; [exact Hnd|].
      intros Hin. apply Hex, Hids, Hin.
    + intros x Hx. rewrite map_app in Hx. apply in_app_or in Hx.
      destruct Hx as [Hx|[<-|[]]]; [right; apply Hids, Hx|left; reflexivity].
    + exists parsed', sl'. cbn [foldM]. rewrite Hparse. cbn [bind].
      split; [exact Hf|]. split; [exact Hwp'|]. split; [exact Hnd'|].
      rewrite Hlen, length_app. cbn [List.length]. lia.
Qed.


(** *** Validation before reconstruction *)

Lemma validate_shares_loop (shares : list string) :
  fst (validate_shares shares) = true ->
  (2 <= List.length shares)%nat
  /\ fst (validate_loop (enumerate shares) (None, [])) = true.
Proof.
  unfold validate_shares. destruct shares as [|s rest] eqn:Es;
    [discriminate|]. rewrite <- Es.
  destruct (List.length shares <? 2)%nat eqn:E; [discriminate|].
  apply Nat.ltb_ge in E. auto.
Qed.

Lemma validated_parse (shares : list string) :
  fst (validate_shares shares) = true ->
  (2 <= List.length shares)%nat
  /\ exists parsed n,
       foldM parse_one shares ([], None) = Ok (parsed, Some n)
       /\ List.length parsed = List.length shares
       /\ NoDup (map fst parsed)
       /\ Forall (fun p => 1 <= fst p <= 255
                           /\ List.length (snd p) = n
                           /\ Forall is_share_value (snd p)) parsed.
Proof.
  intros Hv. destruct (validate_shares_loop _ Hv) as [Hlen Hloop].
  split; [exact Hlen|].
  destruct (validate_loop_sound shares 0 None [] [] Hloop eq_refl
              (NoDup_nil _) (fun x H => H))
    as [parsed [sl [Hf [Hwp [Hnd Hl]]]]].
  cbn [List.length Nat.add] in Hl.
  unfold well_parsed in Hwp. cbn [fst snd] in Hwp.
  destruct sl as [n|].
  - exists parsed, n. destruct Hwp as [_ Hwp]. auto.
  - subst parsed. cbn in Hl. lia.
Qed.

Lemma validated_reconstruct (shares : list string) :
  fst (validate_shares shares) = true ->
  (2 <= List.length shares)%nat
  /\ (exists parsed n,
        foldM parse_one shares ([], None) = Ok (parsed, Some n)
        /\ List.length parsed = List.length shares
        /\ NoDup (map fst parsed)
        /\ Forall (fun p => 1 <= fst p <= 255
                            /\ List.length (snd p) = n
                            /\ Forall is_share_value (snd p)) parsed)
  /\ ((exists secret, reconstruct_secret shares = Ok secret)
      \/ reconstruct_secret shares = Err bad_utf8).
Proof.
  intros Hv. destruct (validated_parse _ Hv)
    as [Hlen [parsed [n [Hf [Hl [Hnd Hwp]]]]]].
  split; [exact Hlen|]. split; [exists parsed, n; auto|].
  assert (parsed <> []) as Hne by (intros ->; cbn in Hl; lia).
  assert (shares <> []) as Hsne by (intros ->; cbn in Hlen; lia).
  destruct (reconstruct_loop_total parsed n Hne Hnd Hwp n 0 []
              ltac:(lia) (Forall_nil _)) as [bytes [Hb Hbb]].
  rewrite (reconstruct_secret_bytes shares parsed n bytes Hsne Hne Hf Hb Hbb).
  destruct (Utf8.decode bytes); eauto.
Qed.

(** What [validate_shares] accepts, [reconstruct_secret] can work on:
    after a successful validation the list has at least two shares, every
    share is parsed, in the current format or in the old hex layout, with
    pairwise distinct ids in 1..255 and the same number of values, each
    of them a byte or, for a signed pair of the hex layout, a number from
    -15 to -1; the interpolation raises nothing, and [reconstruct_secret]
    returns a string unless the interpolated bytes are not UTF-8. *)
Theorem validated_shares_reconstruct (shares : list string) :
  fst (validate_shares shares) = true ->
  (2 <= List.length shares)%nat
  /\ (exists parsed n,
        foldM parse_one shares ([], None) = Ok (parsed, Some n)
        /\ List.length parsed = List.length shares
        /\ NoDup (map fst parsed)
        /\ Forall (fun p => 1 <= fst p <= 255
                            /\ List.length (snd p) = n
                            /\ Forall is_share_value (snd p)) parsed)
  /\ ((exists secret, reconstruct_secret shares = Ok secret)
      \/ reconstruct_secret shares = Err bad_utf8).
Proof. apply validated_reconstruct. Qed.

Lemma validated_shares_reconstruct_witness :
  (2 <= List.length ["1--1"; "2-26"])%nat
  /\ (exists parsed n,
        foldM parse_one ["1--1"; "2-26"] ([], None) = Ok (parsed, Some n)
        /\ List.length parsed = List.length ["1--1"; "2-26"]
        /\ NoDup (map fst parsed)
        /\ Forall (fun p => 1 <= fst p <= 255
                            /\ List.length (snd p) = n
                            /\ Forall is_share_value (snd p)) parsed)
  /\ ((exists secret, reconstruct_secret ["1--1"; "2-26"] = Ok secret)
      \/ reconstruct_secret ["1--1"; "2-26"] = Err bad_utf8).
Proof.
  apply (validated_shares_reconstruct ["1--1"; "2-26"]).
  vm_compute. reflexivity.
Defined.

(** Two shares of the old hex layout, the first with a signed value:
    ["-1"] is read as -1, which the tables take for the byte 255. *)
Example signed_hex_shares :
  validate_shares ["1--1"; "2-26"] = (true, EmptyString)
  /\ foldM parse_one ["1--1"; "2-26"] ([], None)
     = Ok ([(1, [-1]); (2, [38])], Some 1%nat)
  /\ reconstruct_secret ["1--1"; "2-26"] = Ok [65].
Proof. vm_compute. repeat split. Qed.

(** *** Shares of the current format *)

Lemma existsb_eqb_notin (x : Z) (l : list Z) :
  ~ In x l -> existsb (Z.eqb x) l = false.
Proof.
  intros H. destruct (existsb (Z.eqb x) l) eqn:E; [|reflexivity].
  apply existsb_exists in E. destruct E as [y [Hy Hxy]].
  apply Z.eqb_eq in Hxy. subst y. contradiction.
Qed.

Lemma validate_loop_base62 (n : nat) (l : list string) :
  forall (k : nat) (sl : option nat) (ids : list Z),
  sl = None \/ sl = Some n ->
  (forall s, In s l ->
     exists p, _parse_base62_share s = Ok p /\ List.length (snd p) = n) ->
  NoDup (map (fun s => fst (parsed_of s)) l) ->
  (forall s, In s l -> ~ In (fst (parsed_of s)) ids) ->
  validate_loop (combine (seq k (List.length l)) l) (sl, ids)
  = (true, EmptyString).
Proof.
  induction l as [|s l IH]; intros k sl ids Hsl Hp Hnd Hids; [reflexivity|].
  cbn [List.length seq combine validate_loop].
  destruct (Hp s (or_introl eq_refl)) as [[share_id values] [Hs Hn]].
  cbn [snd] in Hn.
  assert (parsed_of s = (share_id, values)) as Hpo
    by (unfold parsed_of; rewrite Hs; reflexivity).
  pose proof (Hids s (or_introl eq_refl)) as Hnew.
  rewrite Hpo in Hnew. cbn [fst] in Hnew.
  cbn [map] in Hnd. rewrite Hpo in Hnd. cbn [fst] in Hnd.
  inversion Hnd as [|? ? Hnotin Hnd']; subst.
  assert (validate_one (sl, ids) (k, s)
          = inr (Some (List.length values), share_id :: ids)) as Hstep.
  { unfold validate_one. rewrite Hs.
    rewrite (existsb_eqb_notin _ _ Hnew).
    destruct Hsl as [->| ->]; [reflexivity|].
    rewrite Nat.eqb_refl. reflexivity. }
  rewrite Hstep. apply IH.
  - right. reflexivity.
  - intros s' Hs'. apply Hp. right. exact Hs'.
  - exact Hnd'.
  - intros s' Hs' [Heq|Hin].
    + apply Hnotin. rewrite Heq. apply in_map_iff. exists s'. auto.
    + apply (Hids s' (or_intror Hs')), Hin.
Qed.

Lemma parsed_of_Forall2 (n : nat) (shares : list string)
    (parsed : list (Z * list Z)) :
  Forall2 (fun s p => _parse_base62_share s = Ok p
                      /\ List.length (snd p) = n) shares parsed ->
  map parsed_of shares = parsed
  /\ forall s, In s shares ->
       _parse_base62_share s = Ok (parsed_of s)
       /\ List.length (snd (parsed_of s)) = n.
Proof.
  induction 1 as [|s p shares parsed [Hs Hn] _ [IH1 IH2]].
  - split; [reflexivity|]. intros s [].
  - assert (parsed_of s = p) as Hp by (unfold parsed_of; rewrite Hs; reflexivity).
    split; [cbn [map]; rewrite Hp, IH1; reflexivity|].
    intros s' [<-|Hin]; [rewrite Hp; auto|apply IH2, Hin].
Qed.

(** For two or more shares of the current format that carry the same
    number of values, [validate_shares] accepts exactly when the share
    ids are pairwise distinct. *)
Theorem validate_shares_base62 (shares : list string)
    (parsed : list (Z * list Z)) (n : nat) :
  (2 <= List.length shares)%nat ->
  Forall2 (fun s p => _parse_base62_share s = Ok p
                      /\ List.length (snd p) = n) shares parsed ->
  (validate_shares shares = (true, EmptyString)
   <-> NoDup (map fst parsed)).
Proof.
  intros Hlen H2. destruct (parsed_of_Forall2 _ _ _ H2) as [Hmap Hall].
  assert (shares <> []) as Hne by (intros ->; cbn in Hlen; lia).
  split.
  - intros Hv.
    assert (fst (validate_shares shares) = true) as Hv'
      by (rewrite Hv; reflexivity).
    destruct (validated_parse _ Hv') as [_ [parsed' [n' [Hf [_ [Hnd _]]]]]].
    rewrite (parse_all parsed_of n shares Hne Hall) in Hf.
    replace parsed with parsed' by congruence. exact Hnd.
  - intros Hnd. unfold validate_shares.
    destruct shares as [|s rest] eqn:Es; [contradiction|]. rewrite <- Es in *.
    destruct (List.length shares <? 2)%nat eqn:E;
      [apply Nat.ltb_lt in E; lia|].
    apply (validate_loop_base62 n).
    + left. reflexivity.
    + intros s' Hs'. exists (parsed_of s'). apply Hall, Hs'.
    + rewrite <- Hmap, map_map in Hnd. exact Hnd.
    + intros s' _ [].
Qed.

Lemma validate_shares_base62_witness :
  validate_shares ["4gfFC4"; "9NKUO8"] = (true, EmptyString)
  <-> NoDup (map fst [(1, @nil Z); (2, @nil Z)]).
Proof.
  apply (validate_shares_base62 ["4gfFC4"; "9NKUO8"]
           [(1, []); (2, [])] 0).
  - cbn. lia.
  - repeat (constructor; [split; [vm_compute; reflexivity|reflexivity]|]).
    constructor.
Defined.

Lemma selection_validates
    (secret : list Z) (total_shares threshold : Py.value) (g : rng) :
  fst (validate_share_parameters total_shares threshold) = true ->
  fst (validate_secret_length secret 1 10000) = true ->
  Forall is_scalar_value secret ->
  csprng_ok g = true ->
  exists (shares : list string) (g' : rng),
    generate_shares secret total_shares threshold g = Ok (shares, g')
    /\ forall idxs : list nat,
         NoDup idxs -> (2 <= List.length idxs)%nat ->
         Forall (fun i => (i < List.length shares)%nat) idxs ->
         validate_shares (map (fun i => nth i shares EmptyString) idxs)
         = (true, EmptyString).
Proof.
  intros Hparams Hsecret Hscalar Hok.
  destruct (validate_share_parameters_true _ _ Hparams) as [HN HK].
  destruct (generate_shares_ok _ _ _ _ Hparams Hsecret Hscalar Hok)
    as [sb [cl [g' [He [Hd [Hb [Hl [Hgen [H200 [HLP [HP [Hco Hall]]]]]]]]]]]].
  exists (share_strings (Py.int_of total_shares)
            (Z.of_nat (List.length sb)) cl), g'.
  split; [exact Hgen|].
  intros idxs Hnd Hlen Hidx. rewrite share_strings_length in Hidx.
  set (N := Py.int_of total_shares) in *.
  set (L := List.length sb) in *.
  assert (Forall (Forall is_byte) cl) as Hcl
    by (apply Forall_impl with (2 := Hall); intros cs [_ H]; exact H).
  assert (forall i, In i idxs ->
            _parse_base62_share (nth i (share_strings N (Z.of_nat L) cl)
                                     EmptyString)
            = Ok (id_at i, firstn L (share_values cl (id_at i)))) as Hparse.
  { intros i Hi. rewrite Forall_forall in Hidx. specialize (Hidx i Hi).
    rewrite share_strings_nth by exact Hidx.
    rewrite share_string_parse; try assumption; try lia.
    - rewrite Nat2Z.id. reflexivity.
    - unfold id_at. lia. }
  unfold validate_shares.
  destruct (map (fun i => nth i (share_strings N (Z.of_nat L) cl)
                              EmptyString) idxs) as [|s0 rest] eqn:Es.
  { destruct idxs; [cbn in Hlen; lia|discriminate]. }
  rewrite <- Es.
  destruct (List.length _ <? 2)%nat eqn:E.
  { apply Nat.ltb_lt in E. rewrite length_map in E. lia. }
  apply (validate_loop_base62 L).
  - left. reflexivity.
  - intros s Hs. apply in_map_iff in Hs. destruct Hs as [i [<- Hi]].
    eexists. split; [apply Hparse, Hi|]. cbn [snd].
    apply firstn_length_exact. rewrite share_values_length. exact HLP.
  - rewrite map_map.
    replace (map (fun i => fst (parsed_of (nth i (share_strings N
                                                    (Z.of_nat L) cl)
                                               EmptyString))) idxs)
      with (map id_at idxs).
    + apply id_at_NoDup, Hnd.
    + apply map_ext_in. intros i Hi. unfold parsed_of.
      rewrite (Hparse i Hi). reflexivity.
  - intros s _ [].
Qed.

(** Any two or more of the shares of one split, taken at distinct
    positions, pass [validate_shares]. *)
Theorem generated_shares_validate
    (secret : list Z) (total_shares threshold : Py.value) (g : rng) :
  fst (validate_share_parameters total_shares threshold) = true ->
  fst (validate_secret_length secret 1 10000) = true ->
  Forall is_scalar_value secret ->
  csprng_ok g = true ->
  exists (shares : list string) (g' : rng),
    generate_shares secret total_shares threshold g = Ok (shares, g')
    /\ forall idxs : list nat,
         NoDup idxs -> (2 <= List.length idxs)%nat ->
         Forall (fun i => (i < List.length shares)%nat) idxs ->
         validate_shares (map (fun i => nth i shares EmptyString) idxs)
         = (true, EmptyString).
Proof. apply selection_validates. Qed.

Lemma generated_shares_validate_witness :
  exists (shares : list string) (g' : rng),
    generate_shares example_secret (Py.Int 3) (Py.Int 2) example_rng
    = Ok (shares, g')
    /\ forall idxs : list nat,
         NoDup idxs -> (2 <= List.length idxs)%nat ->
         Forall (fun i => (i < List.length shares)%nat) idxs ->
         validate_shares (map (fun i => nth i shares EmptyString) idxs)
         = (true, EmptyString).
Proof.
  apply (generated_shares_validate example_secret (Py.Int 3) (Py.Int 2)
           example_rng).
  - reflexivity.
  - reflexivity.
  - apply example_secret_scalar.
  - reflexivity.
Defined.

(** ** [generate_random_secret] *)

Lemma secret_chars_checked :
  forallb secret_char_check (map Z.of_nat (seq 0 70)) = true.
Proof. vm_compute. reflexivity. Qed.

Lemma secret_char_at (i : Z) :
  0 <= i < 70 -> In (Py.ord (Py.char_at secret_chars i)) secret_code_points.
Proof.
  intros Hi. pose proof secret_chars_checked as H.
  rewrite forallb_forall in H. specialize (H i).
  unfold secret_char_check in H.
  assert (In i (map Z.of_nat (seq 0 70))) as Hin.
  { apply in_map_iff. exists (Z.to_nat i). split; [lia|]. apply in_seq. lia. }
  apply H in Hin. apply existsb_exists in Hin.
  destruct Hin as [c [Hc Heq]]. apply Z.eqb_eq in Heq. rewrite Heq. exact Hc.
Qed.

Lemma secret_code_points_range (c : Z) :
  In c secret_code_points -> 33 <= c <= 122.
Proof.
  intros H.
  assert (forallb (fun c => (33 <=? c) && (c <=? 122)) secret_code_points
          = true) as Hall by (vm_compute; reflexivity).
  rewrite forallb_forall in Hall. specialize (Hall c H). lia.
Qed.

Lemma random_choices_spec (n : nat) :
  forall g,
  csprng_ok g = true ->
  exists secret,
    random_choices n secret_chars g = Some (secret, advance g n)
    /\ List.length secret = n
    /\ Forall (fun c => In c secret_code_points) secret.
Proof.
  induction n as [|n IH]; intros g Hok.
  - exists []. rewrite advance_zero. repeat split. constructor.
  - assert (choice secret_chars g
            = Some (Py.ord (Py.char_at secret_chars (raw g (pos g) mod 70)),
                    mk_rng (csprng_ok g) (raw g) (S (pos g)))) as Hch.
    { unfold choice, randbelow. rewrite Hok. reflexivity. }
    cbn [random_choices]. rewrite Hch.
    destruct (IH (mk_rng (csprng_ok g) (raw g) (S (pos g))) Hok)
      as [rest [Hr [Hl Hc]]].
    rewrite Hr. eexists. split; [|split].
    + f_equal. f_equal. unfold advance. cbn [csprng_ok raw pos]. f_equal. lia.
    + cbn [List.length]. rewrite Hl. reflexivity.
    + constructor; [|exact Hc].
      apply secret_char_at. apply Z.mod_pos_bound. lia.
Qed.

(** The first character already needs the random source. *)
Lemma random_choices_fails (n : nat) (chars : string) (g : rng) :
  csprng_ok g = false -> (0 < n)%nat -> random_choices n chars g = None.
Proof.
  intros Hno Hn. destruct n as [|n]; [lia|].
  cbn [random_choices]. unfold choice. rewrite Hno. reflexivity.
Qed.

(** A string of printable ASCII characters is its own UTF-8 encoding. *)
Lemma utf8_encode_ascii (s : list Z) :
  Forall (fun c => 0 <= c < 128) s -> Utf8.encode s = Ok s.
Proof.
  induction 1 as [|c s Hc _ IH]; [reflexivity|].
  cbn [Utf8.encode]. unfold Utf8.encode_code_point.
  destruct (c <? 128) eqn:E; [|lia]. cbn [bind]. rewrite IH. reflexivity.
Qed.

Lemma generate_random_secret_ok (length : Z) (g : rng) :
  1 <= length <= 50000 -> csprng_ok g = true ->
  exists secret,
    generate_random_secret length g
    = Ok (secret, advance g (Z.to_nat length))
    /\ Z.of_nat (List.length secret) = length
    /\ Forall (fun c => In c secret_code_points) secret.
Proof.
  intros Hlen Hok. unfold generate_random_secret.
  destruct (length <? 1) eqn:E1; [lia|].
  destruct (50000 <? length) eqn:E2; [lia|]. cbn [orb].
  destruct (random_choices_spec (Z.to_nat length) g Hok)
    as [secret [Hr [Hl Hc]]].
  exists secret. fold secret_chars. rewrite Hr.
  split; [reflexivity|]. split; [lia|exact Hc].
Qed.

Lemma generate_random_secret_fails (length : Z) (g : rng) :
  1 <= length <= 50000 -> csprng_ok g = false ->
  generate_random_secret length g
  = Err (SecurityError "Failed to generate random secret").
Proof.
  intros Hlen Hno. unfold generate_random_secret.
  destruct (length <? 1) eqn:E1; [lia|].
  destruct (50000 <? length) eqn:E2; [lia|]. cbn [orb].
  rewrite random_choices_fails by (try assumption; lia). reflexivity.
Qed.

Lemma secret_code_points_facts (secret : list Z) :
  Forall (fun c => In c secret_code_points) secret ->
  ~ In 0 secret
  /\ Forall is_scalar_value secret
  /\ Utf8.encode secret = Ok secret.
Proof.
  intros H.
  assert (Forall (fun c => 33 <= c <= 122) secret) as Hr.
  { revert H. apply Forall_impl. apply secret_code_points_range. }
  split; [|split].
  - intros Hin. rewrite Forall_forall in Hr. specialize (Hr 0 Hin). lia.
  - revert Hr. apply Forall_impl. intros c Hc.
    unfold is_scalar_value, Utf8.is_code_point, Utf8.is_surrogate.
    split; [lia|]. destruct (55296 <=? c) eqn:E; [lia|reflexivity].
  - apply utf8_encode_ascii. revert Hr. apply Forall_impl. intros c Hc. lia.
Qed.

Lemma generated_secret_valid (secret : list Z) :
  1 <= Z.of_nat (List.length secret) <= 50000 ->
  Forall (fun c => In c secret_code_points) secret ->
  validate_secret_length secret 1 50000 = (true, EmptyString).
Proof.
  intros Hl Hc.
  destruct (secret_code_points_facts secret Hc) as [Hnul _].
  unfold validate_secret_length.
  destruct (Z.of_nat (List.length secret) <? 1) eqn:E1; [lia|].
  destruct (50000 <? Z.of_nat (List.length secret)) eqn:E2; [lia|].
  destruct (existsb (Z.eqb 0) secret) eqn:E3; [|reflexivity].
  apply existsb_exists in E3. destruct E3 as [c [Hin Hz]].
  apply Z.eqb_eq in Hz. subst c. contradiction.
Qed.

(** [generate_random_secret(length)] raises a [ValueError] unless
    [1 <= length <= 50000].  For a length in that range it returns a
    string when the random source can be read, and raises the
    [SecurityError] of its [except] branch when it cannot; nothing else
    happens.  A string it returns has exactly [length] characters, each
    one of the 70 characters of its alphabet (letters, digits and
    [!@#$%^&*]); it has no NUL and passes [validate_secret_length] with
    its default limits. *)
Theorem generate_random_secret_spec (length : Z) (g : rng) :
  (length < 1 \/ 50000 < length ->
   generate_random_secret length g
   = Err (ValueError "Secret length must be between 1 and 50000 characters"))
  /\ (1 <= length <= 50000 ->
      (csprng_ok g = true ->
       exists secret g',
         generate_random_secret length g = Ok (secret, g'))
      /\ (csprng_ok g = false ->
          generate_random_secret length g
          = Err (SecurityError "Failed to generate random secret"))
      /\ (forall secret g',
            generate_random_secret length g = Ok (secret, g') ->
            Z.of_nat (List.length secret) = length
            /\ Forall (fun c => In c secret_code_points) secret
            /\ validate_secret_length secret 1 50000 = (true, EmptyString))).
Proof.
  split.
  - intros H. unfold generate_random_secret.
    destruct (length <? 1) eqn:E1; [reflexivity|].
    destruct (50000 <? length) eqn:E2; [reflexivity|]. lia.
  - intros Hlen. split; [|split].
    + intros Hok.
      destruct (generate_random_secret_ok length g Hlen Hok)
        as [secret [Hg _]]. eauto.
    + apply generate_random_secret_fails, Hlen.
    + intros secret g' Hgen. destruct (csprng_ok g) eqn:Hok.
      * destruct (generate_random_secret_ok length g Hlen Hok)
          as [s [Hg [Hl Hc]]].
        assert (s = secret) as -> by congruence.
        split; [exact Hl|]. split; [exact Hc|].
        apply generated_secret_valid; [lia|exact Hc].
      * rewrite (generate_random_secret_fails length g Hlen Hok) in Hgen.
        discriminate.
Qed.

(** A generated secret and [generate_shares]: a secret of up to 10 000
    characters is split, and any K or more of its shares give it back; a
    generated secret of more than 10 000 characters, although
    [generate_random_secret] hands it out, is refused by
    [generate_shares], whose limit is lower. *)
Theorem generated_secret_split
    (length N K : Z) (g g1 : rng) (secret : list Z) :
  generate_random_secret length g = Ok (secret, g1) ->
  2 <= K <= N -> N <= 255 ->
  (10000 < length ->
   generate_shares secret (Py.Int N) (Py.Int K) g1
   = Err (ValueError "Secret cannot exceed 10000 characters"))
  /\ (length <= 10000 -> csprng_ok g = true ->
      exists (shares : list string) (g2 : rng),
        generate_shares secret (Py.Int N) (Py.Int K) g1 = Ok (shares, g2)
        /\ forall idxs : list nat,
             NoDup idxs -> K <= Z.of_nat (List.length idxs) ->
             Forall (fun i => (i < List.length shares)%nat) idxs ->
             reconstruct_secret
               (map (fun i => nth i shares EmptyString) idxs)
             = Ok secret).
Proof.
  intros Hgen HK HN.
  assert (1 <= length <= 50000) as Hlen.
  { unfold generate_random_secret in Hgen.
    destruct (length <? 1) eqn:E1; [discriminate|].
    destruct (50000 <? length) eqn:E2; [discriminate|]. lia. }
  assert (csprng_ok g = true) as Hsource.
  { destruct (csprng_ok g) eqn:Hok; [reflexivity|].
    rewrite (generate_random_secret_fails length g Hlen Hok) in Hgen.
    discriminate. }
  destruct (generate_random_secret_ok length g Hlen Hsource)
    as [s [Hg [Hl Hc]]].
  assert (s = secret /\ advance g (Z.to_nat length) = g1) as [-> <-]
    by (split; congruence).
  destruct (secret_code_points_facts secret Hc) as [Hnul [Hscalar He]].
  split.
  - intros Hbig.
    apply (generate_shares_rejections secret (Py.Int N) (Py.Int K)).
    + apply validate_share_parameters_int; assumption.
    + lia.
  - intros Hsmall Hok.
    destruct (split_arguments secret secret N K He ltac:(lia) ltac:(lia)
                Hnul HK HN Hscalar) as [Hparams Hsecret].
    destruct (generate_shares_spec secret (Py.Int N) (Py.Int K)
                (advance g (Z.to_nat length)) Hparams Hsecret Hscalar Hok)
      as [sb [cl [He' [Hd [Hb [Hlb [Hlen' [Hgs [Hco Hall]]]]]]]]].
    assert (sb = secret) by congruence. subst sb.
    cbn [Py.int_of] in *.
    eexists. eexists. split; [exact Hgs|].
    intros idxs Hnd Hmany Hidx. rewrite share_strings_length in Hidx.
    assert (Forall (Forall is_byte) cl) as Hcl.
    { apply Forall_impl with (2 := Hall). intros cs [_ [H _]]. exact H. }
    assert (idxs <> []) as Hne by (intros ->; cbn in Hmany; lia).
    rewrite (reconstruct_selection N (List.length secret) cl idxs
               (fun t => nth t secret 0)); try assumption; try lia.
    + rewrite nth_seq_map, Hd. reflexivity.
    + intros t Ht.
      destruct (nth_Forall2_hd _ _ _ t Hco Ht) as [[Hh [Hlc Hcb]] _].
      split.
      * rewrite lagrange_interpolation_polynomial.
        -- rewrite evaluate_polynomial_zero, Hh. reflexivity.
        -- exact Hcb.
        -- apply Forall_map, Forall_forall. intros i Hi.
           rewrite Forall_forall in Hidx. specialize (Hidx i Hi).
           unfold id_at, is_byte. lia.
        -- apply id_at_NoDup, Hnd.
        -- unfold is_byte. lia.
        -- destruct idxs; [contradiction|discriminate].
        -- rewrite length_map. lia.
      * rewrite Forall_forall in Hb. apply Hb, nth_In, Ht.
Qed.

Lemma generated_secret_split_witness :
  (10000 < 3 ->
   generate_shares [97; 97; 97] (Py.Int 3) (Py.Int 2) (advance example_rng 3)
   = Err (ValueError "Secret cannot exceed 10000 characters"))
  /\ (3 <= 10000 -> csprng_ok example_rng = true ->
      exists (shares : list string) (g2 : rng),
        generate_shares [97; 97; 97] (Py.Int 3) (Py.Int 2)
                        (advance example_rng 3) = Ok (shares, g2)
        /\ forall idxs : list nat,
             NoDup idxs -> 2 <= Z.of_nat (List.length idxs) ->
             Forall (fun i => (i < List.length shares)%nat) idxs ->
             reconstruct_secret
               (map (fun i => nth i shares EmptyString) idxs)
             = Ok [97; 97; 97]).
Proof.
  apply (generated_secret_split 3 3 2 example_rng (advance example_rng 3)
           [97; 97; 97]).
  - reflexivity.
  - lia.
  - lia.
Defined.

(** ** The reconstruction tab *)

Lemma base62_space_checked :
  forallb base62_space_check (map Z.of_nat (seq 0 62)) = true.
Proof. vm_compute. reflexivity. Qed.

(** No character of the alphabet is white space. *)
Lemma base62_not_space (c : ascii) :
  Py.contains _BASE62_ALPHABET c = true -> Gui.isspace c = false.
Proof.
  intros H. destruct (base62_index c H) as [Hi Hc].
  pose proof base62_space_checked as Hall.
  rewrite forallb_forall in Hall.
  specialize (Hall (Py.index_of _BASE62_ALPHABET c)).
  unfold base62_space_check in Hall. rewrite Hc in Hall.
  apply negb_true_iff, Hall.
  apply in_map_iff. exists (Z.to_nat (Py.index_of _BASE62_ALPHABET c)).
  split; [lia|]. apply in_seq. lia.
Qed.

Lemma newline_space : Gui.isspace Gui.newline = true.
Proof. reflexivity. Qed.

Lemma not_space_not_newline (c : ascii) :
  Gui.isspace c = false -> Ascii.eqb c Gui.newline = false.
Proof.
  intros H. destruct (Ascii.eqb c Gui.newline) eqn:E; [|reflexivity].
  apply Ascii.eqb_eq in E. subst c. discriminate.
Qed.

Lemma rstrip_head (c : ascii) (s : string) :
  Gui.isspace c = false ->
  exists r, Gui.rstrip (String c s) = String c r.
Proof.
  intros H. cbn [Gui.rstrip]. rewrite H.
  destruct (Gui.rstrip s); eauto.
Qed.

Lemma lstrip_base62 (s : string) : all_base62 s = true -> Gui.lstrip s = s.
Proof.
  destruct s as [|c s]; [reflexivity|]. cbn [all_base62 Gui.lstrip].
  intros H. apply andb_true_iff in H. destruct H as [Hc _].
  rewrite (base62_not_space c Hc). reflexivity.
Qed.

Lemma rstrip_base62 (s : string) : all_base62 s = true -> Gui.rstrip s = s.
Proof.
  induction s as [|c s IH]; [reflexivity|]. cbn [all_base62 Gui.rstrip].
  intros H. apply andb_true_iff in H. destruct H as [Hc Hs].
  rewrite (IH Hs), (base62_not_space c Hc). destruct s; reflexivity.
Qed.

Lemma strip_base62 (s : string) : all_base62 s = true -> Gui.strip s = s.
Proof.
  intros H. unfold Gui.strip. rewrite lstrip_base62 by assumption.
  apply rstrip_base62, H.
Qed.

(** A string that ends in a part that [rstrip] keeps is kept whole. *)
Lemma rstrip_app_keep (s t : string) :
  t <> EmptyString -> Gui.rstrip t = t ->
  Gui.rstrip (s ++ t) = (s ++ t)%string.
Proof.
  intros Hne Ht. induction s as [|c s IH]; [exact Ht|].
  cbn [String.append Gui.rstrip]. rewrite IH.
  destruct (s ++ t)%string eqn:E; [|reflexivity].
  destruct s; [cbn in E; contradiction|discriminate].
Qed.

(** Trailing white space is dropped. *)
Lemma rstrip_app_space (s ws : string) :
  Gui.rstrip ws = EmptyString -> Gui.rstrip (s ++ ws) = Gui.rstrip s.
Proof.
  intros Hws. induction s as [|c s IH]; [exact Hws|].
  cbn [String.append Gui.rstrip]. rewrite IH. reflexivity.
Qed.

Lemma split_line (a : string) (rest : string) :
  all_base62 a = true ->
  Gui.split (a ++ String Gui.newline rest) Gui.newline
  = a :: Gui.split rest Gui.newline.
Proof.
  induction a as [|c a IH]; intros H.
  - cbn [String.append Gui.split]. rewrite Ascii.eqb_refl. reflexivity.
  - cbn [all_base62] in H. apply andb_true_iff in H. destruct H as [Hc Ha].
    cbn [String.append Gui.split].
    rewrite (not_space_not_newline c (base62_not_space c Hc)).
    rewrite (IH Ha). reflexivity.
Qed.

Lemma split_single (a : string) :
  all_base62 a = true -> Gui.split a Gui.newline = [a].
Proof.
  induction a as [|c a IH]; intros H; [reflexivity|].
  cbn [all_base62] in H. apply andb_true_iff in H. destruct H as [Hc Ha].
  cbn [Gui.split].
  rewrite (not_space_not_newline c (base62_not_space c Hc)).
  rewrite (IH Ha). reflexivity.
Qed.

(** The lines of the displayed shares are the shares, with an empty line
    between two of them. *)
Lemma shares_from_content (shares : list string) :
  Forall (fun s => all_base62 s = true /\ s <> EmptyString) shares ->
  filter (fun share => negb (Gui.is_empty share))
         (map Gui.strip (Gui.split (Gui.shares_content shares) Gui.newline))
  = shares.
Proof.
  induction 1 as [|x rest [Hx Hne] Hrest IH]; [reflexivity|].
  unfold Gui.shares_content in *. destruct rest as [|y rest'].
  - cbn [Gui.join]. rewrite split_single by assumption.
    cbn [map filter]. rewrite strip_base62 by assumption.
    destruct x; [contradiction|reflexivity].
  - change (Gui.join (String Gui.newline (String Gui.newline EmptyString))
              (x :: y :: rest'))
      with (x ++ String Gui.newline
                   (String Gui.newline
                      (Gui.join (String Gui.newline
                                   (String Gui.newline EmptyString))
                                (y :: rest'))))%string.
    rewrite split_line by assumption.
    change (Gui.split (String Gui.newline ?s) Gui.newline)
      with (EmptyString :: Gui.split s Gui.newline).
    cbn [map filter]. rewrite strip_base62 by assumption.
    change (Gui.split
              (String Gui.newline
                 (Gui.join (String Gui.newline
                              (String Gui.newline EmptyString))
                           (y :: rest'))) Gui.newline)
      with (EmptyString
              :: Gui.split
                   (Gui.join (String Gui.newline
                                (String Gui.newline EmptyString))
                             (y :: rest')) Gui.newline).
    cbn [map filter]. change (Gui.strip EmptyString) with EmptyString.
    cbn [Gui.is_empty negb]. rewrite IH.
    destruct x; [contradiction|reflexivity].
Qed.

Lemma content_shape (shares : list string) :
  Forall (fun s => all_base62 s = true /\ s <> EmptyString) shares ->
  shares <> [] ->
  Gui.shares_content shares <> EmptyString
  /\ Gui.lstrip (Gui.shares_content shares) = Gui.shares_content shares
  /\ Gui.rstrip (Gui.shares_content shares) = Gui.shares_content shares
  /\ forall ws, Gui.lstrip (Gui.shares_content shares ++ ws)
                = (Gui.shares_content shares ++ ws)%string.
Proof.
  induction 1 as [|x rest [Hx Hne] Hrest IH]; intros Hn; [contradiction|].
  unfold Gui.shares_content in *. destruct rest as [|y rest'].
  - cbn [Gui.join]. split; [exact Hne|].
    split; [apply lstrip_base62, Hx|]. split; [apply rstrip_base62, Hx|].
    intros ws. destruct x as [|c x]; [contradiction|].
    cbn [all_base62] in Hx. apply andb_true_iff in Hx.
    cbn [String.append Gui.lstrip].
    rewrite (base62_not_space c (proj1 Hx)). reflexivity.
  - destruct (IH ltac:(discriminate)) as [Hcne [_ [Hr _]]].
    set (t := Gui.join (String Gui.newline (String Gui.newline EmptyString))
                       (y :: rest')) in *.
    change (Gui.join (String Gui.newline (String Gui.newline EmptyString))
              (x :: y :: rest'))
      with (x ++ String Gui.newline (String Gui.newline EmptyString) ++ t)%string.
    destruct x as [|c x]; [contradiction|].
    cbn [all_base62] in Hx. apply andb_true_iff in Hx.
    split; [discriminate|]. split; [|split].
    + cbn [String.append Gui.lstrip].
      rewrite (base62_not_space c (proj1 Hx)). reflexivity.
    + rewrite <- string_app_assoc. apply rstrip_app_keep; assumption.
    + intros ws. cbn [String.append Gui.lstrip].
      rewrite (base62_not_space c (proj1 Hx)). reflexivity.
Qed.

(** The displayed shares, followed by any white space, strip to the
    displayed shares. *)
Lemma strip_content (shares : list string) (ws : string) :
  Forall (fun s => all_base62 s = true /\ s <> EmptyString) shares ->
  shares <> [] -> Gui.rstrip ws = EmptyString ->
  Gui.strip (Gui.shares_content shares ++ ws) = Gui.shares_content shares.
Proof.
  intros Hs Hne Hws. destruct (content_shape shares Hs Hne)
    as [_ [_ [Hr Hl]]].
  unfold Gui.strip. rewrite Hl, rstrip_app_space by assumption. exact Hr.
Qed.

Lemma reconstruct_tab_shows (shares : list string) (ws : string)
    (secret : list Z) :
  Forall (fun s => all_base62 s = true /\ s <> EmptyString) shares ->
  Gui.rstrip ws = EmptyString ->
  validate_shares shares = (true, EmptyString) ->
  reconstruct_secret shares = Ok secret ->
  Gui._reconstruct_secret (Gui.shares_content shares ++ ws)
  = Gui.SecretShown secret (List.length shares).
Proof.
  intros Hs Hws Hv Hr.
  assert (shares <> []) as Hne by (intros ->; discriminate).
  unfold Gui._reconstruct_secret.
  rewrite strip_content by assumption.
  rewrite shares_from_content by assumption.
  destruct (content_shape shares Hs Hne) as [Hcne _].
  assert (Gui.is_empty (Gui.shares_content shares) = false) as He
    by (destruct (Gui.shares_content shares); [contradiction|reflexivity]).
  rewrite He, Hv, Hr. cbn [negb].
  destruct shares; [contradiction|reflexivity].
Qed.

Lemma share_strings_base62 (N L : Z) (cl : list (list Z)) (i : nat) :
  (i < Z.to_nat N)%nat -> N <= 255 -> 0 <= L < 65536 ->
  Forall (Forall is_byte) cl ->
  (200 <= List.length cl)%nat -> Z.of_nat (List.length cl) < 65536 ->
  all_base62 (nth i (share_strings N L cl) EmptyString) = true
  /\ nth i (share_strings N L cl) EmptyString <> EmptyString.
Proof.
  intros Hi HN HL Hcl H200 HP. rewrite share_strings_nth by exact Hi.
  split; [apply encode_base62_alphabet|].
  pose proof (frame_encoding_long (id_at i) (share_values cl (id_at i)) L)
    as Hlong.
  intros E. rewrite E in Hlong. cbn [String.length] in Hlong.
  assert (250 <= 0)%nat; [|lia].
  apply Hlong; try assumption.
  - unfold id_at. lia.
  - apply share_values_byte; [assumption|unfold id_at, is_byte; lia].
  - rewrite share_values_length. exact H200.
  - rewrite share_values_length. exact HP.
Qed.

(** From the split tab to the reconstruction tab: when K or more of the
    shares of one split, as the split tab displays them (joined by two
    line feeds, in any order, with any white space after them such as the
    line feed that the text widget adds) are in the input box,
    [_reconstruct_secret] displays the secret. *)
Theorem reconstruct_tab_roundtrip
    (secret secret_bytes : list Z) (N K : Z) (g : rng) :
  Forall is_scalar_value secret ->
  Utf8.encode secret = Ok secret_bytes ->
  (1 <= List.length secret_bytes)%nat ->
  Z.of_nat (List.length secret_bytes) <= 10000 ->
  ~ In 0 secret ->
  2 <= K <= N -> N <= 255 ->
  csprng_ok g = true ->
  exists (shares : list string) (g' : rng),
    generate_shares secret (Py.Int N) (Py.Int K) g = Ok (shares, g')
    /\ forall (idxs : list nat) (ws : string),
         NoDup idxs -> K <= Z.of_nat (List.length idxs) ->
         Forall (fun i => (i < List.length shares)%nat) idxs ->
         Gui.rstrip ws = EmptyString ->
         Gui._reconstruct_secret
           (Gui.shares_content (map (fun i => nth i shares EmptyString) idxs)
            ++ ws)
         = Gui.SecretShown secret (List.length idxs).
Proof.
  intros Hscalar He H1 H2 Hnul HK HN Hok.
  destruct (split_arguments _ _ _ _ He H1 H2 Hnul HK HN Hscalar)
    as [Hparams Hsecret].
  destruct (quorum_reconstructs secret secret_bytes N K g Hscalar He H1 H2
              Hnul HK HN Hok) as [shares [g' [Hgen Hrec]]].
  destruct (selection_validates secret (Py.Int N) (Py.Int K) g Hparams
              Hsecret Hscalar Hok) as [shares' [g'' [Hgen' Hval]]].
  assert (shares' = shares) by congruence. subst shares'.
  destruct (generate_shares_ok _ _ _ _ Hparams Hsecret Hscalar Hok)
    as [sb [cl [g3 [_ [_ [_ [Hl [Hgen3 [H200 [HLP [HP [_ Hall]]]]]]]]]]]].
  assert (shares = share_strings N (Z.of_nat (List.length sb)) cl) as Hsh
    by (cbn [Py.int_of] in Hgen3; congruence).
  exists shares, g'. split; [exact Hgen|].
  intros idxs ws Hnd Hmany Hidx Hws.
  rewrite <- (length_map (fun i => nth i shares EmptyString) idxs).
  apply reconstruct_tab_shows.
  - apply Forall_map, Forall_forall. intros i Hi.
    rewrite Forall_forall in Hidx. specialize (Hidx i Hi).
    rewrite Hsh in *. rewrite share_strings_length in Hidx.
    apply share_strings_base62; try assumption; try lia.
    apply Forall_impl with (2 := Hall). intros cs [_ H]. exact H.
  - exact Hws.
  - apply Hval; try assumption. lia.
  - apply Hrec; assumption.
Qed.

Lemma reconstruct_tab_roundtrip_witness :
  exists (shares : list string) (g' : rng),
    generate_shares example_secret (Py.Int 3) (Py.Int 2) example_rng
    = Ok (shares, g')
    /\ forall (idxs : list nat) (ws : string),
         NoDup idxs -> 2 <= Z.of_nat (List.length idxs) ->
         Forall (fun i => (i < List.length shares)%nat) idxs ->
         Gui.rstrip ws = EmptyString ->
         Gui._reconstruct_secret
           (Gui.shares_content (map (fun i => nth i shares EmptyString) idxs)
            ++ ws)
         = Gui.SecretShown example_secret (List.length idxs).
Proof.
  apply (reconstruct_tab_roundtrip example_secret [72; 105] 3 2 example_rng).
  - apply example_secret_scalar.
  - reflexivity.
  - cbn. lia.
  - cbn. lia.
  - cbn. intuition lia.
  - lia.
  - lia.
  - reflexivity.
Defined.

(** *** Everything the reconstruction tab can end with *)

Lemma lstrip_head (s : string) :
  Gui.lstrip s = EmptyString
  \/ exists c r, Gui.lstrip s = String c r /\ Gui.isspace c = false.
Proof.
  induction s as [|c s IH]; [left; reflexivity|].
  cbn [Gui.lstrip]. destruct (Gui.isspace c) eqn:E; [exact IH|].
  right. exists c, s. auto.
Qed.

Lemma strip_head (s : string) :
  Gui.strip s = EmptyString
  \/ exists c r, Gui.strip s = String c r /\ Gui.isspace c = false.
Proof.
  unfold Gui.strip. destruct (lstrip_head s) as [->|[c [r [-> Hc]]]].
  - left. reflexivity.
  - right. destruct (rstrip_head c r Hc) as [r' Hr]. exists c, r'. auto.
Qed.

Lemma split_head (c : ascii) (s : string) :
  Gui.isspace c = false ->
  exists line lines,
    Gui.split (String c s) Gui.newline = String c line :: lines.
Proof.
  intros Hc. cbn [Gui.split]. rewrite (not_space_not_newline c Hc).
  destruct (Gui.split s Gui.newline); eauto.
Qed.

Lemma strip_nonempty (c : ascii) (s : string) :
  Gui.isspace c = false -> Gui.strip (String c s) <> EmptyString.
Proof.
  intros Hc. unfold Gui.strip. cbn [Gui.lstrip]. rewrite Hc.
  destruct (rstrip_head c s Hc) as [r ->]. discriminate.
Qed.

(** Whatever text is in the input box, [_reconstruct_secret] asks for
    shares exactly when the text is blank; otherwise it reports what
    [validate_shares] objects to, or displays a secret, or reports that
    the reconstructed bytes are not UTF-8.  Its no-valid-shares box and
    its unexpected-error box are never shown, and no other message of
    [reconstruct_secret] reaches the user. *)
Theorem reconstruct_tab_outcomes (text : string) :
  (Gui._reconstruct_secret text = Gui.MissingShares
   <-> Gui.strip text = EmptyString)
  /\ Gui._reconstruct_secret text <> Gui.NoValidShares
  /\ (forall message,
        Gui._reconstruct_secret text = Gui.ReconstructionError message ->
        message = "Reconstructed data is not valid UTF-8")
  /\ (forall message,
        Gui._reconstruct_secret text <> Gui.UnexpectedError message)
  /\ (forall secret n,
        Gui._reconstruct_secret text = Gui.SecretShown secret n ->
        (2 <= n)%nat).
Proof.
  unfold Gui._reconstruct_secret.
  destruct (strip_head text) as [->|[c [r [-> Hc]]]].
  { cbn [Gui.is_empty]. repeat split; try discriminate; auto. }
  cbn [Gui.is_empty].
  destruct (split_head c r Hc) as [line [lines ->]].
  cbn [map filter].
  destruct (Gui.strip (String c line)) as [|c' r'] eqn:Es;
    [exfalso; apply (strip_nonempty c line Hc Es)|].
  cbn [Gui.is_empty negb].
  set (shares := String c' r'
                   :: filter (fun share => negb (Gui.is_empty share))
                        (map Gui.strip lines)).
  destruct (validate_shares shares) as [valid error] eqn:Ev.
  destruct valid; cbn [negb].
  - assert (fst (validate_shares shares) = true) as Hv
      by (rewrite Ev; reflexivity).
    destruct (validated_reconstruct shares Hv) as [Hlen [_ [[secret Hr]|Hr]]];
      rewrite Hr.
    + repeat split; try discriminate.
      intros s n H. replace n with (List.length shares) by congruence.
      exact Hlen.
    + unfold bad_utf8. repeat split; try discriminate.
      intros message H. congruence.
  - repeat split; discriminate.
Qed.
